(** * llm-pdf-go, design-ant: the concurrent batch dispatcher and its cost
      accounting

    A shallow embedding of [design-ant/main.go], [config.go], [api.go],
    [pdf.go] and the type declarations of the package, followed by the
    properties of the dispatcher: index-addressed results, retry policy,
    concurrency bound, aggregation and price lookup.

    Conventions
    - Go [int] and [time.Duration] are 64-bit: values are [Z], arithmetic
      wraps through [GoInt.wrap].
    - Go [float64] is the primitive binary64 type [float]; every
      operation rounds on its own, to nearest even (no fused
      multiply-add).
    - Go [error] is [option string]: [None] is [nil], [Some m] an error
      whose [Error()] text is [m].
    - Calls into the operating system, the network, the clock and the PDF
      library are answered by an explicit environment.
    - Goroutines are interleaved one step at a time; the channel used as
      semaphore, the mutex and the WaitGroup are the only points where
      one goroutine waits for another.
    - Console output and the writing of the JSON file are left out: they
      change neither the results nor the exit code. *)

From Stdlib Require Import ZArith Floats DecimalString Ascii Lia.
From stdpp Require Import gmap strings list.

Open Scope Z_scope.

(** ** Go integers *)

Module GoInt.

Definition wrap (z : Z) : Z := (z + 2 ^ 63) mod 2 ^ 64 - 2 ^ 63.

Definition in_range (z : Z) : Prop := - 2 ^ 63 <= z < 2 ^ 63.

Definition add (a b : Z) : Z := wrap (a + b).

Definition sub (a b : Z) : Z := wrap (a - b).

Definition mul (a b : Z) : Z := wrap (a * b).

  (** [a << n] for a non-negative shift count. *)
Definition shl (a n : Z) : Z := wrap (Z.shiftl a n).

  (** [float64(z)]: conversion with round to nearest even. *)
Definition to_float64 (z : Z) : float :=
    SF2Prim (binary_normalize prec emax z 0 false).

  (** [fmt.Sprintf("%d", z)] *)
Definition to_string (z : Z) : string :=
    NilZero.string_of_int (Z.to_int z).

End GoInt.

(** ** Strings *)

Definition newline : string := String (Ascii.ascii_of_nat 10) EmptyString.

(** [strings.Contains(s, substr)] on byte strings. *)
Fixpoint strings_Contains (s substr : string) : bool :=
  String.prefix substr s
  || match s with
     | EmptyString => false
     | String _ rest => strings_Contains rest substr
     end.

(** ** Package types *)

Module Config.
Record t := mk { APIKey : string; ModelName : string; PDFPath : string }.
End Config.

Module AnthropicPricing.
Record t := mk {
    InputPricePerMTokens : float;
    OutputPricePerMTokens : float }.
Definition zero : t := mk 0%float 0%float.
End AnthropicPricing.

Module ChunkInfo.
Record t := mk { Path : string; StartPage : Z; EndPage : Z }.
End ChunkInfo.

Module ChunkAnalysis.
Record t := mk {
    ChunkNumber : Z;
    StartPage : Z;
    EndPage : Z;
    Analysis : string;
    InputTokens : Z;
    OutputTokens : Z;
    InputCost : float;
    OutputCost : float;
    TotalCost : float;
    ProcessingTime : string;
    Error : string;
    Timestamp : Z }.

  (** The zero value, as [make([]ChunkAnalysis, n)] fills the slice. *)
Definition zero : t :=
    mk 0 0 0 "" 0 0 0%float 0%float 0%float "" "" 0.

  (** [r.Error = msg] on an addressable element. *)
Definition setError (r : t) (msg : string) : t :=
    mk (ChunkNumber r) (StartPage r) (EndPage r) (Analysis r)
       (InputTokens r) (OutputTokens r) (InputCost r) (OutputCost r)
       (TotalCost r) (ProcessingTime r) msg (Timestamp r).
End ChunkAnalysis.

Module ConsolidatedAnalysis.
Record t := mk {
    Analysis : string;
    InputTokens : Z;
    OutputTokens : Z;
    InputCost : float;
    OutputCost : float;
    TotalCost : float;
    ProcessingTime : string;
    Timestamp : Z }.
End ConsolidatedAnalysis.

Module FullAnalysisResult.
Record t := mk {
    PDFPath : string;
    TotalPages : Z;
    TotalChunks : Z;
    Chunks : list ChunkAnalysis.t;
    Consolidated : option ConsolidatedAnalysis.t;
    TotalInputTokens : Z;
    TotalOutputTokens : Z;
    TotalInputCost : float;
    TotalOutputCost : float;
    TotalCost : float;
    ProcessingTime : string;
    GeneratedAt : Z }.
End FullAnalysisResult.

(** ** config.go *)

Definition haiku : string := "claude-3-5-haiku-20241022".

Definition ModelPricing : gmap string AnthropicPricing.t :=
  <[ haiku := AnthropicPricing.mk 0.25 1.25 ]>
  (<[ "claude-3-haiku-20240307" := AnthropicPricing.mk 0.25 1.25 ]>
  (<[ "claude-3-5-sonnet-20241022" := AnthropicPricing.mk 3.00 15.00 ]>
  (<[ "claude-3-opus-20240229" := AnthropicPricing.mk 15.00 75.00 ]> ∅))).

(** [GetPricing] reads the package variable [ModelPricing]; the table is
    an argument here so that the function can be run against any value
    of that variable. A missing key reads as the zero value. *)
Definition GetPricingIn (table : gmap string AnthropicPricing.t)
    (modelName : string) : AnthropicPricing.t :=
  match table !! modelName with
  | Some pricing => pricing
  | None => default AnthropicPricing.zero (table !! haiku)
  end.

Definition GetPricing (modelName : string) : AnthropicPricing.t :=
  GetPricingIn ModelPricing modelName.

(** ** api.go *)

(** Outcome of a library call that returns [(value, error)]. *)
Inductive outcome (A : Type) : Type :=
| Ok (a : A)
| Failed (msg : string).
Arguments Ok {A} a.
Arguments Failed {A} msg.

Module ApiResponse.
  (** The anonymous struct [apiResponse]: the [text] of every content
      block and the two usage counters. *)
Record t := mk {
    Content : list string;
    UsageInputTokens : Z;
    UsageOutputTokens : Z }.
End ApiResponse.

Module HttpResponse.
Record t := mk {
    StatusCode : Z;
    (** [io.ReadAll(resp.Body)] *)
    ReadAll : outcome string }.
End HttpResponse.

(** What the outside world answers during one call of [analyzeChunk].
    [json_Marshal] is the marshalling of the request body, which is built
    from the model name, the base64 text of the file and the prompt for
    the page; [http_NewRequest] is the construction of the POST request
    with its three headers. *)
Module CallEnv.
Record t := mk {
    os_ReadFile : string -> outcome string;
    json_Marshal : outcome string;
    http_NewRequest : outcome unit;
    client_Do : outcome HttpResponse.t;
    json_Unmarshal : string -> outcome ApiResponse.t }.
End CallEnv.

(** The four results of [analyzeChunk]. *)
Module Analyzed.
Record t := mk {
    analysis : string;
    inputTokens : Z;
    outputTokens : Z;
    err : option string }.
  (** The state of the four variables declared before the retry loop. *)
Definition zero : t := mk "" 0 0 None.
End Analyzed.

Definition analyzeChunk (w : CallEnv.t)
    (apiKey modelName chunkPath : string) (pageNumber : Z) : Analyzed.t :=
  match CallEnv.os_ReadFile w chunkPath with
  | Failed e => Analyzed.mk "" 0 0 (Some ("error reading PDF chunk: " +:+ e))
  | Ok pdfBytes =>
  match CallEnv.json_Marshal w with
  | Failed e => Analyzed.mk "" 0 0 (Some ("error marshaling request: " +:+ e))
  | Ok jsonData =>
  match CallEnv.http_NewRequest w with
  | Failed e => Analyzed.mk "" 0 0 (Some ("error creating request: " +:+ e))
  | Ok _ =>
  match CallEnv.client_Do w with
  | Failed e => Analyzed.mk "" 0 0 (Some ("error making request: " +:+ e))
  | Ok resp =>
  match HttpResponse.ReadAll resp with
  | Failed e => Analyzed.mk "" 0 0 (Some ("error reading response: " +:+ e))
  | Ok body =>
    if negb (HttpResponse.StatusCode resp =? 200) then
      Analyzed.mk "" 0 0
        (Some ("API error (status "
               +:+ GoInt.to_string (HttpResponse.StatusCode resp)
               +:+ "): " +:+ body))
    else
      match CallEnv.json_Unmarshal w body with
      | Failed e =>
          Analyzed.mk "" 0 0 (Some ("error parsing response: " +:+ e))
      | Ok apiResponse =>
          let analysis :=
            match ApiResponse.Content apiResponse with
            | [] => ""
            | text :: _ => text
            end in
          Analyzed.mk analysis
            (ApiResponse.UsageInputTokens apiResponse)
            (ApiResponse.UsageOutputTokens apiResponse)
            None
      end
  end end end end end.

(** ** pdf.go *)

(** What the file system and the PDF library answer. [os_Open],
    [api_ExtractPages], [os_Stat_IsNotExist] and [os_ReadDir] are asked
    in the round of one chunk, on the directory as it is in that round,
    and are keyed by the chunk's first page. *)
Module PdfEnv.
Record t := mk {
    os_Open : Z -> outcome unit;
    api_ExtractPages : Z -> list string -> option string;
    os_Stat_IsNotExist : Z -> string -> bool;
    os_ReadDir : Z -> list string;
    filepath_Join : string -> string -> string;
    os_Open_forCount : outcome unit;
    api_PageCount : outcome Z }.
End PdfEnv.

(** [strings.Join(elems, sep)] *)
Fixpoint strings_Join (elems : list string) (sep : string) : string :=
  match elems with
  | [] => ""
  | [e] => e
  | e :: rest => e +:+ sep +:+ strings_Join rest sep
  end.

(** [for p := p0; p <= endPage; p++ { pageSelection = append(...) }];
    [None] when the loop is still running after [fuel] rounds. *)
Fixpoint pageSelectionLoop (fuel : nat) (p endPage : Z)
    (pageSelection : list string) : option (list string) :=
  match fuel with
  | O => if p <=? endPage then None else Some pageSelection
  | S fuel' =>
      if p <=? endPage then
        pageSelectionLoop fuel' (GoInt.add p 1) endPage
          (pageSelection ++ [GoInt.to_string p])
      else Some pageSelection
  end.

(** The alternative-naming search over the directory listing. *)
Fixpoint findChunkFile (env : PdfEnv.t) (tempDir needle : string)
    (files : list string) (actualPath : string) : string :=
  match files with
  | [] => actualPath
  | f :: rest =>
      if strings_Contains f needle then PdfEnv.filepath_Join env tempDir f
      else findChunkFile env tempDir needle rest actualPath
  end.

(** The outer loop of [splitPDFIntoChunks], from [startPage] on; [None]
    when it is still running after [fuel] rounds. *)
Fixpoint splitLoop (env : PdfEnv.t) (fuel : nat)
    (pdfPath tempDir : string) (chunkSize totalPages : Z)
    (startPage : Z) (chunks : list ChunkInfo.t)
    : option (outcome (list ChunkInfo.t)) :=
  if negb (startPage <? totalPages) then Some (Ok chunks) else
  match fuel with
  | O => None
  | S fuel' =>
      let endPage0 := GoInt.add startPage chunkSize in
      let endPage := if endPage0 >? totalPages then totalPages else endPage0 in
      match PdfEnv.os_Open env startPage with
      | Failed e => Some (Failed ("error opening PDF: " +:+ e))
      | Ok _ =>
        match pageSelectionLoop (Z.to_nat (endPage - startPage))
                (GoInt.add startPage 1) endPage [] with
        | None => None
        | Some pageSelection =>
          let chunkName := "chunk_" +:+ GoInt.to_string (GoInt.add startPage 1) in
          match PdfEnv.api_ExtractPages env startPage pageSelection with
          | Some e =>
              Some (Failed ("error extracting pages "
                            +:+ GoInt.to_string (GoInt.add startPage 1) +:+ "-"
                            +:+ GoInt.to_string endPage +:+ ": " +:+ e))
          | None =>
              let actualFileName :=
                chunkName +:+ "_page_" +:+ strings_Join pageSelection "_"
                +:+ ".pdf" in
              let actualPath0 :=
                PdfEnv.filepath_Join env tempDir actualFileName in
              let actualPath :=
                if PdfEnv.os_Stat_IsNotExist env startPage actualPath0
                then findChunkFile env tempDir chunkName
                       (PdfEnv.os_ReadDir env startPage) actualPath0
                else actualPath0 in
              splitLoop env fuel' pdfPath tempDir chunkSize totalPages
                (GoInt.add startPage chunkSize)
                (chunks ++ [ChunkInfo.mk actualPath startPage
                              (GoInt.sub endPage 1)])
          end
        end
      end
  end.

Definition splitPDFIntoChunks (env : PdfEnv.t) (fuel : nat)
    (pdfPath tempDir : string) (chunkSize totalPages : Z)
    : option (outcome (list ChunkInfo.t)) :=
  splitLoop env fuel pdfPath tempDir chunkSize totalPages 0 [].

Definition getPageCount (env : PdfEnv.t) (pdfPath : string) : outcome Z :=
  match PdfEnv.os_Open_forCount env with
  | Failed e => Failed e
  | Ok _ =>
      match PdfEnv.api_PageCount env with
      | Failed e => Failed ("error getting page count: " +:+ e)
      | Ok pages => Ok pages
      end
  end.

(** ** output.go *)

(** The loop of [filepath.Ext] where the separator is [/]: over the bytes
    of the path from the last one down, [suffix] being those it has
    passed. *)
Fixpoint extLoop (rest : list Ascii.ascii) (suffix : string) : string :=
  match rest with
  | [] => ""
  | c :: rest' =>
      if Ascii.eqb c "/"%char then ""
      else if Ascii.eqb c "."%char then String c suffix
      else extLoop rest' (String c suffix)
  end.

(** [filepath.Ext(path)] *)
Definition filepath_Ext (path : string) : string :=
  extLoop (rev (String.list_ascii_of_string path)) "".

(** [filepath_Base] is [filepath.Base]. [None]: the slice expression
    [base[:len(base)-len(ext)]] is out of range. *)
Definition generateOutputFilename (filepath_Base : string -> string)
    (pdfPath format : string) : option string :=
  let base := filepath_Base pdfPath in
  let ext := filepath_Ext base in
  if (String.length ext <=? String.length base)%nat then
    let name := String.substring 0 (String.length base - String.length ext) base in
    Some (name +:+ "_analysis." +:+ format)
  else None.


(** ** main.go: the dispatcher *)

(** What an instrumented analysis client or clock would observe of one
    worker: every entry into [analyzeChunk] with its attempt number, and
    every [time.Sleep] with its duration. *)
Inductive Event : Type :=
| EvCall (attempt : Z)
| EvSleep (waitTime : Z).

(** How one round of the retry loop ends. *)
Inductive LoopNext : Type :=
| Break
| SleepThenContinue (waitTime : Z)
| FallThrough.

(** Where a worker goroutine stands. *)
Inductive WorkerPc : Type :=
| WIdle                 (* the go statement has not run yet *)
| WAcquire              (* at [semaphore <- struct{}{}] *)
| WLoop (attempt : Z)   (* at the loop test [attempt < maxRetries] *)
| WCall (attempt : Z)   (* [analyzeChunk] is in flight *)
| WSleep (attempt : Z)  (* in [time.Sleep(waitTime)] *)
| WLock                 (* at [mu.Lock()] *)
| WWrite                (* holds [mu], about to assign [results[index]] *)
| WUnlock               (* at [mu.Unlock()] *)
| WRelease              (* deferred [<-semaphore] *)
| WWgDone               (* deferred [wg.Done()] *)
| WDone.

Record Worker : Type := mkWorker {
  pc : WorkerPc;
  cur : Analyzed.t;      (* analysis, inputTokens, outputTokens, err *)
  hist : list Event }.

Inductive MainPc : Type :=
| MSpawn (next : nat)    (* in the [for i, chunk := range chunks] loop *)
| MWait                  (* at [wg.Wait()] *)
| MJoined                (* [wg.Wait()] has returned *)
| MPanic.                (* a goroutine panicked: the process is gone *)

Record State : Type := mkState {
  mainPc : MainPc;
  workers : list Worker;
  semaphore : nat;       (* number of tokens in the channel buffer *)
  mu : bool;             (* the mutex is held *)
  wg : nat;              (* the WaitGroup counter *)
  results : list ChunkAnalysis.t }.

Inductive Tid : Type :=
| TMain
| TWorker (index : nat).

#[global] Instance Tid_eq_dec : EqDecision Tid.
Proof. solve_decision. Defined.

Definition isCall (p : WorkerPc) : bool :=
  match p with WCall _ => true | _ => false end.

(** The worker holds a slot of the semaphore. *)
Definition holdsSlot (p : WorkerPc) : bool :=
  match p with
  | WLoop _ | WCall _ | WSleep _ | WLock | WWrite | WUnlock | WRelease => true
  | _ => false
  end.

Definition holdsMu (p : WorkerPc) : bool :=
  match p with WWrite | WUnlock => true | _ => false end.

(** The worker has been added to the WaitGroup and is not done. *)
Definition isActive (p : WorkerPc) : bool :=
  match p with WIdle | WDone => false | _ => true end.

Definition hasWritten (p : WorkerPc) : bool :=
  match p with WUnlock | WRelease | WWgDone | WDone => true | _ => false end.

Definition sumPc (f : WorkerPc -> nat) (ws : list Worker) : nat :=
  sum_list_with (fun w => f (pc w)) ws.

Definition natOfBool (x : bool) : nat := if x then 1%nat else 0%nat.

(** The number of workers whose position satisfies [f]. *)
Definition countPc (f : WorkerPc -> bool) (ws : list Worker) : nat :=
  sumPc (fun p => natOfBool (f p)) ws.

Definition callsOf (evs : list Event) : list Z :=
  omap (fun e => match e with EvCall a => Some a | _ => None end) evs.

Definition sleepsOf (evs : list Event) : list Z :=
  omap (fun e => match e with EvSleep w => Some w | _ => None end) evs.

Definition isRateLimit (msg : string) : bool :=
  strings_Contains msg "rate_limit" || strings_Contains msg "429".

Definition Second : Z := 1000000000.

(** What a batch is run with. [table] is the package variable
    [ModelPricing], [config] the [config] of [main], [chunks] the result
    of [splitPDFIntoChunks]. [maxConcurrent], [maxRetries] and
    [retryDelay] are the three constants of the dispatcher, [4], [3] and
    [2 * time.Second] in [main]; the attempt counter runs from [0] to
    [maxRetries] and is compared with [maxRetries - 1], clear of the
    wrap-around. [world index attempt] is the outside world at the call
    that worker [index] makes in round [attempt]. [time_Since] and
    [time_Now] are what [time.Since(chunkStartTime)] and [time.Now()]
    return to worker [index]; [Duration_String] is [Duration.String]. *)
Module Batch.
Record t := mk {
  table : gmap string AnthropicPricing.t;
  config : Config.t;
  chunks : list ChunkInfo.t;
  maxConcurrent : nat;
  maxRetries : Z;
  retryDelay : Z;
  world : nat -> Z -> CallEnv.t;
  time_Since : nat -> Z;
  time_Now : nat -> Z;
  Duration_String : Z -> string }.

(** The same batch under another concurrency limit. *)
Definition withMaxConcurrent (b : t) (limit : nat) : t :=
  mk (table b) (config b) (chunks b) limit (maxRetries b) (retryDelay b)
    (world b) (time_Since b) (time_Now b) (Duration_String b).
End Batch.

Section Dispatcher.

Variable b : Batch.t.

Local Abbreviation table := (Batch.table b).
Local Abbreviation config := (Batch.config b).
Local Abbreviation chunks := (Batch.chunks b).
Local Abbreviation maxConcurrent := (Batch.maxConcurrent b).
Local Abbreviation maxRetries := (Batch.maxRetries b).
Local Abbreviation retryDelay := (Batch.retryDelay b).
Local Abbreviation world := (Batch.world b).
Local Abbreviation time_Since := (Batch.time_Since b).
Local Abbreviation time_Now := (Batch.time_Now b).
Local Abbreviation Duration_String := (Batch.Duration_String b).

(** [retryDelay * time.Duration(1<<attempt)] *)
Definition waitTime (attempt : Z) : Z :=
  GoInt.mul retryDelay (GoInt.shl 1 attempt).

(** The call in the loop body. *)
Definition callAnalyze (index : nat) (chunk : ChunkInfo.t) (attempt : Z)
    : Analyzed.t :=
  analyzeChunk (world index attempt)
    (Config.APIKey config) (Config.ModelName config)
    (ChunkInfo.Path chunk) (GoInt.add (ChunkInfo.StartPage chunk) 1).

(** The loop body after the call has returned [r]. *)
Definition afterCall (attempt : Z) (r : Analyzed.t) : LoopNext :=
  match Analyzed.err r with
  | None => Break
  | Some msg =>
      if isRateLimit msg then
        if attempt <? maxRetries - 1
        then SleepThenContinue (waitTime attempt)
        else FallThrough
      else Break
  end.

(** The retry loop of one worker, run on its own from [attempt] on with
    the four result variables at [cur]: their final value and the events
    of the run. [fuel] bounds the rounds; [maxRetries - attempt] rounds
    are enough. *)
Fixpoint retryLoop (fuel : nat) (index : nat) (chunk : ChunkInfo.t)
    (attempt : Z) (cur : Analyzed.t) : Analyzed.t * list Event :=
  match fuel with
  | O => (cur, [])
  | S fuel' =>
      if attempt <? maxRetries then
        let r := callAnalyze index chunk attempt in
        match afterCall attempt r with
        | Break => (r, [EvCall attempt])
        | SleepThenContinue w =>
            let '(final, evs) := retryLoop fuel' index chunk (attempt + 1) r in
            (final, EvCall attempt :: EvSleep w :: evs)
        | FallThrough =>
            let '(final, evs) := retryLoop fuel' index chunk (attempt + 1) r in
            (final, EvCall attempt :: evs)
        end
      else (cur, [])
  end.

Definition runRetry (index : nat) (chunk : ChunkInfo.t)
    : Analyzed.t * list Event :=
  retryLoop (Z.to_nat maxRetries) index chunk 0 Analyzed.zero.

(** The element a worker stores under the mutex, [Error] included. *)
Definition chunkResult (index : nat) (chunk : ChunkInfo.t) (r : Analyzed.t)
    : ChunkAnalysis.t :=
  let pricing := GetPricingIn table (Config.ModelName config) in
  let inputCost :=
    (GoInt.to_float64 (Analyzed.inputTokens r) / 1000000
     * AnthropicPricing.InputPricePerMTokens pricing)%float in
  let outputCost :=
    (GoInt.to_float64 (Analyzed.outputTokens r) / 1000000
     * AnthropicPricing.OutputPricePerMTokens pricing)%float in
  let entry :=
    ChunkAnalysis.mk
      (GoInt.add (Z.of_nat index) 1)
      (GoInt.add (ChunkInfo.StartPage chunk) 1)
      (GoInt.add (ChunkInfo.EndPage chunk) 1)
      (Analyzed.analysis r)
      (Analyzed.inputTokens r)
      (Analyzed.outputTokens r)
      inputCost
      outputCost
      (inputCost + outputCost)%float
      (Duration_String (time_Since index))
      ""
      (time_Now index) in
  match Analyzed.err r with
  | Some msg => ChunkAnalysis.setError entry msg
  | None => entry
  end.

(** The element the batch is to hold at [index]. *)
Definition unitResult (index : nat) (chunk : ChunkInfo.t) : ChunkAnalysis.t :=
  chunkResult index chunk (fst (runRetry index chunk)).

(** *** The goroutines, one step at a time *)

Definition init : State :=
  mkState (MSpawn 0)
    (replicate (length chunks) (mkWorker WIdle Analyzed.zero []))
    0%nat false 0%nat
    (replicate (length chunks) ChunkAnalysis.zero).

Definition panic (s : State) : State :=
  mkState MPanic (workers s) (semaphore s) (mu s) (wg s) (results s).

Definition setWorker (s : State) (index : nat) (w : Worker) : State :=
  mkState (mainPc s) (<[index := w]> (workers s))
    (semaphore s) (mu s) (wg s) (results s).

Definition setPc (w : Worker) (p : WorkerPc) : Worker :=
  mkWorker p (cur w) (hist w).

(** The main goroutine: [wg.Add(1); go func(...)] for each chunk, then
    [wg.Wait()]. *)
Definition stepMain (s : State) : option State :=
  match mainPc s with
  | MSpawn k =>
      match chunks !! k, workers s !! k with
      | Some _, Some w =>
          Some (mkState (MSpawn (S k)) (<[k := setPc w WAcquire]> (workers s))
                  (semaphore s) (mu s) (S (wg s)) (results s))
      | _, _ =>
          Some (mkState MWait (workers s) (semaphore s) (mu s) (wg s)
                  (results s))
      end
  | MWait =>
      match wg s with
      | O => Some (mkState MJoined (workers s) (semaphore s) (mu s) O
                     (results s))
      | S _ => None
      end
  | MJoined | MPanic => None
  end.

(** The next step of worker [index], which runs the closure over
    [chunk] and stands at [pc w]; [None] when it is blocked, not started
    or done. *)
Definition stepAt (index : nat) (chunk : ChunkInfo.t) (w : Worker)
    (s : State) : option State :=
  match pc w with
  | WIdle => None
  | WAcquire =>
      if (semaphore s <? maxConcurrent)%nat then
        Some (mkState (mainPc s)
                (<[index := setPc w (WLoop 0)]> (workers s))
                (S (semaphore s)) (mu s) (wg s) (results s))
      else None
  | WLoop attempt =>
      Some (setWorker s index
              (if attempt <? maxRetries
               then mkWorker (WCall attempt) (cur w)
                      (hist w ++ [EvCall attempt])
               else setPc w WLock))
  | WCall attempt =>
      let r := callAnalyze index chunk attempt in
      Some (setWorker s index
              match afterCall attempt r with
              | Break => mkWorker WLock r (hist w)
              | SleepThenContinue d =>
                  mkWorker (WSleep attempt) r (hist w ++ [EvSleep d])
              | FallThrough => mkWorker (WLoop (attempt + 1)) r (hist w)
              end)
  | WSleep attempt =>
      Some (setWorker s index (setPc w (WLoop (attempt + 1))))
  | WLock =>
      if mu s then None
      else Some (mkState (mainPc s)
                   (<[index := setPc w WWrite]> (workers s))
                   (semaphore s) true (wg s) (results s))
  | WWrite =>
      if decide (index < length (results s))%nat then
        Some (mkState (mainPc s)
                (<[index := setPc w WUnlock]> (workers s))
                (semaphore s) (mu s) (wg s)
                (<[index := chunkResult index chunk (cur w)]> (results s)))
      else Some (panic s)
  | WUnlock =>
      if mu s then
        Some (mkState (mainPc s)
                (<[index := setPc w WRelease]> (workers s))
                (semaphore s) false (wg s) (results s))
      else Some (panic s)
  | WRelease =>
      match semaphore s with
      | O => None
      | S n =>
          Some (mkState (mainPc s)
                  (<[index := setPc w WWgDone]> (workers s))
                  n (mu s) (wg s) (results s))
      end
  | WWgDone =>
      match wg s with
      | O => Some (panic s)
      | S n =>
          Some (mkState (mainPc s)
                  (<[index := setPc w WDone]> (workers s))
                  (semaphore s) (mu s) n (results s))
      end
  | WDone => None
  end.

Definition stepWorker (index : nat) (s : State) : option State :=
  match mainPc s with
  | MPanic => None
  | _ =>
      match workers s !! index, chunks !! index with
      | Some w, Some chunk => stepAt index chunk w s
      | _, _ => None
      end
  end.

Definition step (t : Tid) (s : State) : option State :=
  match t with
  | TMain => stepMain s
  | TWorker index => stepWorker index s
  end.

(** Run a schedule: the goroutine named at each position takes one step;
    [None] when a goroutine is named that cannot move. *)
Fixpoint exec (sched : list Tid) (s : State) : option State :=
  match sched with
  | [] => Some s
  | t :: rest =>
      match step t s with
      | Some s' => exec rest s'
      | None => None
      end
  end.

Definition joined (s : State) : bool :=
  match mainPc s with MJoined => true | _ => false end.

(** The number of [analyzeChunk] calls in flight. *)
Definition inFlight (s : State) : nat := countPc isCall (workers s).

(** A complete run of the dispatcher under [sched]: the [results] slice
    as [main] reads it after [wg.Wait()]. *)
Definition dispatch (sched : list Tid) : option (list ChunkAnalysis.t) :=
  match exec sched init with
  | Some s => if joined s then Some (results s) else None
  | None => None
  end.

(** The first goroutine of [ts] that can move, and the state after its
    step. *)
Fixpoint firstRunnable (ts : list Tid) (s : State) : option (Tid * State) :=
  match ts with
  | [] => None
  | t :: rest =>
      match step t s with
      | Some s' => Some (t, s')
      | None => firstRunnable rest s
      end
  end.

(** The goroutines of the batch. *)
Definition allTids : list Tid :=
  TMain :: map TWorker (seq 0 (length chunks)).

(** A scheduler that always moves the first goroutine that can move,
    the main one first; it returns the schedule it has followed. *)
Fixpoint greedy (fuel : nat) (s : State) : list Tid :=
  match fuel with
  | O => []
  | S fuel' =>
      match firstRunnable allTids s with
      | Some (t, s') => t :: greedy fuel' s'
      | None => []
      end
  end.

(** A scheduler that takes turns: the goroutine that has just moved goes
    to the back of the queue [ts]. *)
Fixpoint roundRobin (fuel : nat) (ts : list Tid) (s : State) : list Tid :=
  match fuel with
  | O => []
  | S fuel' =>
      match firstRunnable ts s with
      | Some (t, s') =>
          t :: roundRobin fuel' (filter (fun u => u <> t) ts ++ [t]) s'
      | None => []
      end
  end.

End Dispatcher.

(** *** Totals and the full result *)

(** The four accumulators of the loop over [results]. *)
Record ChunkTotals : Type := mkTotals {
  chunkInputTokens : Z;
  chunkOutputTokens : Z;
  chunkInputCost : float;
  chunkOutputCost : float }.

Definition addChunk (acc : ChunkTotals) (result : ChunkAnalysis.t)
    : ChunkTotals :=
  mkTotals
    (GoInt.add (chunkInputTokens acc) (ChunkAnalysis.InputTokens result))
    (GoInt.add (chunkOutputTokens acc) (ChunkAnalysis.OutputTokens result))
    (chunkInputCost acc + ChunkAnalysis.InputCost result)%float
    (chunkOutputCost acc + ChunkAnalysis.OutputCost result)%float.

Definition chunkTotals (results : list ChunkAnalysis.t) : ChunkTotals :=
  foldl addChunk (mkTotals 0 0 0%float 0%float) results.

Definition buildFullResult (config : Config.t) (totalPages : Z)
    (nChunks : nat) (results : list ChunkAnalysis.t)
    (processingTime : string) (generatedAt : Z) : FullAnalysisResult.t :=
  let totals := chunkTotals results in
  let totalInputTokens := chunkInputTokens totals in
  let totalOutputTokens := chunkOutputTokens totals in
  let totalInputCost := chunkInputCost totals in
  let totalOutputCost := chunkOutputCost totals in
  FullAnalysisResult.mk
    (Config.PDFPath config)
    totalPages
    (Z.of_nat nChunks)
    results
    None
    totalInputTokens
    totalOutputTokens
    totalInputCost
    totalOutputCost
    (totalInputCost + totalOutputCost)%float
    processingTime
    generatedAt.

(** The dispatcher followed by the aggregation. *)
Definition runBatch (b : Batch.t) (totalPages totalDuration generatedAt : Z)
    (sched : list Tid) : option FullAnalysisResult.t :=
  match dispatch b sched with
  | Some results =>
      Some (buildFullResult (Batch.config b) totalPages
              (length (Batch.chunks b)) results
              (Batch.Duration_String b totalDuration) generatedAt)
  | None => None
  end.

(** *** main *)

Module MainEnv.
Record t := mk {
  os_Args : list string;
  ANTHROPIC_API_KEY : string;
  os_Stat_IsNotExist : string -> bool;
  pdf : PdfEnv.t;
  os_MkdirTemp : outcome string;
  world : nat -> Z -> CallEnv.t;
  time_Since : nat -> Z;
  time_Now : nat -> Z;
  Duration_String : Z -> string;
  totalDuration : Z;
  generatedAt : Z }.
End MainEnv.

(** How the process ends: [log.Fatal] or the return of [main]. *)
Inductive Exit : Type :=
| Fatal (msg : string)
| Returned (fullResult : FullAnalysisResult.t).

Definition exitCode (e : Exit) : Z :=
  match e with
  | Fatal _ => 1
  | Returned _ => 0
  end.

Definition maxConcurrent : nat := 4.
Definition maxRetries : Z := 3.
Definition retryDelay : Z := GoInt.mul 2 Second.

(** [main] under the schedule [sched] of its goroutines. [None]: [sched]
    is not a complete schedule of the batch, or the splitting loop has
    not ended. *)
Definition main (env : MainEnv.t) (sched : list Tid) : option Exit :=
  if (length (MainEnv.os_Args env) <? 2)%nat then
    Some (Fatal ("Usage: go run main.go <pdf-file>" +:+ newline
                 +:+ "Example: go run main.go ../design-analysis/v6truboEngine.pdf"))
  else
  let config :=
    Config.mk (MainEnv.ANTHROPIC_API_KEY env) haiku
      (nth 1 (MainEnv.os_Args env) "") in
  if String.eqb (Config.APIKey config) "" then
    Some (Fatal "Error: ANTHROPIC_API_KEY not found in environment variables")
  else if MainEnv.os_Stat_IsNotExist env (Config.PDFPath config) then
    Some (Fatal ("Error: PDF file not found: " +:+ Config.PDFPath config))
  else
  match getPageCount (MainEnv.pdf env) (Config.PDFPath config) with
  | Failed e => Some (Fatal ("Error getting page count: " +:+ e))
  | Ok totalPages =>
  let chunkSize := 1 in
  match MainEnv.os_MkdirTemp env with
  | Failed e => Some (Fatal ("Error creating temp directory: " +:+ e))
  | Ok tempDir =>
  match splitPDFIntoChunks (MainEnv.pdf env) (Z.to_nat totalPages)
          (Config.PDFPath config) tempDir chunkSize totalPages with
  | None => None
  | Some (Failed e) => Some (Fatal ("Error splitting PDF: " +:+ e))
  | Some (Ok chunks) =>
      match runBatch
              (Batch.mk ModelPricing config chunks maxConcurrent maxRetries
                 retryDelay (MainEnv.world env) (MainEnv.time_Since env)
                 (MainEnv.time_Now env) (MainEnv.Duration_String env))
              totalPages (MainEnv.totalDuration env)
              (MainEnv.generatedAt env) sched with
      | Some fullResult => Some (Returned fullResult)
      | None => None
      end
  end end end.

(** ** Sample inputs *)

Module Sample.

(** A call that succeeds with the given text and usage counters. *)
Definition succeed (text : string) (input output : Z) : CallEnv.t :=
  CallEnv.mk (fun _ => Ok "%PDF") (Ok "{}") (Ok tt)
    (Ok (HttpResponse.mk 200 (Ok "{}")))
    (fun _ => Ok (ApiResponse.mk [text] input output)).

(** A call answered with the given HTTP status and body. *)
Definition refuse (status : Z) (body : string) : CallEnv.t :=
  CallEnv.mk (fun _ => Ok "%PDF") (Ok "{}") (Ok tt)
    (Ok (HttpResponse.mk status (Ok body)))
    (fun _ => Failed "unexpected end of JSON input").

Definition pages (n : nat) : list ChunkInfo.t :=
  map (fun k => ChunkInfo.mk "chunk.pdf" (Z.of_nat k) (Z.of_nat k)) (seq 0 n).

Definition noClock : nat -> Z := fun _ => 0.
Definition noString : Z -> string := fun _ => "".

Definition config : Config.t := Config.mk "key" haiku "doc.pdf".

(** Unit 0 is throttled twice and then succeeds, unit 1 fails for good,
    unit 2 is throttled at every attempt, unit 3 succeeds at once. *)
Definition mixedWorld (index : nat) (attempt : Z) : CallEnv.t :=
  match index with
  | 0%nat =>
      if attempt <? 2 then refuse 429 "rate_limit_error"
      else succeed "# Page 1" 1200 340
  | 1%nat => refuse 400 "invalid_request_error"
  | 2%nat => refuse 429 "rate_limit_error"
  | _ => succeed "# Page 4" 900 210
  end.

Definition mixedBatch : Batch.t :=
  Batch.mk ModelPricing config (pages 4) maxConcurrent maxRetries retryDelay
    mixedWorld noClock noClock noString.

Definition mixedSchedule : list Tid :=
  roundRobin mixedBatch 200 (allTids mixedBatch) (init mixedBatch).

(** The same batch, one worker at a time. *)
Definition serialBatch : Batch.t := Batch.withMaxConcurrent mixedBatch 1.

Definition serialSchedule : list Tid :=
  greedy serialBatch 200 (init serialBatch).

(** The cost example: two units with usage (100, 50) and (200, 100) and
    a price entry of 1.0 and 2.0 per million tokens. *)
Definition costTable : gmap string AnthropicPricing.t :=
  <[ "priced" := AnthropicPricing.mk 1.0 2.0 ]> ∅.

Definition costConfig : Config.t := Config.mk "key" "priced" "doc.pdf".

Definition costWorld (index : nat) (attempt : Z) : CallEnv.t :=
  match index with
  | 0%nat => succeed "a" 100 50
  | _ => succeed "b" 200 100
  end.

Definition costBatch : Batch.t :=
  Batch.mk costTable costConfig (pages 2) maxConcurrent maxRetries retryDelay
    costWorld noClock noClock noString.

Definition costSchedule : list Tid :=
  roundRobin costBatch 100 (allTids costBatch) (init costBatch).

(** A readable document without pages. *)
Definition emptyPdf : PdfEnv.t :=
  PdfEnv.mk (fun _ => Ok tt) (fun _ _ => None) (fun _ _ => false)
    (fun _ => [])
    (fun dir name => dir +:+ "/" +:+ name) (Ok tt) (Ok 0).

Definition emptyDocument : MainEnv.t :=
  MainEnv.mk ["design-ant"; "empty.pdf"] "key" (fun _ => false) emptyPdf
    (Ok "/tmp/pdf-chunks-1") (fun _ _ => succeed "" 0 0)
    noClock noClock noString 0 0.

(** A document whose page tree cannot be read. *)
Definition brokenDocument : MainEnv.t :=
  MainEnv.mk ["design-ant"; "broken.pdf"] "key" (fun _ => false)
    (PdfEnv.mk (fun _ => Ok tt) (fun _ _ => None) (fun _ _ => false)
       (fun _ => [])
       (fun dir name => dir +:+ "/" +:+ name) (Ok tt)
       (Failed "validation error"))
    (Ok "/tmp/pdf-chunks-2") (fun _ _ => succeed "" 0 0)
    noClock noClock noString 0 0.

(** A document of three pages whose analysis goes as in [mixedWorld]. *)
Definition threePagesPdf : PdfEnv.t :=
  PdfEnv.mk (fun _ => Ok tt) (fun _ _ => None) (fun _ _ => false)
    (fun _ => [])
    (fun dir name => dir +:+ "/" +:+ name) (Ok tt) (Ok 3).

Definition threePages : MainEnv.t :=
  MainEnv.mk ["design-ant"; "three.pdf"] "key" (fun _ => false) threePagesPdf
    (Ok "/tmp/pdf-chunks-3") mixedWorld noClock noClock noString 0 0.

Definition threePagesBatch : Batch.t :=
  Batch.mk ModelPricing config (pages 3) maxConcurrent maxRetries retryDelay
    mixedWorld noClock noClock noString.

Definition threePagesSchedule : list Tid :=
  roundRobin threePagesBatch 200 (allTids threePagesBatch)
    (init threePagesBatch).

(** The same document when every call is refused for good. *)
Definition threePagesRefused : MainEnv.t :=
  MainEnv.mk ["design-ant"; "three.pdf"] "key" (fun _ => false) threePagesPdf
    (Ok "/tmp/pdf-chunks-3") (fun _ _ => refuse 400 "invalid_request_error")
    noClock noClock noString 0 0.

Definition threePagesRefusedBatch : Batch.t :=
  Batch.mk ModelPricing config (pages 3) maxConcurrent maxRetries retryDelay
    (fun _ _ => refuse 400 "invalid_request_error") noClock noClock noString.

Definition threePagesRefusedSchedule : list Tid :=
  greedy threePagesRefusedBatch 200 (init threePagesRefusedBatch).

(** A page that the service refuses for good, with status 400 and a body
    that gives the size of the prompt. *)
Definition tooLongWorld (index : nat) (attempt : Z) : CallEnv.t :=
  refuse 400 "prompt is too long: 214297 tokens > 200000 maximum".

Definition tooLongBatch : Batch.t :=
  Batch.mk ModelPricing config (pages 1) maxConcurrent maxRetries retryDelay
    tooLongWorld noClock noClock noString.

Definition tooLongSchedule : list Tid :=
  greedy tooLongBatch 100 (init tooLongBatch).

(** The temporary directory of a document of twelve pages that is split
    five pages at a time, when the library writes one file for each page,
    [chunk_<s+1>_page_<p>.pdf] for page [p] of the chunk that starts at
    page [s]: what [os.ReadDir] lists, sorted by name, in the round that
    starts at [startPage]. *)
Definition perPageListing (startPage : Z) : list string :=
  let first :=
    ["chunk_1_page_1.pdf"; "chunk_1_page_2.pdf"; "chunk_1_page_3.pdf";
     "chunk_1_page_4.pdf"; "chunk_1_page_5.pdf"] in
  let second :=
    ["chunk_6_page_10.pdf"; "chunk_6_page_6.pdf"; "chunk_6_page_7.pdf";
     "chunk_6_page_8.pdf"; "chunk_6_page_9.pdf"] in
  let third := ["chunk_11_page_11.pdf"; "chunk_11_page_12.pdf"] in
  if startPage <? 5 then first
  else if startPage <? 10 then first ++ second
  else third ++ first ++ second.

(** The file that joins the pages of a chunk is never there. *)
Definition perPagePdf : PdfEnv.t :=
  PdfEnv.mk (fun _ => Ok tt) (fun _ _ => None) (fun _ _ => true)
    perPageListing
    (fun dir name => dir +:+ "/" +:+ name) (Ok tt) (Ok 12).

End Sample.

(** * Properties *)

(** ** The price table *)

Lemma ModelPricing_haiku :
  ModelPricing !! haiku = Some (AnthropicPricing.mk 0.25 1.25).
Proof. reflexivity. Qed.

(** C9. [GetPricing] is total: for every model identifier it returns the
    table's entry when the identifier is a key of [ModelPricing], and
    the claude-3-5-haiku entry, 0.25 and 1.25 per million tokens, when
    it is not. *)
Theorem GetPricing_total_with_default (modelName : string) :
  GetPricing modelName
  = default (AnthropicPricing.mk 0.25 1.25) (ModelPricing !! modelName).
Proof.
  unfold GetPricing, GetPricingIn.
  destruct (ModelPricing !! modelName) as [pricing|]; simpl.
  - reflexivity.
  - rewrite ModelPricing_haiku. reflexivity.
Qed.

(** ** analyzeChunk *)

(** C10. When [analyzeChunk] returns an error, the text is empty and
    both token counts are 0; when it returns no error, every step has
    succeeded, the status is 200, and the text and the token counts are
    those of the parsed response. *)
Theorem analyzeChunk_error_means_zero_values
    (w : CallEnv.t) (apiKey modelName chunkPath : string) (pageNumber : Z) :
  let r := analyzeChunk w apiKey modelName chunkPath pageNumber in
  (Analyzed.err r <> None ->
     Analyzed.analysis r = ""
     /\ Analyzed.inputTokens r = 0
     /\ Analyzed.outputTokens r = 0)
  /\ (Analyzed.err r = None ->
     exists pdfBytes jsonData resp body apiResponse,
       CallEnv.os_ReadFile w chunkPath = Ok pdfBytes
       /\ CallEnv.json_Marshal w = Ok jsonData
       /\ CallEnv.http_NewRequest w = Ok tt
       /\ CallEnv.client_Do w = Ok resp
       /\ HttpResponse.ReadAll resp = Ok body
       /\ HttpResponse.StatusCode resp = 200
       /\ CallEnv.json_Unmarshal w body = Ok apiResponse
       /\ Analyzed.analysis r = hd "" (ApiResponse.Content apiResponse)
       /\ Analyzed.inputTokens r = ApiResponse.UsageInputTokens apiResponse
       /\ Analyzed.outputTokens r = ApiResponse.UsageOutputTokens apiResponse).
Proof.
  unfold analyzeChunk.
  destruct (CallEnv.os_ReadFile w chunkPath) as [pdfBytes|] eqn:Hread;
    [|split; [auto | discriminate]].
  destruct (CallEnv.json_Marshal w) as [jsonData|] eqn:Hjson;
    [|split; [auto | discriminate]].
  destruct (CallEnv.http_NewRequest w) as [[]|] eqn:Hreq;
    [|split; [auto | discriminate]].
  destruct (CallEnv.client_Do w) as [resp|] eqn:Hdo;
    [|split; [auto | discriminate]].
  destruct (HttpResponse.ReadAll resp) as [body|] eqn:Hbody;
    [|split; [auto | discriminate]].
  destruct (HttpResponse.StatusCode resp =? 200) eqn:Hstatus; simpl;
    [|split; [auto | discriminate]].
  apply Z.eqb_eq in Hstatus.
  destruct (CallEnv.json_Unmarshal w body) as [apiResponse|] eqn:Hparse;
    [|split; [auto | discriminate]].
  split; [intros Herr; contradiction Herr; reflexivity|].
  intros _. exists pdfBytes, jsonData, resp, body, apiResponse.
  repeat split; try assumption.
Qed.

Lemma analyzeChunk_error_means_zero_values_witness :
  Analyzed.analysis
    (analyzeChunk (Sample.refuse 429 "rate_limit_error") "key" haiku
       "chunk.pdf" 1) = ""
  /\ Analyzed.inputTokens
       (analyzeChunk (Sample.refuse 429 "rate_limit_error") "key" haiku
          "chunk.pdf" 1) = 0
  /\ Analyzed.outputTokens
       (analyzeChunk (Sample.refuse 429 "rate_limit_error") "key" haiku
          "chunk.pdf" 1) = 0.
Proof.
  apply (analyzeChunk_error_means_zero_values
           (Sample.refuse 429 "rate_limit_error") "key" haiku "chunk.pdf" 1).
  discriminate.
Defined.

(** ** Counting workers *)

Lemma sumPc_insert (f : WorkerPc -> nat) (ws : list Worker) (i : nat)
    (w w' : Worker) :
  ws !! i = Some w ->
  (sumPc f (<[i := w']> ws) + f (pc w) = sumPc f ws + f (pc w'))%nat.
Proof.
  unfold sumPc. revert i.
  induction ws as [|x ws IH]; intros [|i] Hi; simpl in *; try discriminate.
  - injection Hi as ->. lia.
  - specialize (IH i Hi). lia.
Qed.

Lemma sumPc_lookup_le (f : WorkerPc -> nat) (ws : list Worker) (i : nat)
    (w : Worker) :
  ws !! i = Some w -> (f (pc w) <= sumPc f ws)%nat.
Proof.
  unfold sumPc. revert i.
  induction ws as [|x ws IH]; intros [|i] Hi; simpl in *; try discriminate.
  - injection Hi as ->. lia.
  - specialize (IH i Hi). lia.
Qed.

Lemma sumPc_pos (f : WorkerPc -> nat) (ws : list Worker) :
  (0 < sumPc f ws)%nat ->
  exists i w, ws !! i = Some w /\ (0 < f (pc w))%nat.
Proof.
  unfold sumPc.
  induction ws as [|x ws IH]; simpl; intros Hpos; [lia|].
  destruct (f (pc x)) eqn:Hx.
  - destruct IH as (i & w & Hi & Hw); [lia|]. exists (S i), w. auto.
  - exists 0%nat, x. split; [reflexivity | lia].
Qed.

Lemma sumPc_mono (f g : WorkerPc -> nat) (ws : list Worker) :
  (forall p, (f p <= g p)%nat) -> (sumPc f ws <= sumPc g ws)%nat.
Proof.
  intros Hfg. unfold sumPc.
  induction ws as [|x ws IH]; simpl; [lia|]. specialize (Hfg (pc x)). lia.
Qed.

Lemma countPc_lookup (f : WorkerPc -> bool) (ws : list Worker) (i : nat)
    (w : Worker) :
  ws !! i = Some w -> f (pc w) = true -> (0 < countPc f ws)%nat.
Proof.
  intros Hi Hf.
  pose proof (sumPc_lookup_le (fun p => natOfBool (f p)) ws i w Hi) as Hle.
  simpl in Hle. rewrite Hf in Hle. unfold countPc. simpl in Hle. lia.
Qed.

Lemma countPc_pos (f : WorkerPc -> bool) (ws : list Worker) :
  (0 < countPc f ws)%nat -> exists i w, ws !! i = Some w /\ f (pc w) = true.
Proof.
  intros Hpos. apply sumPc_pos in Hpos as (i & w & Hi & Hw).
  exists i, w. split; [assumption|].
  destruct (f (pc w)); [reflexivity | simpl in Hw; lia].
Qed.

Lemma countPc_zero (f : WorkerPc -> bool) (ws : list Worker) (i : nat)
    (w : Worker) :
  countPc f ws = 0%nat -> ws !! i = Some w -> f (pc w) = false.
Proof.
  intros Hzero Hi. destruct (f (pc w)) eqn:Hf; [|reflexivity].
  pose proof (countPc_lookup f ws i w Hi Hf). lia.
Qed.

Lemma countPc_replicate (f : WorkerPc -> bool) (n : nat) (w : Worker) :
  f (pc w) = false -> countPc f (replicate n w) = 0%nat.
Proof.
  intros Hf. unfold countPc, sumPc.
  induction n as [|n IH]; simpl; [reflexivity|]. rewrite Hf, IH. reflexivity.
Qed.

(** ** The retry loop of one worker *)

Section RetryLoop.

Variable b : Batch.t.
Variable index : nat.
Variable chunk : ChunkInfo.t.

Local Abbreviation maxRetries := (Batch.maxRetries b).

(** Rounds left when the loop test is reached with [attempt]. *)
Definition roundsLeft (attempt : Z) : nat := Z.to_nat (maxRetries - attempt).

(** The rest of the loop from the test on. *)
Definition loopFrom (attempt : Z) (cur : Analyzed.t)
    : Analyzed.t * list Event :=
  retryLoop b (roundsLeft attempt) index chunk attempt cur.

(** The rest of the loop once the call of round [attempt] is in
    flight. *)
Definition callFrom (attempt : Z) : Analyzed.t * list Event :=
  let r := callAnalyze b index chunk attempt in
  match afterCall b attempt r with
  | Break => (r, [])
  | SleepThenContinue d =>
      (fst (loopFrom (attempt + 1) r),
       EvSleep d :: snd (loopFrom (attempt + 1) r))
  | FallThrough => loopFrom (attempt + 1) r
  end.

Lemma loopFrom_enter (attempt : Z) (cur : Analyzed.t) :
  attempt < maxRetries ->
  loopFrom attempt cur
  = (fst (callFrom attempt), EvCall attempt :: snd (callFrom attempt)).
Proof.
  intros Hlt. unfold callFrom, loopFrom, roundsLeft.
  replace (Z.to_nat (maxRetries - attempt))
    with (S (Z.to_nat (maxRetries - (attempt + 1)))) by lia.
  simpl. destruct (Z.ltb_spec attempt maxRetries) as [_|Hge]; [|lia].
  destruct (afterCall b attempt (callAnalyze b index chunk attempt));
    [reflexivity| |];
    destruct (retryLoop b _ index chunk (attempt + 1) _); reflexivity.
Qed.

Lemma loopFrom_exit (attempt : Z) (cur : Analyzed.t) :
  maxRetries <= attempt -> loopFrom attempt cur = (cur, []).
Proof.
  intros Hge. unfold loopFrom, roundsLeft.
  replace (Z.to_nat (maxRetries - attempt)) with 0%nat by lia. reflexivity.
Qed.

Lemma runRetry_loopFrom : runRetry b index chunk = loopFrom 0 Analyzed.zero.
Proof.
  unfold runRetry, loopFrom, roundsLeft. rewrite Z.sub_0_r. reflexivity.
Qed.

(** Extra fuel changes nothing. *)
Lemma retryLoop_enough_fuel (fuel : nat) (attempt : Z) (cur : Analyzed.t) :
  (roundsLeft attempt <= fuel)%nat ->
  retryLoop b fuel index chunk attempt cur = loopFrom attempt cur.
Proof.
  revert attempt cur.
  induction fuel as [|fuel IH]; intros attempt cur Hfuel.
  - unfold loopFrom. replace (roundsLeft attempt) with 0%nat by lia.
    reflexivity.
  - destruct (Z.ltb_spec attempt maxRetries) as [Hlt|Hge].
    + rewrite (loopFrom_enter attempt cur Hlt). unfold callFrom. simpl.
      destruct (Z.ltb_spec attempt maxRetries) as [_|Hge]; [|lia].
      assert (roundsLeft (attempt + 1) <= fuel)%nat as Hfuel'
        by (unfold roundsLeft in *; lia).
      destruct (afterCall b attempt (callAnalyze b index chunk attempt));
        [reflexivity| |]; rewrite (IH _ _ Hfuel');
        destruct (loopFrom (attempt + 1) _); reflexivity.
    + rewrite (loopFrom_exit attempt cur Hge). simpl.
      destruct (Z.ltb_spec attempt maxRetries) as [Hlt|_]; [lia|].
      reflexivity.
Qed.

(** *** Outcomes of a single call *)

(** The call of round [attempt] hits the rate limit. *)
Definition transientAt (attempt : Z) : Prop :=
  exists msg,
    Analyzed.err (callAnalyze b index chunk attempt) = Some msg
    /\ isRateLimit msg = true.

(** The call of round [attempt] fails on anything else. *)
Definition permanentAt (attempt : Z) : Prop :=
  exists msg,
    Analyzed.err (callAnalyze b index chunk attempt) = Some msg
    /\ isRateLimit msg = false.

Definition succeedsAt (attempt : Z) : Prop :=
  Analyzed.err (callAnalyze b index chunk attempt) = None.

Lemma afterCall_success (attempt : Z) :
  succeedsAt attempt ->
  afterCall b attempt (callAnalyze b index chunk attempt) = Break.
Proof. unfold succeedsAt, afterCall. intros ->. reflexivity. Qed.

Lemma afterCall_permanent (attempt : Z) :
  permanentAt attempt ->
  afterCall b attempt (callAnalyze b index chunk attempt) = Break.
Proof.
  intros (msg & Herr & Hrate). unfold afterCall. rewrite Herr, Hrate.
  reflexivity.
Qed.

Lemma afterCall_transient (attempt : Z) :
  transientAt attempt ->
  afterCall b attempt (callAnalyze b index chunk attempt)
  = if attempt <? maxRetries - 1
    then SleepThenContinue (waitTime b attempt)
    else FallThrough.
Proof.
  intros (msg & Herr & Hrate). unfold afterCall. rewrite Herr, Hrate.
  reflexivity.
Qed.

(** A run of transient failures from [attempt] up to a success in round
    [attempt + k]: the loop ends with the result of that round. *)
Lemma loopFrom_transient_then_success (k : nat) (attempt : Z)
    (cur : Analyzed.t) :
  0 <= attempt ->
  attempt + Z.of_nat k < maxRetries ->
  (forall j, attempt <= j < attempt + Z.of_nat k -> transientAt j) ->
  succeedsAt (attempt + Z.of_nat k) ->
  fst (loopFrom attempt cur)
  = callAnalyze b index chunk (attempt + Z.of_nat k).
Proof.
  revert attempt cur.
  induction k as [|k IH]; intros attempt cur Hpos Hlt Htrans Hok.
  - rewrite Z.add_0_r in *. rewrite loopFrom_enter by lia.
    unfold callFrom. rewrite afterCall_success by assumption. reflexivity.
  - rewrite loopFrom_enter by lia. unfold callFrom.
    rewrite afterCall_transient by (apply Htrans; lia).
    destruct (Z.ltb_spec attempt (maxRetries - 1)) as [_|Hlast]; [|lia].
    simpl. replace (attempt + Z.of_nat (S k)) with (attempt + 1 + Z.of_nat k)
      in * by lia.
    apply IH; [lia | lia | | assumption].
    intros j Hj. apply Htrans. lia.
Qed.

(** Transient failures in every round from [attempt] on: the loop ends
    with the result of the last round. *)
Lemma loopFrom_all_transient (n : nat) (attempt : Z) (cur : Analyzed.t) :
  0 <= attempt ->
  attempt + Z.of_nat n = maxRetries - 1 ->
  (forall j, attempt <= j < maxRetries -> transientAt j) ->
  fst (loopFrom attempt cur) = callAnalyze b index chunk (maxRetries - 1).
Proof.
  revert attempt cur.
  induction n as [|n IH]; intros attempt cur Hpos Hlast Htrans.
  - rewrite Z.add_0_r in Hlast. subst attempt.
    rewrite loopFrom_enter by lia. unfold callFrom.
    rewrite afterCall_transient by (apply Htrans; lia).
    rewrite Z.ltb_irrefl. simpl.
    rewrite loopFrom_exit by lia. reflexivity.
  - rewrite loopFrom_enter by lia. unfold callFrom.
    rewrite afterCall_transient by (apply Htrans; lia).
    destruct (Z.ltb_spec attempt (maxRetries - 1)) as [_|Hge]; [|lia].
    simpl. apply IH; [lia | lia |]. intros j Hj. apply Htrans. lia.
Qed.

(** The sleeps of the rest of the loop, in order: sleep [k] comes after
    the throttled round [attempt + k], which is not the last one, and
    lasts [waitTime (attempt + k)]. *)
Lemma loopFrom_sleeps (n : nat) :
  forall (attempt : Z) (cur : Analyzed.t) (k : nat) (d : Z),
    roundsLeft attempt = n ->
    sleepsOf (snd (loopFrom attempt cur)) !! k = Some d ->
    d = waitTime b (attempt + Z.of_nat k)
    /\ attempt + Z.of_nat k < maxRetries - 1
    /\ transientAt (attempt + Z.of_nat k).
Proof.
  induction n as [|n IH]; intros attempt cur k d Hn Hk.
  - rewrite loopFrom_exit in Hk by (unfold roundsLeft in Hn; lia).
    discriminate.
  - assert (attempt < maxRetries) as Hlt by (unfold roundsLeft in Hn; lia).
    assert (roundsLeft (attempt + 1) = n) as Hn'
      by (unfold roundsLeft in *; lia).
    rewrite loopFrom_enter in Hk by assumption. unfold callFrom in Hk.
    unfold afterCall in Hk.
    destruct (Analyzed.err (callAnalyze b index chunk attempt)) as [msg|]
      eqn:Herr; [|discriminate].
    destruct (isRateLimit msg) eqn:Hrate; [|discriminate].
    destruct (Z.ltb_spec attempt (maxRetries - 1)) as [Hnotlast|Hlast].
    + simpl in Hk. destruct k as [|k]; simpl in Hk.
      * injection Hk as <-. rewrite Z.add_0_r.
        split; [reflexivity | split; [lia | exists msg; auto]].
      * destruct (IH _ _ _ _ Hn' Hk) as (-> & Hbound & Htransient).
        replace (attempt + Z.of_nat (S k)) with (attempt + 1 + Z.of_nat k)
          by lia.
        split; [reflexivity | split; [lia | assumption]].
    + simpl in Hk. rewrite loopFrom_exit in Hk by lia. discriminate.
Qed.

(** *** Where a worker stands in its loop *)

(** What is still to come for a worker: the final value of its four
    result variables and the events not yet recorded. *)
Definition future (w : Worker) : Analyzed.t * list Event :=
  match pc w with
  | WIdle | WAcquire => loopFrom 0 (cur w)
  | WLoop attempt => loopFrom attempt (cur w)
  | WCall attempt => callFrom attempt
  | WSleep attempt => loopFrom (attempt + 1) (cur w)
  | _ => (cur w, [])
  end.

(** The whole run of a worker: its record so far and what is to come. *)
Definition complete (w : Worker) : Analyzed.t * list Event :=
  (fst (future w), hist w ++ snd (future w)).

End RetryLoop.

(** ** The invariant of the dispatcher *)

(** Worker [index] has not been started while the main goroutine is at
    [m]. *)
Definition notStarted (m : MainPc) (index : nat) : Prop :=
  match m with
  | MSpawn next => (next <= index)%nat
  | _ => False
  end.

Section Invariant.

Variable b : Batch.t.

Local Abbreviation chunks := (Batch.chunks b).
Local Abbreviation maxConcurrent := (Batch.maxConcurrent b).
Local Abbreviation maxRetries := (Batch.maxRetries b).

Record Inv (s : State) : Prop := mkInv {
  inv_workers : length (workers s) = length chunks;
  inv_results : length (results s) = length chunks;
  inv_alive : mainPc s <> MPanic;
  inv_started : forall i w,
    workers s !! i = Some w -> (pc w = WIdle <-> notStarted (mainPc s) i);
  inv_sem : semaphore s = countPc holdsSlot (workers s);
  inv_bound : (semaphore s <= maxConcurrent)%nat;
  inv_mu : countPc holdsMu (workers s) = natOfBool (mu s);
  inv_wg : wg s = countPc isActive (workers s);
  inv_joined : forall i w,
    mainPc s = MJoined -> workers s !! i = Some w -> pc w = WDone;
  inv_fresh : forall i w,
    workers s !! i = Some w ->
    holdsSlot (pc w) = false -> hasWritten (pc w) = false -> hist w = [];
  inv_link : forall i w c,
    workers s !! i = Some w -> chunks !! i = Some c ->
    complete b i c w = runRetry b i c;
  inv_written : forall i w c,
    workers s !! i = Some w -> chunks !! i = Some c ->
    hasWritten (pc w) = true ->
    results s !! i = Some (unitResult b i c) }.

Lemma init_Inv : Inv (init b).
Proof.
  split; simpl.
  - apply length_replicate.
  - apply length_replicate.
  - discriminate.
  - intros i w Hw. apply lookup_replicate in Hw as [-> _]. simpl.
    split; [lia | reflexivity].
  - symmetry. apply countPc_replicate. reflexivity.
  - lia.
  - apply countPc_replicate. reflexivity.
  - symmetry. apply countPc_replicate. reflexivity.
  - discriminate.
  - intros i w Hw _ _. apply lookup_replicate in Hw as [-> _]. reflexivity.
  - intros i w c Hw _. apply lookup_replicate in Hw as [-> _].
    unfold complete, future. simpl. rewrite runRetry_loopFrom.
    destruct (loopFrom b i c 0 Analyzed.zero). reflexivity.
  - intros i w c Hw _. apply lookup_replicate in Hw as [-> _]. discriminate.
Qed.

Lemma lookup_chunk (s : State) (i : nat) (w : Worker) :
  Inv s -> workers s !! i = Some w -> exists c, chunks !! i = Some c.
Proof.
  intros HI Hw. apply lookup_lt_Some in Hw. rewrite (inv_workers s HI) in Hw.
  apply lookup_lt_is_Some_2 in Hw as [c Hc]. eauto.
Qed.

(** One worker moves from [w] to [w'] and the shared counters follow. *)
Lemma worker_move_Inv (s : State) (i : nat) (w w' : Worker) (c : ChunkInfo.t)
    (sem' : nat) (mu' : bool) (wg' : nat) (results' : list ChunkAnalysis.t) :
  Inv s ->
  workers s !! i = Some w ->
  chunks !! i = Some c ->
  pc w <> WIdle -> pc w <> WDone -> pc w' <> WIdle ->
  holdsSlot (pc w') || hasWritten (pc w') = true ->
  (sem' + natOfBool (holdsSlot (pc w))
   = semaphore s + natOfBool (holdsSlot (pc w')))%nat ->
  (sem' <= maxConcurrent)%nat ->
  (natOfBool mu' + natOfBool (holdsMu (pc w))
   = natOfBool (mu s) + natOfBool (holdsMu (pc w')))%nat ->
  (wg' + natOfBool (isActive (pc w))
   = wg s + natOfBool (isActive (pc w')))%nat ->
  complete b i c w' = complete b i c w ->
  (results' = results s /\ hasWritten (pc w') = hasWritten (pc w)
   \/ results' = <[i := chunkResult b i c (cur w)]> (results s)
      /\ pc w = WWrite) ->
  Inv (mkState (mainPc s) (<[i := w']> (workers s)) sem' mu' wg' results').
Proof.
  intros HI Hw Hc Hidle Hdone Hidle' Hpast Hsem Hbound Hmu Hwg Hlink Hres.
  pose proof (lookup_lt_Some _ _ _ Hw) as Hlt.
  pose proof (sumPc_insert (fun p => natOfBool (holdsSlot p)) _ _ _ w' Hw).
  pose proof (sumPc_insert (fun p => natOfBool (holdsMu p)) _ _ _ w' Hw).
  pose proof (sumPc_insert (fun p => natOfBool (isActive p)) _ _ _ w' Hw).
  pose proof (inv_sem s HI). pose proof (inv_mu s HI).
  pose proof (inv_wg s HI).
  split; simpl; unfold countPc in *.
  - rewrite length_insert. apply (inv_workers s HI).
  - destruct Hres as [[-> _]|[-> _]]; [|rewrite length_insert];
      apply (inv_results s HI).
  - apply (inv_alive s HI).
  - intros j wj Hj. destruct (decide (i = j)) as [<-|Hne].
    + rewrite list_lookup_insert_eq in Hj by assumption.
      injection Hj as <-. pose proof (inv_started s HI i w Hw). tauto.
    + rewrite list_lookup_insert_ne in Hj by assumption.
      apply (inv_started s HI j wj Hj).
  - lia.
  - assumption.
  - lia.
  - lia.
  - intros j wj Hmain Hj. pose proof (inv_joined s HI i w Hmain Hw). tauto.
  - intros j wj Hj Hslot Hwritten. destruct (decide (i = j)) as [<-|Hne].
    + rewrite list_lookup_insert_eq in Hj by assumption.
      injection Hj as <-. rewrite Hslot, Hwritten in Hpast. discriminate.
    + rewrite list_lookup_insert_ne in Hj by assumption.
      apply (inv_fresh s HI j wj Hj Hslot Hwritten).
  - intros j wj cj Hj Hcj. destruct (decide (i = j)) as [<-|Hne].
    + rewrite list_lookup_insert_eq in Hj by assumption.
      injection Hj as <-. rewrite Hcj in Hc. injection Hc as ->.
      rewrite Hlink. apply (inv_link s HI i w c Hw Hcj).
    + rewrite list_lookup_insert_ne in Hj by assumption.
      apply (inv_link s HI j wj cj Hj Hcj).
  - intros j wj cj Hj Hcj Hwritten. destruct (decide (i = j)) as [<-|Hne].
    + rewrite list_lookup_insert_eq in Hj by assumption.
      injection Hj as <-. rewrite Hcj in Hc. injection Hc as ->.
      destruct Hres as [[-> Hsame]|[-> Hpc]].
      * rewrite Hsame in Hwritten. apply (inv_written s HI i w c Hw Hcj Hwritten).
      * rewrite list_lookup_insert_eq by (rewrite (inv_results s HI);
          rewrite <- (inv_workers s HI); assumption).
        f_equal. unfold unitResult. f_equal.
        rewrite <- (inv_link s HI i w c Hw Hcj).
        unfold complete, future. rewrite Hpc. reflexivity.
    + rewrite list_lookup_insert_ne in Hj by assumption.
      destruct Hres as [[-> _]|[-> _]].
      * apply (inv_written s HI j wj cj Hj Hcj Hwritten).
      * rewrite list_lookup_insert_ne by assumption.
        apply (inv_written s HI j wj cj Hj Hcj Hwritten).
Qed.

Lemma stepWorker_inv (i : nat) (s s' : State) :
  stepWorker b i s = Some s' ->
  exists w c,
    workers s !! i = Some w /\ chunks !! i = Some c
    /\ stepAt b i c w s = Some s'.
Proof.
  unfold stepWorker. intros Hstep.
  destruct (workers s !! i) as [w|], (chunks !! i) as [c|];
    destruct (mainPc s); try discriminate; eauto.
Qed.

Ltac move_worker HI Hw Hc Hpc :=
  eapply (worker_move_Inv _ _ _ _ _ _ _ _ _ HI Hw Hc);
  rewrite ?Hpc; simpl; try congruence; try lia; auto;
  try (destruct (mu _); simpl; lia);
  try (unfold complete, future; simpl; rewrite ?Hpc; reflexivity).

Lemma stepAt_Inv (i : nat) (c : ChunkInfo.t) (w : Worker) (s s' : State) :
  Inv s ->
  workers s !! i = Some w ->
  chunks !! i = Some c ->
  stepAt b i c w s = Some s' ->
  Inv s'.
Proof.
  intros HI Hw Hc Hstep.
  pose proof (inv_link s HI i w c Hw Hc) as Hlink.
  pose proof (inv_sem s HI) as Hsem.
  pose proof (inv_bound s HI) as Hbound.
  pose proof (inv_mu s HI) as Hmu.
  pose proof (inv_wg s HI) as Hwg.
  unfold stepAt in Hstep. destruct (pc w) as [| |a|a|a| | | | | |] eqn:Hpc.
  - discriminate.
  - (* acquire *)
    destruct (Nat.ltb_spec (semaphore s) maxConcurrent) as [Hfree|];
      [|discriminate].
    injection Hstep as <-. move_worker HI Hw Hc Hpc.
  - (* loop test *)
    injection Hstep as <-. unfold setWorker.
    destruct (Z.ltb_spec a maxRetries) as [Hlt|Hge];
      move_worker HI Hw Hc Hpc.
    + unfold complete, future. simpl. rewrite Hpc.
      rewrite (loopFrom_enter b i c a (cur w) Hlt). simpl.
      rewrite <- app_assoc. reflexivity.
    + unfold complete, future. simpl. rewrite Hpc.
      rewrite (loopFrom_exit b i c a (cur w) Hge). reflexivity.
  - (* the call returns *)
    injection Hstep as <-. unfold setWorker.
    assert (complete b i c w
            = (fst (callFrom b i c a), hist w ++ snd (callFrom b i c a)))
      as Hcomplete by (unfold complete, future; rewrite Hpc; reflexivity).
    unfold callFrom in Hcomplete.
    destruct (afterCall b a (callAnalyze b i c a)) as [|d|];
      move_worker HI Hw Hc Hpc;
      rewrite Hcomplete; unfold complete, future; simpl;
      rewrite <- ?app_assoc, ?app_nil_r; reflexivity.
  - (* the sleep ends *)
    injection Hstep as <-. unfold setWorker. move_worker HI Hw Hc Hpc.
  - (* lock *)
    destruct (mu s) eqn:Hlocked; [discriminate|].
    injection Hstep as <-. move_worker HI Hw Hc Hpc.
  - (* write *)
    destruct (decide (i < length (results s))%nat) as [Hin|Hout].
    + injection Hstep as <-. move_worker HI Hw Hc Hpc.
    + contradict Hout. rewrite (inv_results s HI), <- (inv_workers s HI).
      apply (lookup_lt_Some _ _ _ Hw).
  - (* unlock *)
    assert (mu s = true) as Hlocked.
    { pose proof (countPc_lookup holdsMu _ _ _ Hw) as Hsome.
      rewrite Hpc in Hsome. specialize (Hsome eq_refl).
      destruct (mu s); [reflexivity | simpl in Hmu; lia]. }
    rewrite Hlocked in Hstep. injection Hstep as <-.
    move_worker HI Hw Hc Hpc.
  - (* release *)
    destruct (semaphore s) as [|n] eqn:Hsemaphore; [discriminate|].
    injection Hstep as <-. move_worker HI Hw Hc Hpc.
  - (* wg.Done *)
    pose proof (countPc_lookup isActive _ _ _ Hw) as Hsome.
    rewrite Hpc in Hsome. specialize (Hsome eq_refl).
    destruct (wg s) as [|n] eqn:Hcount; [lia|].
    injection Hstep as <-. move_worker HI Hw Hc Hpc.
  - discriminate.
Qed.

Lemma stepMain_Inv (s s' : State) : Inv s -> stepMain b s = Some s' -> Inv s'.
Proof.
  intros HI Hstep. unfold stepMain in Hstep.
  destruct (mainPc s) as [k| | |] eqn:Hmain; try discriminate.
  - destruct (chunks !! k) as [c|] eqn:Hc;
      [destruct (workers s !! k) as [w|] eqn:Hw|].
    + (* wg.Add(1); go func *)
      injection Hstep as <-.
      assert (pc w = WIdle) as Hpc.
      { apply (inv_started s HI k w Hw). rewrite Hmain. simpl. lia. }
      pose proof (sumPc_insert (fun p => natOfBool (holdsSlot p)) _ _ _
                    (setPc w WAcquire) Hw) as Hslots.
      pose proof (sumPc_insert (fun p => natOfBool (holdsMu p)) _ _ _
                    (setPc w WAcquire) Hw) as Hmus.
      pose proof (sumPc_insert (fun p => natOfBool (isActive p)) _ _ _
                    (setPc w WAcquire) Hw) as Hactive.
      rewrite Hpc in Hslots, Hmus, Hactive. simpl in Hslots, Hmus, Hactive.
      pose proof (inv_sem s HI). pose proof (inv_mu s HI).
      pose proof (inv_wg s HI). pose proof (inv_bound s HI).
      pose proof (lookup_lt_Some _ _ _ Hw) as Hlt.
      split; simpl; unfold countPc in *; try lia.
      * rewrite length_insert. apply (inv_workers s HI).
      * apply (inv_results s HI).
      * discriminate.
      * intros j wj Hj. destruct (decide (k = j)) as [<-|Hne].
        -- rewrite list_lookup_insert_eq in Hj by assumption.
           injection Hj as <-. simpl. split; [discriminate | lia].
        -- rewrite list_lookup_insert_ne in Hj by assumption.
           pose proof (inv_started s HI j wj Hj) as Hidle.
           rewrite Hmain in Hidle. simpl in Hidle.
           split; intros; [assert (k <= j)%nat by tauto|apply Hidle]; lia.
      * discriminate.
      * intros j wj Hj Hslot Hwritten. destruct (decide (k = j)) as [<-|Hne].
        -- rewrite list_lookup_insert_eq in Hj by assumption.
           injection Hj as <-. simpl.
           apply (inv_fresh s HI k w Hw); rewrite Hpc; reflexivity.
        -- rewrite list_lookup_insert_ne in Hj by assumption.
           apply (inv_fresh s HI j wj Hj Hslot Hwritten).
      * intros j wj cj Hj Hcj. destruct (decide (k = j)) as [<-|Hne].
        -- rewrite list_lookup_insert_eq in Hj by assumption.
           injection Hj as <-.
           rewrite <- (inv_link s HI k w cj Hw Hcj).
           unfold complete, future. simpl. rewrite Hpc. reflexivity.
        -- rewrite list_lookup_insert_ne in Hj by assumption.
           apply (inv_link s HI j wj cj Hj Hcj).
      * intros j wj cj Hj Hcj Hwritten.
        destruct (decide (k = j)) as [<-|Hne].
        -- rewrite list_lookup_insert_eq in Hj by assumption.
           injection Hj as <-. discriminate.
        -- rewrite list_lookup_insert_ne in Hj by assumption.
           apply (inv_written s HI j wj cj Hj Hcj Hwritten).
    + apply lookup_lt_Some in Hc. apply lookup_ge_None in Hw.
      rewrite (inv_workers s HI) in Hw. lia.
    + (* the loop over the chunks is over *)
      assert (Some s' = Some (mkState MWait (workers s) (semaphore s) (mu s)
                                (wg s) (results s))) as Hs'
        by (rewrite <- Hstep; destruct (workers s !! k); reflexivity).
      injection Hs' as ->. apply lookup_ge_None in Hc.
      destruct HI. split; simpl; try assumption; try discriminate.
      intros j wj Hj. rewrite (inv_started0 j wj Hj), Hmain. simpl.
      apply lookup_lt_Some in Hj. lia.
  - (* wg.Wait() returns *)
    destruct (wg s) as [|n] eqn:Hcount; [|discriminate].
    injection Hstep as <-.
    destruct HI. rewrite Hcount in inv_wg0.
    split; simpl; try assumption; try discriminate.
    + intros j wj Hj. rewrite (inv_started0 j wj Hj), Hmain. reflexivity.
    + intros j wj _ Hj.
      pose proof (countPc_zero isActive _ _ _ (eq_sym inv_wg0) Hj) as Hrest.
      pose proof (inv_started0 j wj Hj) as Hidle. rewrite Hmain in Hidle.
      destruct (pc wj); try discriminate; [simpl in Hidle; tauto|reflexivity].
Qed.

Lemma step_Inv (t : Tid) (s s' : State) : Inv s -> step b t s = Some s' -> Inv s'.
Proof.
  intros HI Hstep. destruct t as [|i]; simpl in Hstep.
  - apply (stepMain_Inv s s' HI Hstep).
  - apply stepWorker_inv in Hstep as (w & c & Hw & Hc & Hstep).
    apply (stepAt_Inv i c w s s' HI Hw Hc Hstep).
Qed.

Lemma exec_Inv (sched : list Tid) (s s' : State) :
  Inv s -> exec b sched s = Some s' -> Inv s'.
Proof.
  revert s. induction sched as [|t sched IH]; intros s HI Hexec; simpl in Hexec.
  - injection Hexec as <-. assumption.
  - destruct (step b t s) as [s1|] eqn:Hstep; [|discriminate].
    apply (IH s1); [apply (step_Inv t s s1 HI Hstep) | assumption].
Qed.

Lemma exec_app (sched1 sched2 : list Tid) (s : State) :
  exec b (sched1 ++ sched2) s
  = match exec b sched1 s with
    | Some s1 => exec b sched2 s1
    | None => None
    end.
Proof.
  revert s. induction sched1 as [|t sched1 IH]; intros s; simpl.
  - reflexivity.
  - destruct (step b t s); [apply IH | reflexivity].
Qed.

(** Every state of every run from [init] satisfies the invariant. *)
Lemma reachable_Inv (sched : list Tid) (s : State) :
  exec b sched (init b) = Some s -> Inv s.
Proof. apply exec_Inv, init_Inv. Qed.

(** *** No deadlock *)

Lemma stepWorker_stepAt (i : nat) (w : Worker) (c : ChunkInfo.t) (s : State) :
  Inv s -> workers s !! i = Some w -> chunks !! i = Some c ->
  stepWorker b i s = stepAt b i c w s.
Proof.
  intros HI Hw Hc. unfold stepWorker. rewrite Hw, Hc.
  pose proof (inv_alive s HI). destruct (mainPc s); congruence.
Qed.

Lemma mu_holder_moves (i : nat) (w : Worker) (s : State) :
  Inv s -> workers s !! i = Some w -> holdsMu (pc w) = true ->
  exists s', step b (TWorker i) s = Some s'.
Proof.
  intros HI Hw Hholds. destruct (lookup_chunk s i w HI Hw) as [c Hc].
  simpl. rewrite (stepWorker_stepAt i w c s HI Hw Hc). unfold stepAt.
  destruct (pc w); try discriminate.
  - destruct (decide (i < length (results s))%nat); eauto.
  - destruct (mu s); eauto.
Qed.

Lemma slot_holder_moves (i : nat) (w : Worker) (s : State) :
  Inv s -> mu s = false -> workers s !! i = Some w ->
  holdsSlot (pc w) = true ->
  exists s', step b (TWorker i) s = Some s'.
Proof.
  intros HI Hfree Hw Hholds. destruct (lookup_chunk s i w HI Hw) as [c Hc].
  pose proof (countPc_lookup holdsSlot _ _ _ Hw Hholds) as Hsome.
  rewrite <- (inv_sem s HI) in Hsome.
  simpl. rewrite (stepWorker_stepAt i w c s HI Hw Hc). unfold stepAt.
  rewrite Hfree. destruct (pc w); try discriminate; eauto.
  - destruct (decide (i < length (results s))%nat); eauto.
  - destruct (semaphore s); [lia | eauto].
Qed.

Lemma progress (s : State) :
  Inv s -> (1 <= maxConcurrent)%nat -> joined s = false ->
  exists t s', step b t s = Some s'.
Proof.
  intros HI Hcap Hrunning. unfold joined in Hrunning.
  destruct (mainPc s) as [k| | |] eqn:Hmain; try discriminate.
  - exists TMain. simpl. unfold stepMain. rewrite Hmain.
    destruct (chunks !! k), (workers s !! k); eauto.
  - destruct (wg s) as [|n] eqn:Hcount.
    { exists TMain. simpl. unfold stepMain. rewrite Hmain, Hcount. eauto. }
    destruct (mu s) eqn:Hlocked.
    { destruct (countPc_pos holdsMu (workers s)) as (i & w & Hw & Hholds).
      - rewrite (inv_mu s HI), Hlocked. simpl. lia.
      - exists (TWorker i). apply (mu_holder_moves i w s HI Hw Hholds). }
    destruct (semaphore s) as [|m] eqn:Hsemaphore.
    + destruct (countPc_pos isActive (workers s)) as (i & w & Hw & Hactive).
      { rewrite <- (inv_wg s HI). lia. }
      exists (TWorker i).
      destruct (holdsSlot (pc w)) eqn:Hholds.
      { apply (slot_holder_moves i w s HI Hlocked Hw Hholds). }
      destruct (lookup_chunk s i w HI Hw) as [c Hc].
      simpl. rewrite (stepWorker_stepAt i w c s HI Hw Hc). unfold stepAt.
      rewrite Hsemaphore, Hcount.
      destruct (pc w); try discriminate; eauto.
      destruct (Nat.ltb_spec 0 maxConcurrent); [eauto | lia].
    + destruct (countPc_pos holdsSlot (workers s)) as (i & w & Hw & Hholds).
      { rewrite <- (inv_sem s HI). lia. }
      exists (TWorker i). apply (slot_holder_moves i w s HI Hlocked Hw Hholds).
  - contradiction (inv_alive s HI).
Qed.

(** *** Every run is finite *)

Definition pcMeasure (p : WorkerPc) : nat :=
  match p with
  | WIdle => 3 * Z.to_nat maxRetries + 8
  | WAcquire => 3 * Z.to_nat maxRetries + 7
  | WLoop attempt => 3 * Z.to_nat (maxRetries - attempt) + 6
  | WCall attempt => 3 * Z.to_nat (maxRetries - (attempt + 1)) + 8
  | WSleep attempt => 3 * Z.to_nat (maxRetries - (attempt + 1)) + 7
  | WLock => 5
  | WWrite => 4
  | WUnlock => 3
  | WRelease => 2
  | WWgDone => 1
  | WDone => 0
  end%nat.

Definition mainMeasure (m : MainPc) : nat :=
  match m with
  | MSpawn next => length chunks - next + 2
  | MWait => 1
  | MJoined | MPanic => 0
  end%nat.

(** An upper bound on the number of steps still to be taken. *)
Definition stepsLeft (s : State) : nat :=
  (mainMeasure (mainPc s) + sumPc pcMeasure (workers s))%nat.

Lemma step_decreases (t : Tid) (s s' : State) :
  Inv s -> step b t s = Some s' -> (stepsLeft s' < stepsLeft s)%nat.
Proof.
  intros HI Hstep. pose proof (step_Inv t s s' HI Hstep) as HI'.
  pose proof (inv_alive s' HI') as Halive.
  destruct t as [|i]; simpl in Hstep.
  - unfold stepMain in Hstep.
    destruct (mainPc s) as [k| | |] eqn:Hmain; try discriminate.
    + destruct (chunks !! k) as [c|] eqn:Hc;
        [destruct (workers s !! k) as [w|] eqn:Hw|].
      * injection Hstep as <-.
        assert (pc w = WIdle) as Hpc.
        { apply (inv_started s HI k w Hw). rewrite Hmain. simpl. lia. }
        pose proof (sumPc_insert pcMeasure _ _ _ (setPc w WAcquire) Hw) as Hsum.
        rewrite Hpc in Hsum. simpl in Hsum.
        apply lookup_lt_Some in Hc.
        unfold stepsLeft. rewrite Hmain. simpl. lia.
      * injection Hstep as <-. unfold stepsLeft. rewrite Hmain. simpl. lia.
      * assert (Some s' = Some (mkState MWait (workers s) (semaphore s)
                                  (mu s) (wg s) (results s))) as Hs'
          by (rewrite <- Hstep; destruct (workers s !! k); reflexivity).
        injection Hs' as ->. unfold stepsLeft. rewrite Hmain. simpl. lia.
    + destruct (wg s); [|discriminate]. injection Hstep as <-.
      unfold stepsLeft. rewrite Hmain. simpl. lia.
  - apply stepWorker_inv in Hstep as (w & c & Hw & Hc & Hstep).
    unfold stepAt in Hstep.
    assert (forall w' sem' mu' wg' results',
              (pcMeasure (pc w') < pcMeasure (pc w))%nat ->
              (stepsLeft (mkState (mainPc s) (<[i := w']> (workers s))
                            sem' mu' wg' results') < stepsLeft s)%nat)
      as Hmove.
    { intros w' sem' mu' wg' results' Hless.
      pose proof (sumPc_insert pcMeasure _ _ _ w' Hw).
      unfold stepsLeft. simpl. lia. }
    destruct (pc w) as [| |a|a|a| | | | | |] eqn:Hpc; try discriminate.
    + destruct (semaphore s <? maxConcurrent)%nat; [|discriminate].
      injection Hstep as <-. apply Hmove. simpl. lia.
    + injection Hstep as <-. apply Hmove. simpl.
      destruct (Z.ltb_spec a maxRetries); simpl; lia.
    + injection Hstep as <-. apply Hmove.
      destruct (afterCall b a (callAnalyze b i c a)); simpl; lia.
    + injection Hstep as <-. apply Hmove. simpl. lia.
    + destruct (mu s); [discriminate|].
      injection Hstep as <-. apply Hmove. simpl. lia.
    + destruct (decide (i < length (results s))%nat);
        injection Hstep as <-; [apply Hmove; simpl; lia | contradiction].
    + destruct (mu s); injection Hstep as <-;
        [apply Hmove; simpl; lia | contradiction].
    + destruct (semaphore s); [discriminate|].
      injection Hstep as <-. apply Hmove. simpl. lia.
    + destruct (wg s); injection Hstep as <-;
        [contradiction | apply Hmove; simpl; lia].
Qed.

(** A schedule is never longer than the bound of its first state. *)
Lemma exec_length (sched : list Tid) (s s' : State) :
  Inv s -> exec b sched s = Some s' ->
  (stepsLeft s' + length sched <= stepsLeft s)%nat.
Proof.
  revert s. induction sched as [|t sched IH]; intros s HI Hexec; simpl in *.
  - injection Hexec as <-. lia.
  - destruct (step b t s) as [s1|] eqn:Hstep; [|discriminate].
    pose proof (step_decreases t s s1 HI Hstep).
    pose proof (IH s1 (step_Inv t s s1 HI Hstep) Hexec). lia.
Qed.

(** From every state of a run the batch can be brought to its end. *)
Lemma completes (n : nat) :
  forall s, Inv s -> (1 <= maxConcurrent)%nat -> (stepsLeft s <= n)%nat ->
  exists sched s', exec b sched s = Some s' /\ joined s' = true.
Proof.
  induction n as [|n IH]; intros s HI Hcap Hn;
    destruct (joined s) eqn:Hjoined;
    try (exists [], s; split; [reflexivity | assumption]);
    destruct (progress s HI Hcap Hjoined) as (t & s1 & Hstep);
    pose proof (step_decreases t s s1 HI Hstep) as Hless; [lia|].
  destruct (IH s1 (step_Inv t s s1 HI Hstep) Hcap) as (sched & s' & Hexec & Hend);
    [lia|].
  exists (t :: sched), s'. simpl. rewrite Hstep. auto.
Qed.

(** *** What the invariant says at the end *)

Lemma joined_all_done (s : State) (i : nat) (w : Worker) :
  Inv s -> joined s = true -> workers s !! i = Some w -> pc w = WDone.
Proof.
  intros HI Hjoined Hw. apply (inv_joined s HI i w); [|assumption].
  unfold joined in Hjoined. destruct (mainPc s); congruence.
Qed.

Lemma joined_results (s : State) (i : nat) (c : ChunkInfo.t) :
  Inv s -> joined s = true -> chunks !! i = Some c ->
  results s !! i = Some (unitResult b i c).
Proof.
  intros HI Hjoined Hc.
  destruct (lookup_lt_is_Some_2 (workers s) i) as [w Hw].
  { rewrite (inv_workers s HI). apply (lookup_lt_Some _ _ _ Hc). }
  apply (inv_written s HI i w c Hw Hc).
  rewrite (joined_all_done s i w HI Hjoined Hw). reflexivity.
Qed.

Lemma joined_history (s : State) (i : nat) (w : Worker) (c : ChunkInfo.t) :
  Inv s -> joined s = true -> workers s !! i = Some w -> chunks !! i = Some c ->
  cur w = fst (runRetry b i c) /\ hist w = snd (runRetry b i c).
Proof.
  intros HI Hjoined Hw Hc.
  pose proof (inv_link s HI i w c Hw Hc) as Hlink.
  unfold complete, future in Hlink.
  rewrite (joined_all_done s i w HI Hjoined Hw) in Hlink.
  rewrite <- Hlink. simpl. rewrite app_nil_r. auto.
Qed.

(** The record of a worker is at any time a prefix of its whole run. *)
Lemma history_prefix (s : State) (i : nat) (w : Worker) (c : ChunkInfo.t) :
  Inv s -> workers s !! i = Some w -> chunks !! i = Some c ->
  exists rest, snd (runRetry b i c) = hist w ++ rest.
Proof.
  intros HI Hw Hc. rewrite <- (inv_link s HI i w c Hw Hc).
  exists (snd (future b i c w)). reflexivity.
Qed.

End Invariant.

(** ** Complete runs *)

Lemma dispatch_inv (b : Batch.t) (sched : list Tid)
    (rs : list ChunkAnalysis.t) :
  dispatch b sched = Some rs ->
  exists s,
    exec b sched (init b) = Some s /\ joined s = true /\ rs = results s.
Proof.
  unfold dispatch. intros Hrun.
  destruct (exec b sched (init b)) as [s|]; [|discriminate].
  destruct (joined s) eqn:Hjoined; [|discriminate].
  injection Hrun as <-. eauto.
Qed.

Lemma dispatch_lookup (b : Batch.t) (sched : list Tid)
    (rs : list ChunkAnalysis.t) (i : nat) (c : ChunkInfo.t) :
  dispatch b sched = Some rs ->
  Batch.chunks b !! i = Some c ->
  rs !! i = Some (unitResult b i c).
Proof.
  intros Hrun Hc. apply dispatch_inv in Hrun as (s & Hexec & Hjoined & ->).
  apply (joined_results b s i c (reachable_Inv b sched s Hexec) Hjoined Hc).
Qed.

Lemma dispatch_length (b : Batch.t) (sched : list Tid)
    (rs : list ChunkAnalysis.t) :
  dispatch b sched = Some rs -> length rs = length (Batch.chunks b).
Proof.
  intros Hrun. apply dispatch_inv in Hrun as (s & Hexec & _ & ->).
  apply (inv_results b s (reachable_Inv b sched s Hexec)).
Qed.

Lemma unitResult_withMaxConcurrent (b : Batch.t) (limit : nat) (i : nat)
    (c : ChunkInfo.t) :
  unitResult (Batch.withMaxConcurrent b limit) i c = unitResult b i c.
Proof. reflexivity. Qed.

(** Every run can be continued up to the return of [wg.Wait()]. *)
Lemma every_run_completes (b : Batch.t) (sched : list Tid) (s : State) :
  (1 <= Batch.maxConcurrent b)%nat ->
  exec b sched (init b) = Some s ->
  exists rest rs, dispatch b (sched ++ rest) = Some rs.
Proof.
  intros Hcap Hexec. pose proof (reachable_Inv b sched s Hexec) as HI.
  destruct (completes b (stepsLeft b s) s HI Hcap (le_n _))
    as (rest & s' & Hrest & Hjoined).
  exists rest, (results s'). unfold dispatch.
  rewrite exec_app, Hexec, Hrest, Hjoined. reflexivity.
Qed.

(** ** The dispatcher *)

(** C1. For a batch of N units and a concurrency limit of at least 1,
    every run of the dispatcher can be brought to its end, no run takes
    more steps than a bound fixed by the batch, and at the end of every
    run the result slice has exactly N entries, entry i being the result
    of unit i, whatever the schedule of the goroutines (hence whatever
    the order in which workers complete). Under the same answers of the
    analysis service and of the clock, two complete runs yield the same
    slice, whatever their schedules and their limits. *)
Theorem dispatch_results_by_index (b : Batch.t) :
  (1 <= Batch.maxConcurrent b)%nat ->
  (forall sched s,
     exec b sched (init b) = Some s ->
     (length sched <= stepsLeft b (init b))%nat
     /\ exists rest rs, dispatch b (sched ++ rest) = Some rs)
  /\ (forall sched rs,
        dispatch b sched = Some rs ->
        length rs = length (Batch.chunks b)
        /\ forall i c,
             Batch.chunks b !! i = Some c ->
             rs !! i = Some (unitResult b i c))
  /\ (forall limit sched sched' rs rs',
        dispatch b sched = Some rs ->
        dispatch (Batch.withMaxConcurrent b limit) sched' = Some rs' ->
        rs' = rs).
Proof.
  intros Hcap. split; [|split].
  - intros sched s Hexec.
    pose proof (exec_length b sched (init b) s (init_Inv b) Hexec) as Hlen.
    split; [lia|]. apply (every_run_completes b sched s Hcap Hexec).
  - intros sched rs Hrun. split.
    + apply (dispatch_length b sched rs Hrun).
    + intros i c Hc. apply (dispatch_lookup b sched rs i c Hrun Hc).
  - intros limit sched sched' rs rs' Hrun Hrun'.
    apply list_eq. intros i.
    destruct (Batch.chunks b !! i) as [c|] eqn:Hc.
    + rewrite (dispatch_lookup b sched rs i c Hrun Hc).
      rewrite (dispatch_lookup _ sched' rs' i c Hrun' Hc).
      rewrite unitResult_withMaxConcurrent. reflexivity.
    + apply lookup_ge_None in Hc.
      rewrite (proj2 (lookup_ge_None rs i)),
              (proj2 (lookup_ge_None rs' i)); [reflexivity| |].
      * rewrite (dispatch_length _ sched' rs' Hrun'). exact Hc.
      * rewrite (dispatch_length b sched rs Hrun). exact Hc.
Qed.

Lemma dispatch_results_by_index_witness :
  (1 <= Batch.maxConcurrent Sample.mixedBatch)%nat
  /\ exists rs rs',
       dispatch Sample.mixedBatch Sample.mixedSchedule = Some rs
       /\ dispatch Sample.serialBatch Sample.serialSchedule = Some rs'
       /\ length rs = 4%nat
       /\ rs !! 2%nat
          = Some (unitResult Sample.mixedBatch 2
                    (ChunkInfo.mk "chunk.pdf" 2 2))
       /\ rs' = rs.
Proof.
  assert (1 <= Batch.maxConcurrent Sample.mixedBatch)%nat as Hcap
    by (vm_compute; lia).
  split; [exact Hcap|].
  destruct (dispatch Sample.mixedBatch Sample.mixedSchedule) as [rs|] eqn:Hrun;
    [|vm_compute in Hrun; discriminate].
  destruct (dispatch Sample.serialBatch Sample.serialSchedule) as [rs'|]
    eqn:Hrun'; [|vm_compute in Hrun'; discriminate].
  destruct (dispatch_results_by_index Sample.mixedBatch Hcap)
    as (_ & Hindex & Hlimit).
  destruct (Hindex Sample.mixedSchedule rs Hrun) as [Hlen Hat].
  exists rs, rs'. repeat split.
  - exact Hlen.
  - apply Hat. reflexivity.
  - apply (Hlimit 1%nat Sample.mixedSchedule Sample.serialSchedule rs rs' Hrun
             Hrun').
Defined.

(** ** Retry policy *)

Lemma unitResult_success (b : Batch.t) (i : nat) (c : ChunkInfo.t)
    (r : Analyzed.t) :
  fst (runRetry b i c) = r ->
  Analyzed.err r = None ->
  ChunkAnalysis.Error (unitResult b i c) = ""
  /\ ChunkAnalysis.Analysis (unitResult b i c) = Analyzed.analysis r
  /\ ChunkAnalysis.InputTokens (unitResult b i c) = Analyzed.inputTokens r
  /\ ChunkAnalysis.OutputTokens (unitResult b i c) = Analyzed.outputTokens r.
Proof.
  intros Hrun Herr. unfold unitResult, chunkResult. rewrite Hrun, Herr.
  simpl. auto.
Qed.

Lemma unitResult_failure (b : Batch.t) (i : nat) (c : ChunkInfo.t)
    (r : Analyzed.t) (msg : string) :
  fst (runRetry b i c) = r ->
  Analyzed.err r = Some msg ->
  ChunkAnalysis.Error (unitResult b i c) = msg.
Proof.
  intros Hrun Herr. unfold unitResult, chunkResult. rewrite Hrun, Herr.
  reflexivity.
Qed.

(** C2. Take any unit of a batch and any complete run. If the unit's
    calls hit the rate limit in rounds 0 to k-1 and the call of round
    k < maxRetries succeeds, the recorded result has no error and carries
    the text and the token counts of round k. If the calls hit the rate
    limit in all maxRetries rounds, the recorded result carries the error
    of the last round. *)
Theorem retry_until_success_or_last_error (b : Batch.t) (i : nat)
    (c : ChunkInfo.t) (sched : list Tid) (rs : list ChunkAnalysis.t) :
  Batch.chunks b !! i = Some c ->
  dispatch b sched = Some rs ->
  exists r,
    rs !! i = Some r
    /\ (forall k,
          0 <= k < Batch.maxRetries b ->
          (forall j, 0 <= j < k -> transientAt b i c j) ->
          succeedsAt b i c k ->
          ChunkAnalysis.Error r = ""
          /\ ChunkAnalysis.Analysis r
             = Analyzed.analysis (callAnalyze b i c k)
          /\ ChunkAnalysis.InputTokens r
             = Analyzed.inputTokens (callAnalyze b i c k)
          /\ ChunkAnalysis.OutputTokens r
             = Analyzed.outputTokens (callAnalyze b i c k))
    /\ (1 <= Batch.maxRetries b ->
        (forall j, 0 <= j < Batch.maxRetries b -> transientAt b i c j) ->
        exists msg,
          Analyzed.err (callAnalyze b i c (Batch.maxRetries b - 1)) = Some msg
          /\ ChunkAnalysis.Error r = msg).
Proof.
  intros Hc Hrun. exists (unitResult b i c).
  split; [apply (dispatch_lookup b sched rs i c Hrun Hc)|]. split.
  - intros k Hk Htransient Hok.
    apply unitResult_success; [|exact Hok].
    rewrite runRetry_loopFrom.
    replace k with (0 + Z.of_nat (Z.to_nat k)) by lia.
    apply loopFrom_transient_then_success; try lia.
    + intros j Hj. apply Htransient. lia.
    + replace (0 + Z.of_nat (Z.to_nat k)) with k by lia. exact Hok.
  - intros Hone Htransient.
    destruct (Htransient (Batch.maxRetries b - 1)) as (msg & Herr & _); [lia|].
    exists msg. split; [exact Herr|].
    apply (unitResult_failure b i c
             (callAnalyze b i c (Batch.maxRetries b - 1)) msg); [|exact Herr].
    rewrite runRetry_loopFrom.
    apply (loopFrom_all_transient b i c (Z.to_nat (Batch.maxRetries b - 1)));
      [lia | lia |].
    intros j Hj. apply Htransient. lia.
Qed.

(** The branch that does not retry. Take a unit whose first call fails
    with an error whose text contains neither [rate_limit] nor [429]. In
    every state of every run the worker of that unit has called at most
    once, and at the end of every run it has called exactly once, in
    round 0, and the recorded result carries that error. *)
Theorem unmarked_error_is_not_retried (b : Batch.t) (i : nat)
    (c : ChunkInfo.t) :
  Batch.chunks b !! i = Some c ->
  1 <= Batch.maxRetries b ->
  permanentAt b i c 0 ->
  (forall sched s w,
     exec b sched (init b) = Some s ->
     workers s !! i = Some w ->
     (length (callsOf (hist w)) <= 1)%nat)
  /\ (forall sched s,
        exec b sched (init b) = Some s ->
        joined s = true ->
        exists w r msg,
          workers s !! i = Some w
          /\ callsOf (hist w) = [0]
          /\ results s !! i = Some r
          /\ Analyzed.err (callAnalyze b i c 0) = Some msg
          /\ ChunkAnalysis.Error r = msg).
Proof.
  intros Hc Hone Hperm.
  assert (runRetry b i c = (callAnalyze b i c 0, [EvCall 0])) as Hwhole.
  { rewrite runRetry_loopFrom, loopFrom_enter by lia. unfold callFrom.
    rewrite afterCall_permanent by assumption. reflexivity. }
  split.
  - intros sched s w Hexec Hw.
    destruct (history_prefix b s i w c (reachable_Inv b sched s Hexec) Hw Hc)
      as [rest Hrest].
    rewrite Hwhole in Hrest. simpl in Hrest.
    destruct (hist w) as [|e [|e' evs]]; simpl in *.
    + lia.
    + injection Hrest as <- _. simpl. lia.
    + destruct evs; discriminate.
  - intros sched s Hexec Hjoined.
    pose proof (reachable_Inv b sched s Hexec) as HI.
    destruct (lookup_lt_is_Some_2 (workers s) i) as [w Hw].
    { rewrite (inv_workers b s HI). apply (lookup_lt_Some _ _ _ Hc). }
    destruct (joined_history b s i w c HI Hjoined Hw Hc) as [_ Hhist].
    destruct Hperm as (msg & Herr & Hrate).
    exists w, (unitResult b i c), msg. repeat split.
    + exact Hw.
    + rewrite Hhist, Hwhole. reflexivity.
    + apply (joined_results b s i c HI Hjoined Hc).
    + exact Herr.
    + apply (unitResult_failure b i c (callAnalyze b i c 0) msg);
        [rewrite Hwhole; reflexivity | exact Herr].
Qed.

Lemma retry_until_success_or_last_error_witness :
  exists rs r0 r2,
    dispatch Sample.mixedBatch Sample.mixedSchedule = Some rs
    /\ rs !! 0%nat = Some r0
    /\ ChunkAnalysis.Error r0 = ""
    /\ ChunkAnalysis.InputTokens r0 = 1200
    /\ ChunkAnalysis.OutputTokens r0 = 340
    /\ rs !! 2%nat = Some r2
    /\ ChunkAnalysis.Error r2 = "API error (status 429): rate_limit_error".
Proof.
  destruct (dispatch Sample.mixedBatch Sample.mixedSchedule) as [rs|] eqn:Hrun;
    [|vm_compute in Hrun; discriminate].
  destruct (retry_until_success_or_last_error Sample.mixedBatch 0
              (ChunkInfo.mk "chunk.pdf" 0 0) Sample.mixedSchedule rs
              eq_refl Hrun) as (r0 & Hr0 & Hsuccess & _).
  destruct (retry_until_success_or_last_error Sample.mixedBatch 2
              (ChunkInfo.mk "chunk.pdf" 2 2) Sample.mixedSchedule rs
              eq_refl Hrun) as (r2 & Hr2 & _ & Hexhausted).
  destruct (Hsuccess 2) as (Herror & _ & Hinput & Houtput).
  { vm_compute. split; [discriminate | reflexivity]. }
  { intros j Hj. assert (j = 0 \/ j = 1) as [-> | ->] by lia;
      (eexists; split; vm_compute; reflexivity). }
  { vm_compute. reflexivity. }
  destruct Hexhausted as (msg & Hmsg & Hlast).
  { vm_compute. discriminate. }
  { intros j Hj. assert (j = 0 \/ j = 1 \/ j = 2) as [-> | [-> | ->]]
      by (change (0 <= j < 3) in Hj; lia);
      (eexists; split; vm_compute; reflexivity). }
  vm_compute in Hmsg. injection Hmsg as <-.
  exists rs, r0, r2. repeat split; assumption.
Defined.

Lemma unmarked_error_is_not_retried_witness :
  exists s w r,
    exec Sample.mixedBatch Sample.mixedSchedule (init Sample.mixedBatch)
    = Some s
    /\ workers s !! 1%nat = Some w
    /\ callsOf (hist w) = [0]
    /\ results s !! 1%nat = Some r
    /\ ChunkAnalysis.Error r
       = "API error (status 400): invalid_request_error".
Proof.
  destruct (exec Sample.mixedBatch Sample.mixedSchedule
              (init Sample.mixedBatch)) as [s|] eqn:Hexec;
    [|vm_compute in Hexec; discriminate].
  assert (joined s = true) as Hjoined.
  { vm_compute in Hexec. injection Hexec as <-. reflexivity. }
  destruct (unmarked_error_is_not_retried Sample.mixedBatch 1
              (ChunkInfo.mk "chunk.pdf" 1 1)) as [_ Hend].
  { reflexivity. }
  { vm_compute. discriminate. }
  { eexists. split; vm_compute; reflexivity. }
  destruct (Hend Sample.mixedSchedule s Hexec Hjoined)
    as (w & r & msg & Hw & Hcalls & Hr & Hmsg & Herror).
  vm_compute in Hmsg. injection Hmsg as <-.
  exists s, w, r. repeat split; assumption.
Defined.

(** C3. A permanent error whose text happens to contain one of the two
    markers is retried. With the constants of [main], a page that the
    service refuses with status 400 and the body
    [prompt is too long: 214297 tokens > 200000 maximum] fails with an
    error that is no rate limit but whose text contains [429]: on every
    complete run the page is called three times, in the rounds 0, 1 and
    2, with sleeps of two and four seconds in between, and only then is
    the error recorded. *)
Theorem marked_permanent_error_is_retried (sched : list Tid) (s : State) :
  exec Sample.tooLongBatch sched (init Sample.tooLongBatch) = Some s ->
  joined s = true ->
  (forall attempt,
     CallEnv.client_Do (Batch.world Sample.tooLongBatch 0 attempt)
     = Ok (HttpResponse.mk 400
             (Ok "prompt is too long: 214297 tokens > 200000 maximum")))
  /\ exists w r,
       workers s !! 0%nat = Some w
       /\ callsOf (hist w) = [0; 1; 2]
       /\ sleepsOf (hist w) = [2 * Second; 4 * Second]
       /\ results s !! 0%nat = Some r
       /\ ChunkAnalysis.Error r
          = "API error (status 400): prompt is too long: 214297 tokens > 200000 maximum"
       /\ isRateLimit (ChunkAnalysis.Error r) = true.
Proof.
  intros Hexec Hjoined.
  split.
  { intros attempt. reflexivity. }
  pose proof (reachable_Inv Sample.tooLongBatch sched s Hexec) as HI.
  assert (Batch.chunks Sample.tooLongBatch !! 0%nat
          = Some (ChunkInfo.mk "chunk.pdf" 0 0)) as Hc by reflexivity.
  destruct (lookup_lt_is_Some_2 (workers s) 0) as [w Hw].
  { rewrite (inv_workers Sample.tooLongBatch s HI). simpl. lia. }
  destruct (joined_history Sample.tooLongBatch s 0 w _ HI Hjoined Hw Hc)
    as [_ Hhist].
  exists w, (unitResult Sample.tooLongBatch 0 (ChunkInfo.mk "chunk.pdf" 0 0)).
  split; [exact Hw|].
  split; [rewrite Hhist; vm_compute; reflexivity|].
  split; [rewrite Hhist; vm_compute; reflexivity|].
  split; [apply (joined_results Sample.tooLongBatch s 0 _ HI Hjoined Hc)|].
  split; vm_compute; reflexivity.
Qed.

Lemma marked_permanent_error_is_retried_witness :
  exists s w,
    exec Sample.tooLongBatch Sample.tooLongSchedule (init Sample.tooLongBatch)
    = Some s
    /\ workers s !! 0%nat = Some w
    /\ callsOf (hist w) = [0; 1; 2].
Proof.
  destruct (exec Sample.tooLongBatch Sample.tooLongSchedule
              (init Sample.tooLongBatch)) as [s|] eqn:Hexec;
    [|vm_compute in Hexec; discriminate Hexec].
  assert (joined s = true) as Hjoined.
  { vm_compute in Hexec. injection Hexec as <-. reflexivity. }
  destruct (marked_permanent_error_is_retried Sample.tooLongSchedule s Hexec
              Hjoined) as (_ & w & r & Hw & Hcalls & _).
  exists s, w. split; [reflexivity|]. split; [exact Hw | exact Hcalls].
Defined.

(** ** Backoff *)

Lemma wrap_small (z : Z) : GoInt.in_range z -> GoInt.wrap z = z.
Proof.
  unfold GoInt.in_range, GoInt.wrap. intros Hz.
  rewrite Z.mod_small by lia. lia.
Qed.

(** Without overflow the wait is the delay doubled [attempt] times. *)
Lemma waitTime_exact (b : Batch.t) (attempt : Z) :
  0 <= attempt ->
  0 <= Batch.retryDelay b ->
  Batch.retryDelay b * 2 ^ attempt < 2 ^ 63 ->
  waitTime b attempt = Batch.retryDelay b * 2 ^ attempt.
Proof.
  intros Hattempt Hdelay Hfits. unfold waitTime, GoInt.mul, GoInt.shl.
  rewrite Z.shiftl_1_l.
  assert (0 < 2 ^ attempt) by (apply Z.pow_pos_nonneg; lia).
  destruct (Z.eq_dec (Batch.retryDelay b) 0) as [Hzero|Hpos].
  - rewrite Hzero. reflexivity.
  - rewrite (wrap_small (2 ^ attempt)) by (unfold GoInt.in_range; nia).
    apply wrap_small. unfold GoInt.in_range. nia.
Qed.

(** C7. In every state of every run, sleep number k of a worker (counted
    from 0) was taken after the call of round k had hit the rate limit,
    round k not being the last one, and it lasted
    retryDelay * (1 << k) in 64-bit arithmetic, which is
    retryDelay * 2^k as long as that product fits. *)
Theorem backoff_is_delay_times_power_of_two (b : Batch.t) (i : nat)
    (c : ChunkInfo.t) (sched : list Tid) (s : State) (w : Worker)
    (k : nat) (d : Z) :
  exec b sched (init b) = Some s ->
  workers s !! i = Some w ->
  Batch.chunks b !! i = Some c ->
  sleepsOf (hist w) !! k = Some d ->
  transientAt b i c (Z.of_nat k)
  /\ Z.of_nat k < Batch.maxRetries b - 1
  /\ d = GoInt.mul (Batch.retryDelay b) (GoInt.shl 1 (Z.of_nat k))
  /\ (0 <= Batch.retryDelay b ->
      Batch.retryDelay b * 2 ^ Z.of_nat k < 2 ^ 63 ->
      d = Batch.retryDelay b * 2 ^ Z.of_nat k).
Proof.
  intros Hexec Hw Hc Hk.
  destruct (history_prefix b s i w c (reachable_Inv b sched s Hexec) Hw Hc)
    as [rest Hrest].
  assert (sleepsOf (snd (loopFrom b i c 0 Analyzed.zero)) !! k = Some d)
    as Hwhole.
  { rewrite <- runRetry_loopFrom, Hrest. unfold sleepsOf.
    rewrite omap_app. apply lookup_app_l_Some. exact Hk. }
  destruct (loopFrom_sleeps b i c _ 0 Analyzed.zero k d eq_refl Hwhole)
    as (Hd & Hbound & Htransient).
  rewrite Z.add_0_l in *.
  split; [exact Htransient|]. split; [exact Hbound|].
  split; [exact Hd|].
  intros Hdelay Hfits. rewrite Hd. apply waitTime_exact; [lia | assumption..].
Qed.

Lemma backoff_is_delay_times_power_of_two_witness :
  exists s w,
    exec Sample.mixedBatch (take 30 Sample.mixedSchedule)
      (init Sample.mixedBatch) = Some s
    /\ workers s !! 0%nat = Some w
    /\ sleepsOf (hist w) !! 1%nat = Some (4 * Second)
    /\ 4 * Second = retryDelay * 2 ^ 1.
Proof.
  destruct (exec Sample.mixedBatch (take 30 Sample.mixedSchedule)
              (init Sample.mixedBatch)) as [s|] eqn:Hexec;
    [|vm_compute in Hexec; discriminate].
  destruct (workers s !! 0%nat) as [w|] eqn:Hw;
    [|vm_compute in Hexec; injection Hexec as <-; discriminate].
  assert (sleepsOf (hist w) !! 1%nat = Some (4 * Second)) as Hk.
  { vm_compute in Hexec. injection Hexec as <-.
    vm_compute in Hw. injection Hw as <-. reflexivity. }
  destruct (backoff_is_delay_times_power_of_two Sample.mixedBatch 0
              (ChunkInfo.mk "chunk.pdf" 0 0) (take 30 Sample.mixedSchedule)
              s w 1 (4 * Second) Hexec Hw eq_refl Hk)
    as (_ & _ & _ & Hexact).
  exists s, w. split; [reflexivity|]. split; [exact Hw|].
  split; [exact Hk|].
  apply Hexact; vm_compute; [discriminate | reflexivity].
Defined.

(** ** Concurrency bound *)

Lemma call_holds_slot (p : WorkerPc) :
  (natOfBool (isCall p) <= natOfBool (holdsSlot p))%nat.
Proof. destruct p; simpl; lia. Qed.

(** A worker step that records a call or a sleep is taken by a worker
    that holds a slot, and the worker still holds it afterwards. *)
Lemma stepAt_records_call (b : Batch.t) (i : nat) (c : ChunkInfo.t)
    (w w' : Worker) (s s' : State) :
  workers s !! i = Some w ->
  stepAt b i c w s = Some s' ->
  workers s' !! i = Some w' ->
  hist w' <> hist w ->
  holdsSlot (pc w) = true /\ holdsSlot (pc w') = true.
Proof.
  intros Hw Hstep Hw' Hgrew.
  pose proof (lookup_lt_Some _ _ _ Hw) as Hlt.
  unfold stepAt in Hstep.
  destruct (pc w) eqn:Hpc; try discriminate;
    repeat match type of Hstep with
           | context [if ?x then _ else _] => destruct x
           | context [match semaphore s with _ => _ end] =>
               destruct (semaphore s)
           | context [match wg s with _ => _ end] => destruct (wg s)
           end;
    try discriminate; injection Hstep as <-; simpl in Hw';
    try (rewrite list_lookup_insert_eq in Hw' by assumption;
         injection Hw' as <-);
    try (rewrite Hw in Hw'; injection Hw' as <-);
    try (contradiction Hgrew; reflexivity);
    (split; [reflexivity|]);
    try destruct (afterCall b attempt (callAnalyze b i c attempt));
    reflexivity.
Qed.

(** C6. In every state of every run the number of [analyzeChunk] calls in
    flight is at most the number of slots taken, which is the number of
    workers between their acquire and their release and is at most
    maxConcurrent. A worker that holds no slot has either called nothing
    yet or finished all its attempts, and every step that enters
    [analyzeChunk] or starts a backoff sleep is taken by a worker that
    holds a slot before and after the step. *)
Theorem in_flight_calls_bounded (b : Batch.t) (sched : list Tid) (s : State) :
  exec b sched (init b) = Some s ->
  ((inFlight s <= semaphore s)%nat
   /\ semaphore s = countPc holdsSlot (workers s)
   /\ (semaphore s <= Batch.maxConcurrent b)%nat)
  /\ (forall i w c,
        workers s !! i = Some w ->
        Batch.chunks b !! i = Some c ->
        holdsSlot (pc w) = false ->
        hist w = [] \/ hist w = snd (runRetry b i c))
  /\ (forall i s' w w',
        step b (TWorker i) s = Some s' ->
        workers s !! i = Some w ->
        workers s' !! i = Some w' ->
        hist w' <> hist w ->
        holdsSlot (pc w) = true /\ holdsSlot (pc w') = true).
Proof.
  intros Hexec. pose proof (reachable_Inv b sched s Hexec) as HI.
  split; [|split].
  - split; [|split].
    + rewrite (inv_sem b s HI). unfold inFlight, countPc.
      apply sumPc_mono, call_holds_slot.
    + apply (inv_sem b s HI).
    + apply (inv_bound b s HI).
  - intros i w c Hw Hc Hslot.
    destruct (hasWritten (pc w)) eqn:Hwritten.
    + right. rewrite <- (inv_link b s HI i w c Hw Hc).
      unfold complete, future.
      destruct (pc w); try discriminate; simpl; rewrite app_nil_r;
        reflexivity.
    + left. apply (inv_fresh b s HI i w Hw Hslot Hwritten).
  - intros i s' w w' Hstep Hw Hw' Hgrew. simpl in Hstep.
    apply stepWorker_inv in Hstep as (w0 & c & Hw0 & Hc & Hstep).
    rewrite Hw in Hw0. injection Hw0 as <-.
    apply (stepAt_records_call b i c w w' s s' Hw Hstep Hw' Hgrew).
Qed.

Lemma in_flight_calls_bounded_witness :
  exists s,
    exec Sample.serialBatch (take 30 Sample.serialSchedule)
      (init Sample.serialBatch) = Some s
    /\ (inFlight s <= 1)%nat
    /\ map (fun w => holdsSlot (pc w)) (workers s)
       = [false; false; true; false].
Proof.
  destruct (exec Sample.serialBatch (take 30 Sample.serialSchedule)
              (init Sample.serialBatch)) as [s|] eqn:Hexec;
    [|vm_compute in Hexec; discriminate].
  destruct (in_flight_calls_bounded Sample.serialBatch
              (take 30 Sample.serialSchedule) s Hexec)
    as ((Hflight & _ & Hbound) & _ & _).
  exists s. split; [reflexivity|]. split.
  - change (Batch.maxConcurrent Sample.serialBatch) with 1%nat in Hbound. lia.
  - vm_compute in Hexec. injection Hexec as <-. reflexivity.
Defined.

(** ** Aggregation *)

(** The sum of a sequence of integers, in the integers. *)
Definition sumInts (l : list Z) : Z := foldr Z.add 0 l.

(** The sum of a sequence of float64 values, added up from the left
    starting at 0. *)
Definition sumFloats (l : list float) : float := foldl PrimFloat.add 0%float l.

(** The aggregate fields of [fr] are the sums over its [Chunks]. *)
Definition FoldsItsChunks (fr : FullAnalysisResult.t) : Prop :=
  let units := FullAnalysisResult.Chunks fr in
  FullAnalysisResult.TotalInputTokens fr
  = GoInt.wrap (sumInts (map ChunkAnalysis.InputTokens units))
  /\ FullAnalysisResult.TotalOutputTokens fr
     = GoInt.wrap (sumInts (map ChunkAnalysis.OutputTokens units))
  /\ FullAnalysisResult.TotalInputCost fr
     = sumFloats (map ChunkAnalysis.InputCost units)
  /\ FullAnalysisResult.TotalOutputCost fr
     = sumFloats (map ChunkAnalysis.OutputCost units)
  /\ FullAnalysisResult.TotalCost fr
     = (FullAnalysisResult.TotalInputCost fr
        + FullAnalysisResult.TotalOutputCost fr)%float.

Lemma wrap_add_l (a x : Z) : GoInt.wrap (GoInt.wrap a + x) = GoInt.wrap (a + x).
Proof.
  unfold GoInt.wrap. f_equal.
  replace ((a + 2 ^ 63) mod 2 ^ 64 - 2 ^ 63 + x + 2 ^ 63)
    with ((a + 2 ^ 63) mod 2 ^ 64 + x) by ring.
  rewrite Zplus_mod_idemp_l. f_equal. ring.
Qed.

Lemma foldl_addChunk (l : list ChunkAnalysis.t) :
  forall acc,
    foldl addChunk acc l
    = mkTotals
        (GoInt.wrap (GoInt.wrap (chunkInputTokens acc)
                     + sumInts (map ChunkAnalysis.InputTokens l)))
        (GoInt.wrap (GoInt.wrap (chunkOutputTokens acc)
                     + sumInts (map ChunkAnalysis.OutputTokens l)))
        (foldl PrimFloat.add (chunkInputCost acc)
           (map ChunkAnalysis.InputCost l))
        (foldl PrimFloat.add (chunkOutputCost acc)
           (map ChunkAnalysis.OutputCost l))
    \/ l = [].
Proof.
  induction l as [|x l IH]; intros acc; [right; reflexivity|]. left.
  simpl. destruct (IH (addChunk acc x)) as [->| ->]; simpl.
  - unfold GoInt.add. rewrite !wrap_add_l, !Z.add_assoc. reflexivity.
  - rewrite !Z.add_0_r. unfold GoInt.add. rewrite !wrap_add_l. reflexivity.
Qed.

Lemma buildFullResult_folds (config : Config.t) (totalPages : Z)
    (nChunks : nat) (rs : list ChunkAnalysis.t) (processingTime : string)
    (generatedAt : Z) :
  FoldsItsChunks
    (buildFullResult config totalPages nChunks rs processingTime generatedAt).
Proof.
  unfold FoldsItsChunks, buildFullResult, chunkTotals, sumFloats. simpl.
  destruct (foldl_addChunk rs (mkTotals 0 0 0%float 0%float)) as [->| ->];
    simpl; repeat split; reflexivity.
Qed.

Lemma runBatch_inv (b : Batch.t) (totalPages totalDuration generatedAt : Z)
    (sched : list Tid) (fr : FullAnalysisResult.t) :
  runBatch b totalPages totalDuration generatedAt sched = Some fr ->
  exists rs,
    dispatch b sched = Some rs
    /\ fr = buildFullResult (Batch.config b) totalPages
              (length (Batch.chunks b)) rs
              (Batch.Duration_String b totalDuration) generatedAt.
Proof.
  unfold runBatch. destruct (dispatch b sched) as [rs|]; [|discriminate].
  intros Hfr. injection Hfr as <-. eauto.
Qed.

(** A run of [main] that returns has run a batch with the constants of
    [main]. *)
Lemma main_returned (env : MainEnv.t) (sched : list Tid)
    (fr : FullAnalysisResult.t) :
  main env sched = Some (Returned fr) ->
  exists config chunks totalPages,
    runBatch
      (Batch.mk ModelPricing config chunks maxConcurrent maxRetries retryDelay
         (MainEnv.world env) (MainEnv.time_Since env) (MainEnv.time_Now env)
         (MainEnv.Duration_String env))
      totalPages (MainEnv.totalDuration env) (MainEnv.generatedAt env) sched
    = Some fr
    /\ getPageCount (MainEnv.pdf env) (Config.PDFPath config) = Ok totalPages.
Proof.
  unfold main. intros Hmain.
  destruct (length (MainEnv.os_Args env) <? 2)%nat; [discriminate|].
  destruct (String.eqb _ ""); [discriminate|].
  destruct (MainEnv.os_Stat_IsNotExist env _); [discriminate|].
  destruct (getPageCount _ _) as [totalPages|] eqn:Hpages; [|discriminate].
  destruct (MainEnv.os_MkdirTemp env) as [tempDir|]; [|discriminate].
  destruct (splitPDFIntoChunks _ _ _ _ _ _) as [[chunks|]|];
    try discriminate.
  simpl in Hmain.
  match type of Hmain with
  | match ?run with _ => _ end = _ => destruct run as [fr'|] eqn:Hrun
  end; [|discriminate].
  injection Hmain as ->. eauto.
Qed.

(** C4. After a batch has completed, the aggregate fields of the full
    result are folds of the per-unit results it holds: the total input
    and output tokens are the sums of the per-unit counts (as Go ints,
    hence the exact sums whenever these fit 64 bits), the total input
    and output costs are the float64 sums of the per-unit costs taken in
    unit order, and the total cost is the sum of these two. This holds
    for every batch and in particular for every run of [main]. *)
Theorem totals_fold_the_unit_results :
  (forall b totalPages totalDuration generatedAt sched fr,
     runBatch b totalPages totalDuration generatedAt sched = Some fr ->
     dispatch b sched = Some (FullAnalysisResult.Chunks fr)
     /\ FoldsItsChunks fr
     /\ (GoInt.in_range
           (sumInts (map ChunkAnalysis.InputTokens
                       (FullAnalysisResult.Chunks fr))) ->
         FullAnalysisResult.TotalInputTokens fr
         = sumInts (map ChunkAnalysis.InputTokens
                      (FullAnalysisResult.Chunks fr)))
     /\ (GoInt.in_range
           (sumInts (map ChunkAnalysis.OutputTokens
                       (FullAnalysisResult.Chunks fr))) ->
         FullAnalysisResult.TotalOutputTokens fr
         = sumInts (map ChunkAnalysis.OutputTokens
                      (FullAnalysisResult.Chunks fr))))
  /\ (forall env sched fr,
        main env sched = Some (Returned fr) -> FoldsItsChunks fr).
Proof.
  split.
  - intros b totalPages totalDuration generatedAt sched fr Hrun.
    apply runBatch_inv in Hrun as (rs & Hrs & ->).
    pose proof (buildFullResult_folds (Batch.config b) totalPages
                  (length (Batch.chunks b)) rs
                  (Batch.Duration_String b totalDuration) generatedAt)
      as Hfolds.
    split; [exact Hrs|]. split; [exact Hfolds|].
    destruct Hfolds as (Hin & Hout & _).
    split; intros Hfits; [rewrite Hin | rewrite Hout];
      apply wrap_small, Hfits.
  - intros env sched fr Hmain.
    apply main_returned in Hmain as (config & chunks & totalPages & Hrun & _).
    apply runBatch_inv in Hrun as (rs & _ & ->).
    apply buildFullResult_folds.
Qed.

Lemma totals_fold_the_unit_results_witness :
  exists fr,
    runBatch Sample.mixedBatch 4 0 0 Sample.mixedSchedule = Some fr
    /\ FullAnalysisResult.TotalInputTokens fr = 2100
    /\ FullAnalysisResult.TotalOutputTokens fr = 550
    /\ FoldsItsChunks fr.
Proof.
  destruct (runBatch Sample.mixedBatch 4 0 0 Sample.mixedSchedule) as [fr|]
    eqn:Hrun; [|vm_compute in Hrun; discriminate].
  destruct totals_fold_the_unit_results as [Hbatch _].
  destruct (Hbatch Sample.mixedBatch 4 0 0 Sample.mixedSchedule fr Hrun)
    as (_ & Hfolds & Hinput & Houtput).
  exists fr. split; [reflexivity|].
  assert (map ChunkAnalysis.InputTokens (FullAnalysisResult.Chunks fr)
          = [1200; 0; 0; 900]) as Hins.
  { vm_compute in Hrun. injection Hrun as <-. reflexivity. }
  assert (map ChunkAnalysis.OutputTokens (FullAnalysisResult.Chunks fr)
          = [340; 0; 0; 210]) as Houts.
  { vm_compute in Hrun. injection Hrun as <-. reflexivity. }
  split; [|split]; [| |exact Hfolds].
  - rewrite Hinput; rewrite Hins; [reflexivity|].
    unfold GoInt.in_range, sumInts. simpl. lia.
  - rewrite Houtput; rewrite Houts; [reflexivity|].
    unfold GoInt.in_range, sumInts. simpl. lia.
Defined.

(** ** Costs *)

Lemma unitResult_costs (b : Batch.t) (i : nat) (c : ChunkInfo.t) :
  let r := unitResult b i c in
  let pricing := GetPricingIn (Batch.table b) (Config.ModelName (Batch.config b)) in
  ChunkAnalysis.InputCost r
  = (GoInt.to_float64 (ChunkAnalysis.InputTokens r) / 1000000
     * AnthropicPricing.InputPricePerMTokens pricing)%float
  /\ ChunkAnalysis.OutputCost r
     = (GoInt.to_float64 (ChunkAnalysis.OutputTokens r) / 1000000
        * AnthropicPricing.OutputPricePerMTokens pricing)%float
  /\ ChunkAnalysis.TotalCost r
     = (ChunkAnalysis.InputCost r + ChunkAnalysis.OutputCost r)%float.
Proof.
  unfold unitResult, chunkResult.
  destruct (Analyzed.err (fst (runRetry b i c))); simpl; auto.
Qed.

(** The total of the cost example as the code computes it, by folding
    the per-unit costs. *)
Definition foldedExampleCost : float :=
  ((0 + 100 / 1000000 * 1.0 + 200 / 1000000 * 1.0)
   + (0 + 50 / 1000000 * 2.0 + 100 / 1000000 * 2.0))%float.

(** The total of the cost example recomputed from the token totals,
    [(300/1e6)*1.0 + (150/1e6)*2.0]. *)
Definition recomputedExampleCost : float :=
  (300 / 1000000 * 1.0 + 150 / 1000000 * 2.0)%float.

(** C5, as it stands, fails: on the cost example the total cost of the
    full result is not [(300/1e6)*1.0 + (150/1e6)*2.0]. *)
Lemma example_total_is_not_the_recomputed_cost :
  exists fr,
    runBatch Sample.costBatch 2 0 0 Sample.costSchedule = Some fr
    /\ map (fun r => (ChunkAnalysis.InputTokens r, ChunkAnalysis.OutputTokens r))
         (FullAnalysisResult.Chunks fr) = [(100, 50); (200, 100)]
    /\ GetPricingIn (Batch.table Sample.costBatch)
         (Config.ModelName (Batch.config Sample.costBatch))
       = AnthropicPricing.mk 1.0 2.0
    /\ FullAnalysisResult.TotalCost fr <> recomputedExampleCost.
Proof.
  destruct (runBatch Sample.costBatch 2 0 0 Sample.costSchedule) as [fr|]
    eqn:Hrun; [|vm_compute in Hrun; discriminate].
  exists fr. vm_compute in Hrun. injection Hrun as <-.
  split; [reflexivity|]. split; [reflexivity|]. split; [reflexivity|].
  simpl. intros Hsame. apply (f_equal Prim2SF) in Hsame.
  vm_compute in Hsame. discriminate.
Qed.

(** C5, amended. Every unit result of a completed batch has
    [InputCost = float64(InputTokens) / 1_000_000 * pricePerMInput],
    [OutputCost] likewise and [TotalCost = InputCost + OutputCost], in
    float64 arithmetic. For unit token counts [(100,50),(200,100)] and a
    price entry (1.0, 2.0) the total cost of the full result is the
    folded sum [(100/1e6*1.0 + 200/1e6*1.0) + (50/1e6*2.0 + 100/1e6*2.0)],
    which is the float64 next above [(300/1e6)*1.0 + (150/1e6)*2.0]. *)
Theorem unit_costs_and_folded_example_total :
  (forall b sched rs i r,
     dispatch b sched = Some rs ->
     rs !! i = Some r ->
     let pricing :=
       GetPricingIn (Batch.table b) (Config.ModelName (Batch.config b)) in
     ChunkAnalysis.InputCost r
     = (GoInt.to_float64 (ChunkAnalysis.InputTokens r) / 1000000
        * AnthropicPricing.InputPricePerMTokens pricing)%float
     /\ ChunkAnalysis.OutputCost r
        = (GoInt.to_float64 (ChunkAnalysis.OutputTokens r) / 1000000
           * AnthropicPricing.OutputPricePerMTokens pricing)%float
     /\ ChunkAnalysis.TotalCost r
        = (ChunkAnalysis.InputCost r + ChunkAnalysis.OutputCost r)%float)
  /\ (forall b totalPages totalDuration generatedAt sched fr,
        runBatch b totalPages totalDuration generatedAt sched = Some fr ->
        GetPricingIn (Batch.table b) (Config.ModelName (Batch.config b))
        = AnthropicPricing.mk 1.0 2.0 ->
        map (fun r => (ChunkAnalysis.InputTokens r,
                       ChunkAnalysis.OutputTokens r))
          (FullAnalysisResult.Chunks fr) = [(100, 50); (200, 100)] ->
        FullAnalysisResult.TotalCost fr = foldedExampleCost)
  /\ foldedExampleCost = next_up recomputedExampleCost.
Proof.
  assert (forall b sched rs i r,
            dispatch b sched = Some rs -> rs !! i = Some r ->
            exists c, r = unitResult b i c) as Hunit.
  { intros b sched rs i r Hrun Hr.
    destruct (lookup_lt_is_Some_2 (Batch.chunks b) i) as [c Hc].
    { rewrite <- (dispatch_length b sched rs Hrun).
      apply (lookup_lt_Some _ _ _ Hr). }
    exists c. rewrite (dispatch_lookup b sched rs i c Hrun Hc) in Hr.
    injection Hr as <-. reflexivity. }
  split; [|split].
  - intros b sched rs i r Hrun Hr.
    destruct (Hunit b sched rs i r Hrun Hr) as [c ->].
    apply unitResult_costs.
  - intros b totalPages totalDuration generatedAt sched fr Hrun Hprice Hunits.
    apply runBatch_inv in Hrun as (rs & Hrs & ->).
    pose proof (buildFullResult_folds (Batch.config b) totalPages
                  (length (Batch.chunks b)) rs
                  (Batch.Duration_String b totalDuration) generatedAt)
      as (_ & _ & Hin & Hout & Htotal).
    rewrite Htotal, Hin, Hout. simpl in *.
    destruct rs as [|r1 [|r2 [|r3 rs]]]; try discriminate.
    destruct (Hunit b sched [r1; r2] 0%nat r1 Hrs eq_refl) as [c1 Hr1].
    destruct (Hunit b sched [r1; r2] 1%nat r2 Hrs eq_refl) as [c2 Hr2].
    pose proof (unitResult_costs b 0 c1) as (Hin1 & Hout1 & _).
    pose proof (unitResult_costs b 1 c2) as (Hin2 & Hout2 & _).
    rewrite <- Hr1 in Hin1, Hout1. rewrite <- Hr2 in Hin2, Hout2.
    simpl in Hunits.
    injection Hunits as Hi1 Ho1 Hi2 Ho2.
    rewrite Hprice in Hin1, Hout1, Hin2, Hout2.
    simpl in Hin1, Hout1, Hin2, Hout2.
    rewrite Hi1 in Hin1. rewrite Ho1 in Hout1.
    rewrite Hi2 in Hin2. rewrite Ho2 in Hout2.
    unfold sumFloats. simpl.
    rewrite Hin1, Hin2, Hout1, Hout2. reflexivity.
  - reflexivity.
Qed.

Lemma unit_costs_and_folded_example_total_witness :
  exists fr,
    runBatch Sample.costBatch 2 0 0 Sample.costSchedule = Some fr
    /\ FullAnalysisResult.TotalCost fr = foldedExampleCost.
Proof.
  destruct (runBatch Sample.costBatch 2 0 0 Sample.costSchedule) as [fr|]
    eqn:Hrun; [|vm_compute in Hrun; discriminate].
  exists fr. split; [reflexivity|].
  destruct unit_costs_and_folded_example_total as (_ & Hexample & _).
  apply (Hexample Sample.costBatch 2 0 0 Sample.costSchedule fr Hrun).
  - reflexivity.
  - vm_compute in Hrun. injection Hrun as <-. reflexivity.
Defined.

(** ** Setup *)

(** The full result of an empty batch. *)
Definition emptyResult (env : MainEnv.t) : FullAnalysisResult.t :=
  FullAnalysisResult.mk (nth 1 (MainEnv.os_Args env) "") 0 0 [] None 0 0
    0%float 0%float 0%float
    (MainEnv.Duration_String env (MainEnv.totalDuration env))
    (MainEnv.generatedAt env).

(** C8, as it stands, fails: for a readable document with zero pages
    [main] returns normally, with exit code 0 and an empty result. *)
Lemma zero_pages_do_not_abort :
  getPageCount (MainEnv.pdf Sample.emptyDocument) "empty.pdf" = Ok 0
  /\ main Sample.emptyDocument [TMain; TMain]
     = Some (Returned (emptyResult Sample.emptyDocument))
  /\ exitCode (Returned (emptyResult Sample.emptyDocument)) = 0.
Proof. repeat split; reflexivity. Qed.

Lemma dispatch_no_chunks (b : Batch.t) (sched : list Tid)
    (rs : list ChunkAnalysis.t) :
  Batch.chunks b = [] -> dispatch b sched = Some rs -> rs = [].
Proof.
  intros Hnone Hrun. apply dispatch_length in Hrun. rewrite Hnone in Hrun.
  destruct rs; [reflexivity | discriminate].
Qed.

(** C8, amended. If the arguments, the credential and the document are
    in place and the document has zero pages, [main] does not abort: the
    splitting yields no chunk, the dispatcher runs an empty batch, and
    every run of [main] returns with exit code 0 and the empty result
    (no units, all totals zero); such a run exists. A failure to read the
    page count, in contrast, is fatal before any dispatch: whatever the
    schedule, the process exits with code 1 and the error is reported. *)
Theorem zero_pages_is_an_empty_batch (env : MainEnv.t) :
  (2 <= length (MainEnv.os_Args env))%nat ->
  MainEnv.ANTHROPIC_API_KEY env <> "" ->
  MainEnv.os_Stat_IsNotExist env (nth 1 (MainEnv.os_Args env) "") = false ->
  (forall tempDir,
     getPageCount (MainEnv.pdf env) (nth 1 (MainEnv.os_Args env) "") = Ok 0 ->
     MainEnv.os_MkdirTemp env = Ok tempDir ->
     main env [TMain; TMain] = Some (Returned (emptyResult env))
     /\ forall sched out,
          main env sched = Some out ->
          out = Returned (emptyResult env) /\ exitCode out = 0)
  /\ (forall e sched,
        getPageCount (MainEnv.pdf env) (nth 1 (MainEnv.os_Args env) "")
        = Failed e ->
        main env sched = Some (Fatal ("Error getting page count: " +:+ e))
        /\ exitCode (Fatal ("Error getting page count: " +:+ e)) = 1).
Proof.
  intros Hargs Hkey Hfound.
  assert ((length (MainEnv.os_Args env) <? 2)%nat = false) as Hargs'
    by (apply Nat.ltb_ge; exact Hargs).
  assert (String.eqb (MainEnv.ANTHROPIC_API_KEY env) "" = false) as Hkey'
    by (apply String.eqb_neq; exact Hkey).
  split.
  - intros tempDir Hpages Htemp.
    assert (forall sched,
              main env sched
              = match dispatch
                        (Batch.mk ModelPricing
                           (Config.mk (MainEnv.ANTHROPIC_API_KEY env) haiku
                              (nth 1 (MainEnv.os_Args env) ""))
                           [] maxConcurrent maxRetries retryDelay
                           (MainEnv.world env) (MainEnv.time_Since env)
                           (MainEnv.time_Now env)
                           (MainEnv.Duration_String env)) sched with
                | Some rs =>
                    Some (Returned
                            (buildFullResult
                               (Config.mk (MainEnv.ANTHROPIC_API_KEY env)
                                  haiku (nth 1 (MainEnv.os_Args env) ""))
                               0 0 rs
                               (MainEnv.Duration_String env
                                  (MainEnv.totalDuration env))
                               (MainEnv.generatedAt env)))
                | None => None
                end) as Hmain.
    { intros sched. unfold main. rewrite Hargs'. simpl.
      rewrite Hkey', Hfound, Hpages, Htemp. simpl. unfold runBatch. simpl.
      destruct (dispatch _ sched); reflexivity. }
    split.
    + rewrite Hmain. reflexivity.
    + intros sched out Hout. rewrite Hmain in Hout.
      match type of Hout with
      | match ?run with _ => _ end = _ => destruct run as [rs|] eqn:Hrun
      end; [|discriminate].
      apply dispatch_no_chunks in Hrun; [|reflexivity]. subst rs.
      injection Hout as <-. split; reflexivity.
  - intros e sched Hpages. split; [|reflexivity].
    unfold main. rewrite Hargs'. simpl. rewrite Hkey', Hfound, Hpages.
    reflexivity.
Qed.

Lemma zero_pages_is_an_empty_batch_witness :
  main Sample.emptyDocument [TMain; TMain]
  = Some (Returned (emptyResult Sample.emptyDocument))
  /\ main Sample.brokenDocument [TMain; TMain]
     = Some (Fatal "Error getting page count: error getting page count: validation error").
Proof.
  assert (2 <= 2)%nat as Hargs by lia.
  assert ("key" <> "") as Hkey by discriminate.
  destruct (zero_pages_is_an_empty_batch Sample.emptyDocument Hargs Hkey
              eq_refl) as [Hzero _].
  destruct (zero_pages_is_an_empty_batch Sample.brokenDocument Hargs Hkey
              eq_refl) as [_ Hbroken].
  split.
  - apply (Hzero "/tmp/pdf-chunks-1"); reflexivity.
  - apply (Hbroken "error getting page count: validation error"
             [TMain; TMain]). reflexivity.
Defined.

(** ** [main] comes to an end *)

Lemma add_one_small (p : Z) : 0 <= p < 2 ^ 63 - 1 -> GoInt.add p 1 = p + 1.
Proof.
  intros Hp. unfold GoInt.add. apply wrap_small. unfold GoInt.in_range. lia.
Qed.

(** With one page per chunk the splitting loop ends within [totalPages]
    rounds. *)
Lemma splitLoop_single_pages_end (env : PdfEnv.t) (pdfPath tempDir : string)
    (totalPages : Z) (fuel : nat) :
  totalPages < 2 ^ 63 - 1 ->
  forall startPage chunks,
    0 <= startPage ->
    (Z.to_nat (totalPages - startPage) <= fuel)%nat ->
    splitLoop env fuel pdfPath tempDir 1 totalPages startPage chunks <> None.
Proof.
  intros Hpages.
  induction fuel as [|fuel IH]; intros startPage chunks Hstart Hfuel; simpl.
  - destruct (Z.ltb_spec startPage totalPages); simpl; [lia | discriminate].
  - destruct (Z.ltb_spec startPage totalPages) as [Hlt|]; simpl;
      [|discriminate].
    rewrite (add_one_small startPage) by lia.
    destruct (Z.gtb_spec (startPage + 1) totalPages) as [|_]; [lia|].
    destruct (PdfEnv.os_Open env startPage); [|discriminate].
    replace (Z.to_nat (startPage + 1 - startPage)) with 1%nat by lia.
    simpl. rewrite Z.leb_refl.
    rewrite (add_one_small (startPage + 1)) by lia.
    destruct (Z.leb_spec (startPage + 1 + 1) (startPage + 1)); [lia|].
    destruct (PdfEnv.api_ExtractPages env startPage _); [discriminate|].
    apply IH; lia.
Qed.

(** X21. Every invocation of [main] on a document of fewer than
    [2^63 - 1] pages has a run, and the run ends by [log.Fatal] or by
    returning. *)
Theorem main_ends (env : MainEnv.t) :
  (forall pages,
     PdfEnv.api_PageCount (MainEnv.pdf env) = Ok pages ->
     pages < 2 ^ 63 - 1) ->
  exists sched out, main env sched = Some out.
Proof.
  intros Hpages. unfold main.
  destruct (length (MainEnv.os_Args env) <? 2)%nat; [exists []; eauto|].
  simpl. destruct (String.eqb _ ""); [exists []; eauto|].
  destruct (MainEnv.os_Stat_IsNotExist env _); [exists []; eauto|].
  destruct (getPageCount _ _) as [totalPages|] eqn:Hcount;
    [|exists []; eauto].
  assert (totalPages < 2 ^ 63 - 1) as Hsmall.
  { apply Hpages. unfold getPageCount in Hcount.
    destruct (PdfEnv.os_Open_forCount _); [|discriminate].
    destruct (PdfEnv.api_PageCount _); [|discriminate].
    congruence. }
  destruct (MainEnv.os_MkdirTemp env) as [tempDir|]; [|exists []; eauto].
  pose proof (splitLoop_single_pages_end (MainEnv.pdf env)
                (nth 1 (MainEnv.os_Args env) "") tempDir totalPages
                (Z.to_nat totalPages) Hsmall 0 [] (Z.le_refl 0)) as Hsplit.
  unfold splitPDFIntoChunks.
  destruct (splitLoop _ _ _ _ _ _ _ _) as [[chunks|e]|];
    [|exists []; eauto|contradiction Hsplit; [lia | reflexivity]].
  match goal with
  | |- context [runBatch ?b _ _ _ _] =>
      destruct (every_run_completes b [] (init b)) as (rest & rs & Hrun);
        [simpl; unfold maxConcurrent; lia | reflexivity |]
  end.
  exists rest. unfold runBatch. simpl in Hrun. rewrite Hrun. eauto.
Qed.

(** * Further properties of the dispatcher *)

(** Induction over the states of the runs from [init]. *)
Lemma reachable_ind (b : Batch.t) (P : State -> Prop) :
  P (init b) ->
  (forall t s s', Inv b s -> P s -> step b t s = Some s' -> P s') ->
  forall sched s, exec b sched (init b) = Some s -> P s.
Proof.
  intros Hinit Hstep sched.
  assert (forall s0 s, Inv b s0 -> P s0 -> exec b sched s0 = Some s -> P s)
    as Hfrom.
  { induction sched as [|t sched IH]; intros s0 s HI HP Hexec; simpl in Hexec.
    - injection Hexec as <-. exact HP.
    - destruct (step b t s0) as [s1|] eqn:Hmove; [|discriminate].
      apply (IH s1 s); [apply (step_Inv b t s0 s1 HI Hmove) | | exact Hexec].
      apply (Hstep t s0 s1 HI HP Hmove). }
  intros s. apply Hfrom; [apply init_Inv | exact Hinit].
Qed.

Lemma countPc_two (f : WorkerPc -> bool) (ws : list Worker) (i j : nat)
    (wi wj : Worker) :
  i <> j ->
  ws !! i = Some wi -> ws !! j = Some wj ->
  f (pc wi) = true -> f (pc wj) = true ->
  (2 <= countPc f ws)%nat.
Proof.
  unfold countPc, sumPc. revert i j.
  induction ws as [|x ws IH]; intros [|i] [|j] Hne Hi Hj Hfi Hfj;
    simpl in *; try discriminate; try congruence.
  - injection Hi as ->. rewrite Hfi.
    pose proof (sumPc_lookup_le (fun p => natOfBool (f p)) ws j wj Hj) as Hle.
    simpl in Hle. rewrite Hfj in Hle. unfold sumPc in Hle. simpl in *. lia.
  - injection Hj as ->. rewrite Hfj.
    pose proof (sumPc_lookup_le (fun p => natOfBool (f p)) ws i wi Hi) as Hle.
    simpl in Hle. rewrite Hfi in Hle. unfold sumPc in Hle. simpl in *. lia.
  - assert (i <> j) as Hne' by congruence.
    specialize (IH i j Hne' Hi Hj Hfi Hfj). lia.
Qed.

Lemma countPc_none (f : WorkerPc -> bool) (ws : list Worker) :
  (forall i w, ws !! i = Some w -> f (pc w) = false) -> countPc f ws = 0%nat.
Proof.
  intros Hnone. destruct (countPc f ws) as [|n] eqn:Hcount; [reflexivity|].
  destruct (countPc_pos f ws) as (i & w & Hw & Hf); [lia|].
  rewrite (Hnone i w Hw) in Hf. discriminate.
Qed.

(** X1. In every state of every run at most one worker stands between
    [mu.Lock()] and [mu.Unlock()], and the mutex is held exactly when
    there is one. *)
Theorem mutex_is_exclusive (b : Batch.t) (sched : list Tid) (s : State)
    (i j : nat) (wi wj : Worker) :
  exec b sched (init b) = Some s ->
  workers s !! i = Some wi ->
  workers s !! j = Some wj ->
  holdsMu (pc wi) = true ->
  holdsMu (pc wj) = true ->
  i = j /\ mu s = true.
Proof.
  intros Hexec Hi Hj Hmi Hmj.
  pose proof (inv_mu b s (reachable_Inv b sched s Hexec)) as Hcount.
  pose proof (countPc_lookup holdsMu _ _ _ Hi Hmi) as Hsome.
  split.
  - destruct (decide (i = j)) as [|Hne]; [assumption|].
    pose proof (countPc_two holdsMu _ i j wi wj Hne Hi Hj Hmi Hmj).
    destruct (mu s); simpl in Hcount; lia.
  - destruct (mu s); [reflexivity | simpl in Hcount; lia].
Qed.

Lemma mutex_is_exclusive_witness :
  exists s w,
    exec Sample.mixedBatch (take 24 Sample.mixedSchedule)
      (init Sample.mixedBatch) = Some s
    /\ workers s !! 1%nat = Some w
    /\ holdsMu (pc w) = true
    /\ mu s = true.
Proof.
  destruct (exec Sample.mixedBatch (take 24 Sample.mixedSchedule)
              (init Sample.mixedBatch)) as [s|] eqn:Hexec;
    [|vm_compute in Hexec; discriminate].
  destruct (workers s !! 1%nat) as [w|] eqn:Hw;
    [|vm_compute in Hexec; injection Hexec as <-; discriminate].
  assert (holdsMu (pc w) = true) as Hholds.
  { vm_compute in Hexec. injection Hexec as <-.
    vm_compute in Hw. injection Hw as <-. reflexivity. }
  exists s, w. split; [reflexivity|]. split; [exact Hw|].
  split; [exact Hholds|].
  apply (mutex_is_exclusive Sample.mixedBatch (take 24 Sample.mixedSchedule)
           s 1 1 w w Hexec Hw Hw Hholds Hholds).
Defined.

(** X2. No goroutine ever panics: in every state of every run the process
    is alive, a worker about to assign [results[index]] has its index in
    range, a worker about to unlock finds the mutex held, and a worker
    about to call [wg.Done()] finds the counter positive. *)
Theorem no_goroutine_panics (b : Batch.t) (sched : list Tid) (s : State) :
  exec b sched (init b) = Some s ->
  mainPc s <> MPanic
  /\ forall i w,
       workers s !! i = Some w ->
       (pc w = WWrite -> (i < length (results s))%nat)
       /\ (pc w = WUnlock -> mu s = true)
       /\ (pc w = WWgDone -> (0 < wg s)%nat).
Proof.
  intros Hexec. pose proof (reachable_Inv b sched s Hexec) as HI.
  split; [apply (inv_alive b s HI)|].
  intros i w Hw. repeat split; intros Hpc.
  - rewrite (inv_results b s HI), <- (inv_workers b s HI).
    apply (lookup_lt_Some _ _ _ Hw).
  - pose proof (countPc_lookup holdsMu _ _ _ Hw) as Hsome.
    rewrite Hpc in Hsome. specialize (Hsome eq_refl).
    rewrite (inv_mu b s HI) in Hsome.
    destruct (mu s); [reflexivity | simpl in Hsome; lia].
  - pose proof (countPc_lookup isActive _ _ _ Hw) as Hsome.
    rewrite Hpc in Hsome. specialize (Hsome eq_refl).
    rewrite (inv_wg b s HI). exact Hsome.
Qed.

Lemma no_goroutine_panics_witness :
  exists s,
    exec Sample.mixedBatch Sample.mixedSchedule (init Sample.mixedBatch)
    = Some s
    /\ mainPc s <> MPanic.
Proof.
  destruct (exec Sample.mixedBatch Sample.mixedSchedule
              (init Sample.mixedBatch)) as [s|] eqn:Hexec;
    [|vm_compute in Hexec; discriminate].
  exists s. split; [reflexivity|].
  apply (no_goroutine_panics Sample.mixedBatch Sample.mixedSchedule s Hexec).
Defined.

(** X3. When [wg.Wait()] has returned, every worker has run to its end,
    every slot of the semaphore has been given back, the mutex is free
    and the WaitGroup counter is 0. *)
Theorem join_leaves_nothing_held (b : Batch.t) (sched : list Tid) (s : State) :
  exec b sched (init b) = Some s ->
  joined s = true ->
  (forall i w, workers s !! i = Some w -> pc w = WDone)
  /\ length (workers s) = length (Batch.chunks b)
  /\ semaphore s = 0%nat
  /\ mu s = false
  /\ wg s = 0%nat.
Proof.
  intros Hexec Hjoined. pose proof (reachable_Inv b sched s Hexec) as HI.
  assert (forall i w, workers s !! i = Some w -> pc w = WDone) as Hdone
    by (intros i w; apply (joined_all_done b s i w HI Hjoined)).
  split; [exact Hdone|]. split; [apply (inv_workers b s HI)|].
  split; [|split].
  - rewrite (inv_sem b s HI). apply countPc_none.
    intros i w Hw. rewrite (Hdone i w Hw). reflexivity.
  - pose proof (inv_mu b s HI) as Hmu.
    rewrite countPc_none in Hmu
      by (intros i w Hw; rewrite (Hdone i w Hw); reflexivity).
    destruct (mu s); [discriminate | reflexivity].
  - rewrite (inv_wg b s HI). apply countPc_none.
    intros i w Hw. rewrite (Hdone i w Hw). reflexivity.
Qed.

Lemma join_leaves_nothing_held_witness :
  exists s,
    exec Sample.mixedBatch Sample.mixedSchedule (init Sample.mixedBatch)
    = Some s
    /\ semaphore s = 0%nat /\ mu s = false /\ wg s = 0%nat.
Proof.
  destruct (exec Sample.mixedBatch Sample.mixedSchedule
              (init Sample.mixedBatch)) as [s|] eqn:Hexec;
    [|vm_compute in Hexec; discriminate].
  assert (joined s = true) as Hjoined.
  { vm_compute in Hexec. injection Hexec as <-. reflexivity. }
  destruct (join_leaves_nothing_held Sample.mixedBatch Sample.mixedSchedule s
              Hexec Hjoined) as (_ & _ & Hsem & Hmu & Hwg).
  exists s. auto.
Defined.

(** *** Each slot is written once *)

(** What a worker step does to the goroutine table and to [results]. *)
Lemma stepAt_results (b : Batch.t) (i : nat) (c : ChunkInfo.t) (w : Worker)
    (s s' : State) :
  stepAt b i c w s = Some s' ->
  mainPc s <> MPanic ->
  mainPc s' <> MPanic ->
  exists w',
    workers s' = <[i := w']> (workers s)
    /\ (results s' = results s /\ hasWritten (pc w') = hasWritten (pc w)
        \/ pc w = WWrite /\ hasWritten (pc w') = true
           /\ results s' = <[i := chunkResult b i c (cur w)]> (results s)).
Proof.
  intros Hmove Halive Halive'. unfold stepAt in Hmove.
  destruct (pc w) eqn:Hpc; try discriminate;
    repeat match type of Hmove with
           | context [if ?x then _ else _] => destruct x
           | context [match semaphore s with _ => _ end] =>
               destruct (semaphore s)
           | context [match wg s with _ => _ end] => destruct (wg s)
           | context [match afterCall ?b ?a ?r with _ => _ end] =>
               destruct (afterCall b a r)
           end;
    try discriminate; injection Hmove as <-;
    try (contradiction Halive'; reflexivity);
    eexists; (split; [reflexivity|]); simpl; auto.
Qed.

Lemma stepMain_results (b : Batch.t) (s s' : State) :
  stepMain b s = Some s' ->
  results s' = results s
  /\ (workers s' = workers s
      \/ exists k w,
           mainPc s = MSpawn k /\ workers s !! k = Some w
           /\ workers s' = <[k := setPc w WAcquire]> (workers s)).
Proof.
  unfold stepMain. intros Hmove.
  destruct (mainPc s) as [k| | |]; try discriminate.
  - destruct (Batch.chunks b !! k), (workers s !! k) as [w|] eqn:Hw;
      injection Hmove as <-; simpl; eauto 10.
  - destruct (wg s); [|discriminate]. injection Hmove as <-. auto.
Qed.

(** The slot of a worker that has not written yet holds the zero value. *)
Definition Unwritten (s : State) : Prop :=
  forall i w,
    workers s !! i = Some w -> hasWritten (pc w) = false ->
    results s !! i = Some ChunkAnalysis.zero.

Lemma reachable_Unwritten (b : Batch.t) (sched : list Tid) (s : State) :
  exec b sched (init b) = Some s -> Unwritten s.
Proof.
  apply reachable_ind.
  - intros i w Hw _. simpl in *. apply lookup_replicate in Hw as [_ Hlt].
    apply lookup_replicate. auto.
  - intros t s0 s1 HI HP Hmove.
    pose proof (inv_alive b s1 (step_Inv b t s0 s1 HI Hmove)) as Halive'.
    destruct t as [|i]; simpl in Hmove.
    + destruct (stepMain_results b s0 s1 Hmove) as [Hres Hws].
      intros j wj Hj Hnot. rewrite Hres.
      destruct Hws as [Hws|(k & w & Hmain & Hw & Hws)]; rewrite Hws in Hj.
      * apply (HP j wj Hj Hnot).
      * destruct (decide (k = j)) as [<-|Hne].
        -- apply (HP k w Hw).
           assert (pc w = WIdle) as ->; [|reflexivity].
           apply (inv_started b s0 HI k w Hw). rewrite Hmain. simpl. lia.
        -- rewrite list_lookup_insert_ne in Hj by assumption.
           apply (HP j wj Hj Hnot).
    + apply stepWorker_inv in Hmove as (w & c & Hw & Hc & Hmove).
      destruct (stepAt_results b i c w s0 s1 Hmove (inv_alive b s0 HI) Halive')
        as (w' & Hws & Hres).
      intros j wj Hj Hnot. rewrite Hws in Hj.
      destruct (decide (i = j)) as [<-|Hne].
      * rewrite list_lookup_insert_eq in Hj by apply (lookup_lt_Some _ _ _ Hw).
        injection Hj as <-.
        destruct Hres as [[-> Hsame]|(_ & Hnow & _)]; [|congruence].
        apply (HP i w Hw). congruence.
      * rewrite list_lookup_insert_ne in Hj by assumption.
        destruct Hres as [[-> _]|(_ & _ & ->)].
        -- apply (HP j wj Hj Hnot).
        -- rewrite list_lookup_insert_ne by assumption.
           apply (HP j wj Hj Hnot).
Qed.

(** X4. Every step of every run either leaves [results] as it is or is
    the one write of a worker: it replaces the zero value at the worker's
    own index by the final result of that unit, and no other index
    changes. A worker that has written never writes again. *)
Theorem each_slot_is_written_once (b : Batch.t) (sched : list Tid)
    (s s' : State) (t : Tid) :
  exec b sched (init b) = Some s ->
  step b t s = Some s' ->
  (results s' = results s
   \/ exists i c,
        t = TWorker i
        /\ Batch.chunks b !! i = Some c
        /\ results s !! i = Some ChunkAnalysis.zero
        /\ results s' = <[i := unitResult b i c]> (results s))
  /\ (forall j w w',
        workers s !! j = Some w -> workers s' !! j = Some w' ->
        hasWritten (pc w) = true ->
        hasWritten (pc w') = true /\ results s' !! j = results s !! j).
Proof.
  intros Hexec Hmove. pose proof (reachable_Inv b sched s Hexec) as HI.
  pose proof (inv_alive b s' (step_Inv b t s s' HI Hmove)) as Halive'.
  pose proof (reachable_Unwritten b sched s Hexec) as Hzero.
  destruct t as [|i]; simpl in Hmove.
  - destruct (stepMain_results b s s' Hmove) as [Hres Hws]. split; [auto|].
    intros j w w' Hw Hw' Hwritten. rewrite Hres. split; [|reflexivity].
    destruct Hws as [Hws|(k & w0 & Hmain & Hw0 & Hws)]; rewrite Hws in Hw'.
    + congruence.
    + destruct (decide (k = j)) as [<-|Hne].
      * assert (pc w0 = WIdle) as Hidle.
        { apply (inv_started b s HI k w0 Hw0). rewrite Hmain. simpl. lia. }
        rewrite Hw in Hw0. injection Hw0 as ->. rewrite Hidle in Hwritten.
        discriminate.
      * rewrite list_lookup_insert_ne in Hw' by assumption. congruence.
  - apply stepWorker_inv in Hmove as (w & c & Hw & Hc & Hmove).
    destruct (stepAt_results b i c w s s' Hmove (inv_alive b s HI) Halive')
      as (w' & Hws & Hres).
    split.
    + destruct Hres as [[-> _]|(Hpc & _ & ->)]; [auto|]. right.
      exists i, c. repeat split; try assumption.
      * apply (Hzero i w Hw). rewrite Hpc. reflexivity.
      * unfold unitResult. rewrite <- (inv_link b s HI i w c Hw Hc).
        unfold complete, future. rewrite Hpc. reflexivity.
    + intros j wj wj' Hj Hj' Hwritten. rewrite Hws in Hj'.
      destruct (decide (i = j)) as [<-|Hne].
      * rewrite list_lookup_insert_eq in Hj' by apply (lookup_lt_Some _ _ _ Hw).
        injection Hj' as <-. rewrite Hw in Hj. injection Hj as <-.
        destruct Hres as [[-> Hsame]|(Hpc & _ & _)].
        -- split; [congruence | reflexivity].
        -- rewrite Hpc in Hwritten. discriminate.
      * rewrite list_lookup_insert_ne in Hj' by assumption.
        split; [congruence|].
        destruct Hres as [[-> _]|(_ & _ & ->)]; [reflexivity|].
        apply list_lookup_insert_ne. assumption.
Qed.

Lemma each_slot_is_written_once_witness :
  exists s s',
    exec Sample.mixedBatch (take 21 Sample.mixedSchedule)
      (init Sample.mixedBatch) = Some s
    /\ step Sample.mixedBatch (TWorker 1) s = Some s'
    /\ results s !! 1%nat = Some ChunkAnalysis.zero
    /\ results s'
       = <[1%nat := unitResult Sample.mixedBatch 1
                      (ChunkInfo.mk "chunk.pdf" 1 1)]> (results s).
Proof.
  destruct (exec Sample.mixedBatch (take 21 Sample.mixedSchedule)
              (init Sample.mixedBatch)) as [s|] eqn:Hexec;
    [|vm_compute in Hexec; discriminate].
  destruct (step Sample.mixedBatch (TWorker 1) s) as [s'|] eqn:Hmove.
  2: { vm_compute in Hexec. injection Hexec as <-.
       vm_compute in Hmove. discriminate. }
  destruct (each_slot_is_written_once Sample.mixedBatch
              (take 21 Sample.mixedSchedule) s s' (TWorker 1) Hexec Hmove)
    as [[Hsame|(i & c & Ht & Hc & Hzero & Hwrite)] _].
  - exfalso. vm_compute in Hexec. injection Hexec as <-.
    vm_compute in Hmove. injection Hmove as <-.
    apply (f_equal (fun l => ChunkAnalysis.ChunkNumber <$> l !! 1%nat)) in Hsame.
    vm_compute in Hsame. discriminate.
  - injection Ht as <-.
    assert (c = ChunkInfo.mk "chunk.pdf" 1 1) as ->
      by (vm_compute in Hc; congruence).
    exists s, s'. auto.
Defined.

(** *** A limit of zero *)

Lemma no_slot_no_start (b : Batch.t) (sched : list Tid) (s : State) :
  Batch.maxConcurrent b = 0%nat ->
  exec b sched (init b) = Some s ->
  forall i w, workers s !! i = Some w -> pc w = WIdle \/ pc w = WAcquire.
Proof.
  intros Hzero. revert sched s.
  apply (reachable_ind b
           (fun s => forall i w,
              workers s !! i = Some w -> pc w = WIdle \/ pc w = WAcquire)).
  - intros i w Hw. simpl in Hw. apply lookup_replicate in Hw as [-> _]. auto.
  - intros t s0 s1 HI HP Hmove. destruct t as [|i]; simpl in Hmove.
    + destruct (stepMain_results b s0 s1 Hmove) as [_ Hws].
      intros j wj Hj.
      destruct Hws as [Hws|(k & w & _ & Hw & Hws)]; rewrite Hws in Hj.
      * apply (HP j wj Hj).
      * destruct (decide (k = j)) as [<-|Hne].
        -- rewrite list_lookup_insert_eq in Hj
             by apply (lookup_lt_Some _ _ _ Hw).
           injection Hj as <-. auto.
        -- rewrite list_lookup_insert_ne in Hj by assumption.
           apply (HP j wj Hj).
    + apply stepWorker_inv in Hmove as (w & c & Hw & _ & Hmove).
      unfold stepAt in Hmove. rewrite Hzero in Hmove.
      destruct (HP i w Hw) as [Hpc|Hpc]; rewrite Hpc in Hmove; discriminate.
Qed.

(** X5. With a concurrency limit of 0 the channel has no buffer and no
    worker ever gets past the acquire: a batch with at least one unit
    has no complete run, whatever the schedule. *)
Theorem limit_zero_never_completes (b : Batch.t) (sched : list Tid) :
  Batch.maxConcurrent b = 0%nat ->
  Batch.chunks b <> [] ->
  dispatch b sched = None.
Proof.
  intros Hzero Hsome.
  destruct (dispatch b sched) as [rs|] eqn:Hrun; [|reflexivity].
  apply dispatch_inv in Hrun as (s & Hexec & Hjoined & _).
  pose proof (reachable_Inv b sched s Hexec) as HI.
  destruct (Batch.chunks b) as [|c cs] eqn:Hchunks; [congruence|].
  destruct (lookup_lt_is_Some_2 (workers s) 0) as [w Hw].
  { rewrite (inv_workers b s HI), Hchunks. simpl. lia. }
  pose proof (joined_all_done b s 0 w HI Hjoined Hw) as Hdone.
  destruct (no_slot_no_start b sched s Hzero Hexec 0%nat w Hw); congruence.
Qed.

Lemma limit_zero_never_completes_witness :
  dispatch (Batch.withMaxConcurrent Sample.mixedBatch 0)
    [TMain; TMain; TMain; TMain; TMain] = None.
Proof.
  apply limit_zero_never_completes; [reflexivity | discriminate].
Defined.

(** * The shape of a worker's run *)

(** The events of a run of [n] calls that starts in round [attempt]:
    the calls of the rounds [attempt], [attempt + 1], ..., each but the
    last followed by its backoff sleep. *)
Fixpoint retryTrace (b : Batch.t) (attempt : Z) (n : nat) : list Event :=
  match n with
  | O => []
  | S n' =>
      match n' with
      | O => [EvCall attempt]
      | S _ =>
          EvCall attempt :: EvSleep (waitTime b attempt)
            :: retryTrace b (attempt + 1) n'
      end
  end.

Lemma callsOf_retryTrace (b : Batch.t) (n : nat) :
  forall attempt, callsOf (retryTrace b attempt n) = seqZ attempt (Z.of_nat n).
Proof.
  induction n as [|n IH]; intros attempt; [reflexivity|].
  rewrite seqZ_cons by lia. simpl. destruct n as [|n]; [reflexivity|].
  change (callsOf (EvCall attempt :: EvSleep (waitTime b attempt)
                     :: retryTrace b (attempt + 1) (S n)))
    with (attempt :: callsOf (retryTrace b (attempt + 1) (S n))).
  rewrite IH. f_equal. f_equal; lia.
Qed.

Lemma sleepsOf_retryTrace (b : Batch.t) (n : nat) :
  forall attempt,
    sleepsOf (retryTrace b attempt n)
    = map (waitTime b) (seqZ attempt (Z.of_nat n - 1)).
Proof.
  induction n as [|n IH]; intros attempt; [reflexivity|].
  simpl. destruct n as [|n]; [reflexivity|].
  change (sleepsOf (EvCall attempt :: EvSleep (waitTime b attempt)
                      :: retryTrace b (attempt + 1) (S n)))
    with (waitTime b attempt :: sleepsOf (retryTrace b (attempt + 1) (S n))).
  rewrite IH. rewrite (seqZ_cons attempt) by lia. simpl.
  f_equal. f_equal. f_equal; lia.
Qed.

Section RunShape.

Variable b : Batch.t.
Variable index : nat.
Variable chunk : ChunkInfo.t.

Local Abbreviation maxRetries := (Batch.maxRetries b).

Lemma afterCall_Break (attempt : Z) :
  afterCall b attempt (callAnalyze b index chunk attempt) = Break ->
  ~ transientAt b index chunk attempt.
Proof.
  unfold afterCall. intros Hnext (msg & Herr & Hrate).
  rewrite Herr, Hrate in Hnext. destruct (attempt <? _); discriminate.
Qed.

Lemma afterCall_Sleep (attempt d : Z) :
  afterCall b attempt (callAnalyze b index chunk attempt)
  = SleepThenContinue d ->
  transientAt b index chunk attempt
  /\ attempt < maxRetries - 1 /\ d = waitTime b attempt.
Proof.
  unfold afterCall, transientAt. intros Hnext.
  destruct (Analyzed.err _) as [msg|]; [|discriminate].
  destruct (isRateLimit msg) eqn:Hrate; [|discriminate].
  destruct (Z.ltb_spec attempt (maxRetries - 1)); [|discriminate].
  injection Hnext as <-. eauto.
Qed.

Lemma afterCall_FallThrough (attempt : Z) :
  afterCall b attempt (callAnalyze b index chunk attempt) = FallThrough ->
  transientAt b index chunk attempt /\ maxRetries - 1 <= attempt.
Proof.
  unfold afterCall, transientAt. intros Hnext.
  destruct (Analyzed.err _) as [msg|]; [|discriminate].
  destruct (isRateLimit msg) eqn:Hrate; [|discriminate].
  destruct (Z.ltb_spec attempt (maxRetries - 1)); [discriminate|]. eauto.
Qed.

Ltac one_call :=
  change (Z.of_nat 1) with 1; simpl;
  match goal with
  | |- context [?a + 1 - 1] => replace (a + 1 - 1) with a by lia
  end;
  (split; [lia|]); (split; [reflexivity|]); (split; [reflexivity|]);
  (split; [intros ? ?; lia|]).

(** A loop entered in round [attempt] makes [n >= 1] calls, in the
    rounds [attempt] to [attempt + n - 1]; all but the last one hit the
    rate limit; the last one either did not or was the last round
    allowed; the loop ends with the result of the last call. *)
Lemma loopFrom_shape (m : nat) :
  forall attempt cur,
    roundsLeft b attempt = S m ->
    exists n,
      (1 <= n <= S m)%nat
      /\ snd (loopFrom b index chunk attempt cur) = retryTrace b attempt n
      /\ fst (loopFrom b index chunk attempt cur)
         = callAnalyze b index chunk (attempt + Z.of_nat n - 1)
      /\ (forall j, attempt <= j < attempt + Z.of_nat n - 1 ->
                    transientAt b index chunk j)
      /\ (attempt + Z.of_nat n = maxRetries
          \/ ~ transientAt b index chunk (attempt + Z.of_nat n - 1)).
Proof.
  induction m as [|m IH]; intros attempt cur Hleft;
    (assert (attempt < maxRetries) as Hlt by (unfold roundsLeft in Hleft; lia));
    rewrite (loopFrom_enter b index chunk attempt cur Hlt); unfold callFrom;
    destruct (afterCall b attempt (callAnalyze b index chunk attempt))
      as [|d|] eqn:Hnext.
  - exists 1%nat. one_call. right. apply afterCall_Break, Hnext.
  - apply afterCall_Sleep in Hnext as (_ & Hnotlast & _).
    unfold roundsLeft in Hleft. lia.
  - exists 1%nat. rewrite loopFrom_exit by (unfold roundsLeft in Hleft; lia).
    one_call. left. unfold roundsLeft in Hleft. lia.
  - exists 1%nat. one_call. right. apply afterCall_Break, Hnext.
  - apply afterCall_Sleep in Hnext as (Htransient & Hnotlast & ->).
    destruct (IH (attempt + 1) (callAnalyze b index chunk attempt))
      as (n & Hn & Htrace & Hlast & Hbefore & Hend).
    { unfold roundsLeft in *. lia. }
    exists (S n). simpl. rewrite Htrace, Hlast.
    destruct n as [|n]; [lia|].
    split; [lia|]. split; [reflexivity|].
    split; [f_equal; lia|]. split.
    + intros j Hj. destruct (Z.eq_dec j attempt) as [->|Hne];
        [exact Htransient | apply Hbefore; lia].
    + replace (attempt + Z.of_nat (S (S n)))
        with (attempt + 1 + Z.of_nat (S n)) by lia.
      replace (attempt + Z.of_nat (S (S n)) - 1)
        with (attempt + 1 + Z.of_nat (S n) - 1) by lia. exact Hend.
  - apply afterCall_FallThrough in Hnext as (_ & Hlastround).
    exists 1%nat. rewrite loopFrom_exit by lia. one_call. left. lia.
Qed.

End RunShape.

(** X6. At the end of every run with maxRetries >= 1, every worker has
    made n calls with 1 <= n <= maxRetries, in the rounds 0, 1, ..., n-1
    in this order, and has slept n-1 times, for retryDelay * (1 << k)
    after round k. The rounds before the last all hit the rate limit; the
    last call either did not or was call number maxRetries; and the
    stored result is the one built from the last call. *)
Theorem worker_run_shape (b : Batch.t) (sched : list Tid) (s : State)
    (i : nat) (w : Worker) (c : ChunkInfo.t) :
  1 <= Batch.maxRetries b ->
  exec b sched (init b) = Some s ->
  joined s = true ->
  workers s !! i = Some w ->
  Batch.chunks b !! i = Some c ->
  exists n,
    1 <= n <= Batch.maxRetries b
    /\ callsOf (hist w) = seqZ 0 n
    /\ sleepsOf (hist w) = map (waitTime b) (seqZ 0 (n - 1))
    /\ results s !! i
       = Some (chunkResult b i c (callAnalyze b i c (n - 1)))
    /\ (forall j, 0 <= j < n - 1 -> transientAt b i c j)
    /\ (n = Batch.maxRetries b \/ ~ transientAt b i c (n - 1)).
Proof.
  intros Hone Hexec Hjoined Hw Hc.
  pose proof (reachable_Inv b sched s Hexec) as HI.
  destruct (joined_history b s i w c HI Hjoined Hw Hc) as [_ Hhist].
  pose proof (joined_results b s i c HI Hjoined Hc) as Hres.
  destruct (loopFrom_shape b i c (Z.to_nat (Batch.maxRetries b) - 1) 0
              Analyzed.zero) as (n & Hn & Htrace & Hlast & Hbefore & Hend).
  { unfold roundsLeft. lia. }
  rewrite <- runRetry_loopFrom in Htrace, Hlast.
  exists (Z.of_nat n). rewrite Hhist, Htrace.
  split; [lia|].
  split; [apply callsOf_retryTrace|].
  split; [apply sleepsOf_retryTrace|].
  split; [rewrite Hres; unfold unitResult; rewrite Hlast; reflexivity|].
  split; [exact Hbefore | exact Hend].
Qed.

Lemma worker_run_shape_witness :
  exists s w n,
    exec Sample.mixedBatch Sample.mixedSchedule (init Sample.mixedBatch)
    = Some s
    /\ workers s !! 0%nat = Some w
    /\ 1 <= n <= 3
    /\ callsOf (hist w) = seqZ 0 n
    /\ sleepsOf (hist w) = map (waitTime Sample.mixedBatch) (seqZ 0 (n - 1)).
Proof.
  destruct (exec Sample.mixedBatch Sample.mixedSchedule
              (init Sample.mixedBatch)) as [s|] eqn:Hexec;
    [|vm_compute in Hexec; discriminate].
  assert (joined s = true) as Hjoined.
  { vm_compute in Hexec. injection Hexec as <-. reflexivity. }
  destruct (workers s !! 0%nat) as [w|] eqn:Hw;
    [|vm_compute in Hexec; injection Hexec as <-; discriminate].
  assert (1 <= Batch.maxRetries Sample.mixedBatch) as Hone
    by (vm_compute; discriminate).
  destruct (worker_run_shape Sample.mixedBatch Sample.mixedSchedule s 0 w
              (ChunkInfo.mk "chunk.pdf" 0 0) Hone Hexec Hjoined Hw eq_refl)
    as (n & Hn & Hcalls & Hsleeps & _).
  exists s, w, n. auto.
Defined.

(** The whole run of a worker enters [analyzeChunk] at most [maxRetries]
    times. *)
Lemma runRetry_calls_bound (b : Batch.t) (i : nat) (c : ChunkInfo.t) :
  (length (callsOf (snd (runRetry b i c)))
   <= Z.to_nat (Batch.maxRetries b))%nat.
Proof.
  rewrite runRetry_loopFrom.
  destruct (Z.to_nat (Batch.maxRetries b)) as [|m] eqn:Hrounds.
  - rewrite loopFrom_exit by lia. simpl. lia.
  - destruct (loopFrom_shape b i c m 0 Analyzed.zero)
      as (n & Hn & -> & _); [unfold roundsLeft; lia|].
    rewrite callsOf_retryTrace, length_seqZ. lia.
Qed.

Lemma sum_list_with_bound {A : Type} (f : A -> nat) (l : list A) (k : nat) :
  (forall x, x ∈ l -> (f x <= k)%nat) ->
  (sum_list_with f l <= length l * k)%nat.
Proof.
  induction l as [|x l IH]; intros Hall; simpl; [lia|].
  pose proof (Hall x (list_elem_of_here _ _)).
  assert (sum_list_with f l <= length l * k)%nat
    by (apply IH; intros y Hy; apply Hall, list_elem_of_further, Hy).
  lia.
Qed.

(** X7. In every state of every run no worker has entered
    [analyzeChunk] more than maxRetries times, so a batch of N units
    never makes more than N * maxRetries calls. *)
Theorem calls_within_budget (b : Batch.t) (sched : list Tid) (s : State) :
  exec b sched (init b) = Some s ->
  (forall i w,
     workers s !! i = Some w ->
     (length (callsOf (hist w)) <= Z.to_nat (Batch.maxRetries b))%nat)
  /\ (sum_list_with (fun w => length (callsOf (hist w))) (workers s)
      <= length (Batch.chunks b) * Z.to_nat (Batch.maxRetries b))%nat.
Proof.
  intros Hexec. pose proof (reachable_Inv b sched s Hexec) as HI.
  assert (forall i w,
            workers s !! i = Some w ->
            (length (callsOf (hist w)) <= Z.to_nat (Batch.maxRetries b))%nat)
    as Heach.
  { intros i w Hw. destruct (lookup_chunk b s i w HI Hw) as [c Hc].
    destruct (history_prefix b s i w c HI Hw Hc) as [rest Hrest].
    pose proof (runRetry_calls_bound b i c) as Hbound.
    rewrite Hrest in Hbound. unfold callsOf in Hbound.
    rewrite omap_app, length_app in Hbound. unfold callsOf. lia. }
  split; [exact Heach|].
  rewrite <- (inv_workers b s HI). apply sum_list_with_bound.
  intros w Hin. apply list_elem_of_lookup in Hin as [i Hw].
  apply (Heach i w Hw).
Qed.

Lemma calls_within_budget_witness :
  exists s,
    exec Sample.mixedBatch (take 40 Sample.mixedSchedule)
      (init Sample.mixedBatch) = Some s
    /\ (sum_list_with (fun w => length (callsOf (hist w))) (workers s)
        <= 4 * 3)%nat.
Proof.
  destruct (exec Sample.mixedBatch (take 40 Sample.mixedSchedule)
              (init Sample.mixedBatch)) as [s|] eqn:Hexec;
    [|vm_compute in Hexec; discriminate].
  exists s. split; [reflexivity|].
  apply (calls_within_budget Sample.mixedBatch
           (take 40 Sample.mixedSchedule) s Hexec).
Defined.

(** X8. With maxRetries <= 0 the loop body never runs: at the end of
    every run no worker has called [analyzeChunk], and every unit is
    stored with an empty analysis, zero tokens and no error. *)
Theorem no_rounds_no_calls (b : Batch.t) (sched : list Tid) (s : State)
    (i : nat) (w : Worker) (c : ChunkInfo.t) :
  Batch.maxRetries b <= 0 ->
  exec b sched (init b) = Some s ->
  joined s = true ->
  workers s !! i = Some w ->
  Batch.chunks b !! i = Some c ->
  hist w = []
  /\ exists r,
       results s !! i = Some r
       /\ ChunkAnalysis.Error r = ""
       /\ ChunkAnalysis.Analysis r = ""
       /\ ChunkAnalysis.InputTokens r = 0
       /\ ChunkAnalysis.OutputTokens r = 0.
Proof.
  intros Hnone Hexec Hjoined Hw Hc.
  pose proof (reachable_Inv b sched s Hexec) as HI.
  destruct (joined_history b s i w c HI Hjoined Hw Hc) as [_ Hhist].
  assert (runRetry b i c = (Analyzed.zero, [])) as Hwhole
    by (rewrite runRetry_loopFrom; apply loopFrom_exit; lia).
  split; [rewrite Hhist, Hwhole; reflexivity|].
  exists (unitResult b i c).
  split; [apply (joined_results b s i c HI Hjoined Hc)|].
  unfold unitResult. rewrite Hwhole. simpl. auto.
Qed.

Lemma no_rounds_no_calls_witness :
  exists s w,
    exec
      (Batch.mk ModelPricing Sample.config (Sample.pages 1) 4 0 retryDelay
         Sample.mixedWorld Sample.noClock Sample.noClock Sample.noString)
      [TMain; TMain; TWorker 0; TWorker 0; TWorker 0; TWorker 0; TWorker 0;
       TWorker 0; TWorker 0; TMain]
      (init (Batch.mk ModelPricing Sample.config (Sample.pages 1) 4 0
               retryDelay Sample.mixedWorld Sample.noClock Sample.noClock
               Sample.noString)) = Some s
    /\ workers s !! 0%nat = Some w
    /\ hist w = [].
Proof.
  match goal with
  | |- exists s w, exec ?b ?sched ?s0 = Some s /\ _ =>
      destruct (exec b sched s0) as [s|] eqn:Hexec;
        [|vm_compute in Hexec; discriminate];
      assert (joined s = true) as Hjoined
        by (vm_compute in Hexec; injection Hexec as <-; reflexivity);
      destruct (workers s !! 0%nat) as [w|] eqn:Hw;
        [|vm_compute in Hexec; injection Hexec as <-; discriminate];
      destruct (no_rounds_no_calls b sched s 0 w
                  (ChunkInfo.mk "chunk.pdf" 0 0)) as [Hhist _];
        [vm_compute; discriminate | exact Hexec | exact Hjoined | exact Hw
        | reflexivity |]
  end.
  exists s, w. auto.
Defined.

(** * Failures of a call and how they are classified *)

Lemma prefix_app (sub s rest : string) :
  String.prefix sub s = true -> String.prefix sub (s +:+ rest) = true.
Proof.
  revert s. induction sub as [|a sub IH]; intros s Hpre;
    [destruct (s +:+ rest); reflexivity|].
  destruct s as [|a' s]; simpl in *; [discriminate|].
  destruct (Ascii.ascii_dec a a'); [apply IH, Hpre | discriminate].
Qed.

Lemma strings_Contains_app_l (s rest sub : string) :
  strings_Contains s sub = true -> strings_Contains (s +:+ rest) sub = true.
Proof.
  induction s as [|a s IH]; simpl; intros Hin.
  - rewrite orb_false_r in Hin. destruct sub; [|discriminate].
    destruct rest; reflexivity.
  - apply orb_true_iff in Hin as [Hpre|Hin].
    + apply (prefix_app sub (String a s) rest) in Hpre. simpl in Hpre.
      rewrite Hpre. reflexivity.
    + rewrite (IH Hin). apply orb_true_r.
Qed.

Lemma strings_Contains_app_r (pre s sub : string) :
  strings_Contains s sub = true -> strings_Contains (pre +:+ s) sub = true.
Proof.
  intros Hin. induction pre as [|a pre IH]; simpl; [exact Hin|].
  rewrite IH. apply orb_true_r.
Qed.

Lemma isRateLimit_app_r (pre msg : string) :
  isRateLimit msg = true -> isRateLimit (pre +:+ msg) = true.
Proof.
  unfold isRateLimit. intros Hrate.
  apply orb_true_iff in Hrate as [Hin|Hin];
    rewrite (strings_Contains_app_r pre msg _ Hin);
    [reflexivity | apply orb_true_r].
Qed.

Lemma isRateLimit_app_l (msg rest : string) :
  isRateLimit msg = true -> isRateLimit (msg +:+ rest) = true.
Proof.
  unfold isRateLimit. intros Hrate.
  apply orb_true_iff in Hrate as [Hin|Hin];
    rewrite (strings_Contains_app_l msg rest _ Hin);
    [reflexivity | apply orb_true_r].
Qed.

(** The request has been answered: the file was read, the request built
    and sent, and the body of the answer read. *)
Definition answered (w : CallEnv.t) (chunkPath : string) (status : Z)
    (body : string) : Prop :=
  exists pdfBytes jsonData resp,
    CallEnv.os_ReadFile w chunkPath = Ok pdfBytes
    /\ CallEnv.json_Marshal w = Ok jsonData
    /\ CallEnv.http_NewRequest w = Ok tt
    /\ CallEnv.client_Do w = Ok resp
    /\ HttpResponse.StatusCode resp = status
    /\ HttpResponse.ReadAll resp = Ok body.

Lemma analyzeChunk_refused (w : CallEnv.t)
    (apiKey modelName chunkPath : string) (pageNumber status : Z)
    (body : string) :
  answered w chunkPath status body ->
  status <> 200 ->
  analyzeChunk w apiKey modelName chunkPath pageNumber
  = Analyzed.mk "" 0 0
      (Some ("API error (status " +:+ GoInt.to_string status +:+ "): "
             +:+ body)).
Proof.
  intros (pdfBytes & jsonData & resp & Hread & Hjson & Hreq & Hdo & Hstatus
          & Hbody) Hnot.
  unfold analyzeChunk. rewrite Hread, Hjson, Hreq, Hdo, Hbody, Hstatus.
  destruct (Z.eqb_spec status 200); [contradiction | reflexivity].
Qed.

Lemma refused_429_is_rate_limit (w : CallEnv.t)
    (apiKey modelName chunkPath : string) (pageNumber : Z) (body : string) :
  answered w chunkPath 429 body ->
  Analyzed.err (analyzeChunk w apiKey modelName chunkPath pageNumber)
  = Some ("API error (status 429): " +:+ body)
  /\ isRateLimit ("API error (status 429): " +:+ body) = true.
Proof.
  intros Hanswered.
  rewrite (analyzeChunk_refused w apiKey modelName chunkPath pageNumber 429
             body Hanswered) by lia.
  split; [reflexivity|].
  apply (isRateLimit_app_r "API error (status " ("429): " +:+ body)).
  apply (isRateLimit_app_l "429" ("): " +:+ body)). reflexivity.
Qed.

(** X9. The classification looks at the text of the error only. An
    answer with HTTP status 429, and any answer with a status other than
    200 whose body mentions [rate_limit] or [429], makes [analyzeChunk]
    fail with an error that the dispatcher takes for a rate limit; so
    does a failure to read the chunk file whose message mentions one of
    the two markers. *)
Theorem marked_failures_are_rate_limits (w : CallEnv.t)
    (apiKey modelName chunkPath : string) (pageNumber : Z) :
  (forall status body,
     answered w chunkPath status body ->
     status = 429 \/ status <> 200 /\ isRateLimit body = true ->
     exists msg,
       Analyzed.err (analyzeChunk w apiKey modelName chunkPath pageNumber)
       = Some msg
       /\ isRateLimit msg = true)
  /\ (forall e,
        CallEnv.os_ReadFile w chunkPath = Failed e ->
        isRateLimit e = true ->
        exists msg,
          Analyzed.err (analyzeChunk w apiKey modelName chunkPath pageNumber)
          = Some msg
          /\ isRateLimit msg = true).
Proof.
  split.
  - intros status body Hanswered Hmarked.
    assert (status <> 200) as Hnot by (destruct Hmarked as [->|[? _]]; lia).
    rewrite (analyzeChunk_refused w apiKey modelName chunkPath pageNumber
               status body Hanswered Hnot).
    eexists. split; [reflexivity|].
    apply isRateLimit_app_r.
    destruct Hmarked as [->|[_ Hbody]].
    + apply isRateLimit_app_l. reflexivity.
    + apply isRateLimit_app_r, isRateLimit_app_r, Hbody.
  - intros e Hread Hmarked. unfold analyzeChunk. rewrite Hread. simpl.
    eexists. split; [reflexivity|].
    apply (isRateLimit_app_r "error reading PDF chunk: " e Hmarked).
Qed.

Lemma marked_failures_are_rate_limits_witness :
  exists msg,
    Analyzed.err
      (analyzeChunk (Sample.refuse 429 "slow down") "key" haiku "chunk.pdf" 1)
    = Some msg
    /\ isRateLimit msg = true.
Proof.
  destruct (marked_failures_are_rate_limits (Sample.refuse 429 "slow down")
              "key" haiku "chunk.pdf" 1) as [Hstatus _].
  apply (Hstatus 429 "slow down"); [|left; reflexivity].
  exists "%PDF", "{}", (HttpResponse.mk 429 (Ok "slow down")).
  repeat split; reflexivity.
Defined.

(** A failed call returns a non-empty message and nothing else. *)
Lemma analyzeChunk_failed (w : CallEnv.t)
    (apiKey modelName chunkPath : string) (pageNumber : Z) (msg : string) :
  Analyzed.err (analyzeChunk w apiKey modelName chunkPath pageNumber)
  = Some msg ->
  msg <> ""
  /\ analyzeChunk w apiKey modelName chunkPath pageNumber
     = Analyzed.mk "" 0 0 (Some msg).
Proof.
  unfold analyzeChunk.
  destruct (CallEnv.os_ReadFile w chunkPath);
    [|simpl; intros [= <-]; split; [discriminate | reflexivity]].
  destruct (CallEnv.json_Marshal w);
    [|simpl; intros [= <-]; split; [discriminate | reflexivity]].
  destruct (CallEnv.http_NewRequest w);
    [|simpl; intros [= <-]; split; [discriminate | reflexivity]].
  destruct (CallEnv.client_Do w) as [resp|];
    [|simpl; intros [= <-]; split; [discriminate | reflexivity]].
  destruct (HttpResponse.ReadAll resp) as [body|];
    [|simpl; intros [= <-]; split; [discriminate | reflexivity]].
  destruct (negb _);
    [simpl; intros [= <-]; split; [discriminate | reflexivity]|].
  destruct (CallEnv.json_Unmarshal w body);
    [discriminate | simpl; intros [= <-]; split; [discriminate | reflexivity]].
Qed.

(** The final value of the four result variables is the initial one or
    the result of a call. *)
Lemma runRetry_final (b : Batch.t) (i : nat) (c : ChunkInfo.t) :
  fst (runRetry b i c) = Analyzed.zero
  \/ exists attempt, fst (runRetry b i c) = callAnalyze b i c attempt.
Proof.
  rewrite runRetry_loopFrom.
  destruct (Z.to_nat (Batch.maxRetries b)) as [|m] eqn:Hrounds.
  - left. rewrite loopFrom_exit by lia. reflexivity.
  - right. destruct (loopFrom_shape b i c m 0 Analyzed.zero)
      as (n & _ & _ & Hlast & _); [unfold roundsLeft; lia|]. eauto.
Qed.

Lemma unitResult_error (b : Batch.t) (i : nat) (c : ChunkInfo.t) :
  match Analyzed.err (fst (runRetry b i c)) with
  | None => ChunkAnalysis.Error (unitResult b i c) = ""
  | Some msg =>
      msg <> ""
      /\ ChunkAnalysis.Error (unitResult b i c) = msg
      /\ ChunkAnalysis.Analysis (unitResult b i c) = ""
      /\ ChunkAnalysis.InputTokens (unitResult b i c) = 0
      /\ ChunkAnalysis.OutputTokens (unitResult b i c) = 0
  end.
Proof.
  unfold unitResult, chunkResult.
  destruct (runRetry_final b i c) as [->|[attempt ->]]; [reflexivity|].
  destruct (Analyzed.err (callAnalyze b i c attempt)) as [msg|] eqn:Herr;
    [|reflexivity].
  unfold callAnalyze in *.
  destruct (analyzeChunk_failed _ _ _ _ _ msg Herr) as [Hmsg ->].
  simpl. auto.
Qed.

(** X10. In the results of every complete run, the [Error] of a unit is
    empty exactly when the last state of its result variables carries no
    error; when it is not empty, it is the message of that error, the
    analysis is empty and both token counts are 0. *)
Theorem error_field_tells_failure (b : Batch.t) (sched : list Tid)
    (rs : list ChunkAnalysis.t) (i : nat) (c : ChunkInfo.t) :
  dispatch b sched = Some rs ->
  Batch.chunks b !! i = Some c ->
  exists r,
    rs !! i = Some r
    /\ (ChunkAnalysis.Error r = ""
        <-> Analyzed.err (fst (runRetry b i c)) = None)
    /\ (ChunkAnalysis.Error r <> "" ->
        Analyzed.err (fst (runRetry b i c)) = Some (ChunkAnalysis.Error r)
        /\ ChunkAnalysis.Analysis r = ""
        /\ ChunkAnalysis.InputTokens r = 0
        /\ ChunkAnalysis.OutputTokens r = 0).
Proof.
  intros Hrun Hc. exists (unitResult b i c).
  split; [apply (dispatch_lookup b sched rs i c Hrun Hc)|].
  pose proof (unitResult_error b i c) as Herror.
  destruct (Analyzed.err (fst (runRetry b i c))) as [msg|].
  - destruct Herror as (Hmsg & -> & Hrest). split.
    + split; [contradiction | discriminate].
    + intros _. split; [reflexivity | exact Hrest].
  - rewrite Herror. split; [tauto | congruence].
Qed.

Lemma error_field_tells_failure_witness :
  exists rs r,
    dispatch Sample.mixedBatch Sample.mixedSchedule = Some rs
    /\ rs !! 1%nat = Some r
    /\ ChunkAnalysis.Analysis r = ""
    /\ ChunkAnalysis.InputTokens r = 0
    /\ ChunkAnalysis.OutputTokens r = 0.
Proof.
  destruct (dispatch Sample.mixedBatch Sample.mixedSchedule) as [rs|] eqn:Hrun;
    [|vm_compute in Hrun; discriminate].
  destruct (error_field_tells_failure Sample.mixedBatch Sample.mixedSchedule
              rs 1 (ChunkInfo.mk "chunk.pdf" 1 1) Hrun eq_refl)
    as (r & Hr & _ & Hfailed).
  exists rs, r. split; [reflexivity|]. split; [exact Hr|].
  apply Hfailed.
  vm_compute in Hrun. injection Hrun as <-.
  vm_compute in Hr. injection Hr as <-. discriminate.
Defined.

(** Every price of [ModelPricing], the fallback included. *)
Lemma GetPricing_entries (modelName : string) :
  GetPricing modelName = AnthropicPricing.mk 0.25 1.25
  \/ GetPricing modelName = AnthropicPricing.mk 3.00 15.00
  \/ GetPricing modelName = AnthropicPricing.mk 15.00 75.00.
Proof.
  unfold GetPricing, GetPricingIn.
  destruct (ModelPricing !! modelName) as [pricing|] eqn:Hentry.
  - unfold ModelPricing in Hentry.
    repeat (apply lookup_insert_Some in Hentry as [[_ <-]|[_ Hentry]]; auto).
    rewrite lookup_empty in Hentry. discriminate.
  - left. reflexivity.
Qed.

(** X11. Under the price table of the package, whatever the model name,
    a unit stored with an error costs nothing: its input cost, output
    cost and total cost are 0. *)
Theorem failed_units_cost_nothing (b : Batch.t) (sched : list Tid)
    (rs : list ChunkAnalysis.t) (i : nat) (r : ChunkAnalysis.t) :
  Batch.table b = ModelPricing ->
  dispatch b sched = Some rs ->
  rs !! i = Some r ->
  ChunkAnalysis.Error r <> "" ->
  ChunkAnalysis.InputCost r = 0%float
  /\ ChunkAnalysis.OutputCost r = 0%float
  /\ ChunkAnalysis.TotalCost r = 0%float.
Proof.
  intros Htable Hrun Hr Hfailed.
  destruct (lookup_lt_is_Some_2 (Batch.chunks b) i) as [c Hc].
  { rewrite <- (dispatch_length b sched rs Hrun).
    apply (lookup_lt_Some _ _ _ Hr). }
  rewrite (dispatch_lookup b sched rs i c Hrun Hc) in Hr. injection Hr as <-.
  pose proof (unitResult_error b i c) as Herror.
  destruct (Analyzed.err (fst (runRetry b i c))) as [msg|] eqn:Herr;
    [|contradiction].
  destruct (runRetry_final b i c) as [Hzero|[attempt Hcall]];
    [rewrite Hzero in Herr; discriminate|].
  rewrite Hcall in Herr. unfold callAnalyze in Herr, Hcall.
  destruct (analyzeChunk_failed _ _ _ _ _ msg Herr) as [_ Hvalue].
  rewrite Hvalue in Hcall.
  unfold unitResult, chunkResult. rewrite Hcall, Htable. simpl.
  fold (GetPricing (Config.ModelName (Batch.config b))).
  destruct (GetPricing_entries (Config.ModelName (Batch.config b)))
    as [->|[->| ->]]; repeat split; reflexivity.
Qed.

Lemma failed_units_cost_nothing_witness :
  exists rs r,
    dispatch Sample.mixedBatch Sample.mixedSchedule = Some rs
    /\ rs !! 2%nat = Some r
    /\ ChunkAnalysis.TotalCost r = 0%float.
Proof.
  destruct (dispatch Sample.mixedBatch Sample.mixedSchedule) as [rs|] eqn:Hrun;
    [|vm_compute in Hrun; discriminate].
  destruct (rs !! 2%nat) as [r|] eqn:Hr;
    [|vm_compute in Hrun; injection Hrun as <-; discriminate].
  exists rs, r. split; [reflexivity|]. split; [exact Hr|].
  apply (failed_units_cost_nothing Sample.mixedBatch Sample.mixedSchedule rs 2
           r eq_refl Hrun Hr).
  vm_compute in Hrun. injection Hrun as <-.
  vm_compute in Hr. injection Hr as <-. discriminate.
Defined.

(** X12. A unit whose every request is answered with HTTP status 429 is
    called in all maxRetries rounds, sleeps between any two of them, and
    is stored with the error text of the last answer. *)
Theorem throttled_unit_uses_every_round (b : Batch.t) (sched : list Tid)
    (s : State) (i : nat) (w : Worker) (c : ChunkInfo.t) :
  1 <= Batch.maxRetries b ->
  (forall attempt,
     0 <= attempt < Batch.maxRetries b ->
     exists body,
       answered (Batch.world b i attempt) (ChunkInfo.Path c) 429 body) ->
  exec b sched (init b) = Some s ->
  joined s = true ->
  workers s !! i = Some w ->
  Batch.chunks b !! i = Some c ->
  callsOf (hist w) = seqZ 0 (Batch.maxRetries b)
  /\ sleepsOf (hist w) = map (waitTime b) (seqZ 0 (Batch.maxRetries b - 1))
  /\ exists body r,
       answered (Batch.world b i (Batch.maxRetries b - 1)) (ChunkInfo.Path c)
         429 body
       /\ results s !! i = Some r
       /\ ChunkAnalysis.Error r = "API error (status 429): " +:+ body.
Proof.
  intros Hone Hthrottled Hexec Hjoined Hw Hc.
  pose proof (reachable_Inv b sched s Hexec) as HI.
  destruct (joined_history b s i w c HI Hjoined Hw Hc) as [_ Hhist].
  assert (forall attempt,
            0 <= attempt < Batch.maxRetries b -> transientAt b i c attempt)
    as Htransient.
  { intros attempt Hattempt.
    destruct (Hthrottled attempt Hattempt) as [body Hanswered].
    exists ("API error (status 429): " +:+ body).
    apply refused_429_is_rate_limit, Hanswered. }
  destruct (loopFrom_shape b i c (Z.to_nat (Batch.maxRetries b) - 1) 0
              Analyzed.zero) as (n & Hn & Htrace & Hlast & _ & Hend).
  { unfold roundsLeft. lia. }
  assert (Z.of_nat n = Batch.maxRetries b) as Hall.
  { destruct Hend as [Hend|Hend]; [lia|].
    contradiction Hend. apply Htransient. lia. }
  rewrite <- runRetry_loopFrom in Htrace, Hlast.
  rewrite Hhist, Htrace, callsOf_retryTrace, sleepsOf_retryTrace, Hall.
  split; [reflexivity|]. split; [reflexivity|].
  destruct (Hthrottled (Batch.maxRetries b - 1)) as [body Hanswered]; [lia|].
  exists body, (unitResult b i c). split; [exact Hanswered|].
  split; [apply (joined_results b s i c HI Hjoined Hc)|].
  apply (unitResult_failure b i c (callAnalyze b i c (Batch.maxRetries b - 1))).
  - rewrite Hlast. f_equal. lia.
  - apply refused_429_is_rate_limit, Hanswered.
Qed.

Lemma throttled_unit_uses_every_round_witness :
  exists s w,
    exec Sample.mixedBatch Sample.mixedSchedule (init Sample.mixedBatch)
    = Some s
    /\ workers s !! 2%nat = Some w
    /\ callsOf (hist w) = [0; 1; 2]
    /\ sleepsOf (hist w) = [2 * Second; 4 * Second].
Proof.
  destruct (exec Sample.mixedBatch Sample.mixedSchedule
              (init Sample.mixedBatch)) as [s|] eqn:Hexec;
    [|vm_compute in Hexec; discriminate].
  assert (joined s = true) as Hjoined.
  { vm_compute in Hexec. injection Hexec as <-. reflexivity. }
  destruct (workers s !! 2%nat) as [w|] eqn:Hw;
    [|vm_compute in Hexec; injection Hexec as <-; discriminate].
  destruct (throttled_unit_uses_every_round Sample.mixedBatch
              Sample.mixedSchedule s 2 w (ChunkInfo.mk "chunk.pdf" 2 2))
    as (Hcalls & Hsleeps & _); try assumption; try reflexivity.
  { vm_compute. discriminate. }
  { intros attempt _. exists "rate_limit_error".
    exists "%PDF", "{}", (HttpResponse.mk 429 (Ok "rate_limit_error")).
    repeat split; reflexivity. }
  exists s, w. split; [reflexivity|]. split; [exact Hw|].
  split; [exact Hcalls | exact Hsleeps].
Defined.

(** * Splitting the document *)

Lemma add_small (a c : Z) :
  GoInt.in_range (a + c) -> GoInt.add a c = a + c.
Proof. apply wrap_small. Qed.

(** The inner loop collects the decimal numbers of the pages [p] to
    [endPage]. *)
Lemma pageSelectionLoop_pages (endPage : Z) (fuel : nat) :
  endPage < 2 ^ 63 - 1 ->
  forall p pageSelection,
    - 2 ^ 63 <= p <= endPage + 1 ->
    (Z.to_nat (endPage + 1 - p) <= fuel)%nat ->
    pageSelectionLoop fuel p endPage pageSelection
    = Some (pageSelection
            ++ map GoInt.to_string (seqZ p (endPage + 1 - p))).
Proof.
  intros Hend.
  induction fuel as [|fuel IH]; intros p pageSelection Hp Hfuel; simpl.
  - destruct (Z.leb_spec p endPage); [lia|].
    replace (endPage + 1 - p) with 0 by lia. simpl.
    rewrite app_nil_r. reflexivity.
  - destruct (Z.leb_spec p endPage) as [Hle|Hgt].
    + rewrite add_small by (unfold GoInt.in_range; lia).
      rewrite IH by lia.
      rewrite (seqZ_cons p) by lia. simpl. rewrite <- app_assoc. simpl.
      replace (Z.succ p) with (p + 1) by lia.
      replace (Z.pred (endPage + 1 - p)) with (endPage + 1 - (p + 1)) by lia.
      reflexivity.
    + replace (endPage + 1 - p) with 0 by lia. simpl.
      rewrite app_nil_r. reflexivity.
Qed.

(** The chunk that starts at page [startPage], as one round of the outer
    loop builds it when nothing wraps around. *)
Definition chunkAt (env : PdfEnv.t) (tempDir : string)
    (chunkSize totalPages startPage : Z) : ChunkInfo.t :=
  let endPage := Z.min (startPage + chunkSize) totalPages in
  let pageSelection :=
    map GoInt.to_string (seqZ (startPage + 1) (endPage - startPage)) in
  let chunkName := "chunk_" +:+ GoInt.to_string (startPage + 1) in
  let expected :=
    PdfEnv.filepath_Join env tempDir
      (chunkName +:+ "_page_" +:+ strings_Join pageSelection "_" +:+ ".pdf") in
  ChunkInfo.mk
    (if PdfEnv.os_Stat_IsNotExist env startPage expected
     then findChunkFile env tempDir chunkName (PdfEnv.os_ReadDir env startPage)
            expected
     else expected)
    startPage
    (endPage - 1).

(** The first pages of the chunks [0 .. n-1] counted from [startPage]. *)
Definition startsFrom (chunkSize startPage : Z) (n : nat) : list Z :=
  map (fun k => startPage + Z.of_nat k * chunkSize) (seq 0 n).

Lemma startsFrom_S (chunkSize startPage : Z) (n : nat) :
  startsFrom chunkSize startPage (S n)
  = startPage :: startsFrom chunkSize (startPage + chunkSize) n.
Proof.
  unfold startsFrom. simpl. f_equal; [lia|].
  rewrite <- seq_shift, map_map. apply map_ext. intros k. lia.
Qed.

Section SplitLoop.

Variable env : PdfEnv.t.
Variables pdfPath tempDir : string.
Variables chunkSize totalPages : Z.

Hypothesis chunkSize_pos : 1 <= chunkSize.
Hypothesis no_overflow : totalPages + chunkSize < 2 ^ 63.

(** Opening and extraction succeed for the chunk that starts at
    [startPage]. *)
Definition extracts (startPage : Z) : Prop :=
  (exists file, PdfEnv.os_Open env startPage = Ok file)
  /\ forall pageSelection,
       PdfEnv.api_ExtractPages env startPage pageSelection = None.

(** One successful round of the outer loop. *)
Lemma splitLoop_round (fuel : nat) (startPage : Z) (chunks : list ChunkInfo.t) :
  0 <= startPage < totalPages ->
  extracts startPage ->
  splitLoop env (S fuel) pdfPath tempDir chunkSize totalPages startPage chunks
  = splitLoop env fuel pdfPath tempDir chunkSize totalPages
      (startPage + chunkSize)
      (chunks ++ [chunkAt env tempDir chunkSize totalPages startPage]).
Proof.
  intros Hstart [[file Hopen] Hextract]. simpl.
  destruct (Z.ltb_spec startPage totalPages); [simpl | lia].
  rewrite (add_small startPage chunkSize) by (unfold GoInt.in_range; lia).
  rewrite (add_small startPage 1) by (unfold GoInt.in_range; lia).
  assert ((if startPage + chunkSize >? totalPages
           then totalPages else startPage + chunkSize)
          = Z.min (startPage + chunkSize) totalPages) as ->.
  { destruct (Z.gtb_spec (startPage + chunkSize) totalPages); lia. }
  rewrite Hopen.
  rewrite pageSelectionLoop_pages by lia. simpl.
  replace (Z.min (startPage + chunkSize) totalPages + 1 - (startPage + 1))
    with (Z.min (startPage + chunkSize) totalPages - startPage) by lia.
  rewrite Hextract.
  unfold GoInt.sub. rewrite wrap_small by (unfold GoInt.in_range; lia).
  reflexivity.
Qed.

(** [n] successful rounds in a row. *)
Lemma splitLoop_advance (n : nat) :
  forall fuel startPage chunks,
    0 <= startPage ->
    (forall k, (k < n)%nat ->
               startPage + Z.of_nat k * chunkSize < totalPages
               /\ extracts (startPage + Z.of_nat k * chunkSize)) ->
    splitLoop env (n + fuel) pdfPath tempDir chunkSize totalPages startPage
      chunks
    = splitLoop env fuel pdfPath tempDir chunkSize totalPages
        (startPage + Z.of_nat n * chunkSize)
        (chunks ++ map (chunkAt env tempDir chunkSize totalPages)
                     (startsFrom chunkSize startPage n)).
Proof.
  induction n as [|n IH]; intros fuel startPage chunks Hstart Hrounds.
  - simpl. rewrite app_nil_r, Z.add_0_r. reflexivity.
  - destruct (Hrounds 0%nat) as [Hlt Hok]; [lia|].
    rewrite Z.mul_0_l, Z.add_0_r in Hlt, Hok.
    change (S n + fuel)%nat with (S (n + fuel)).
    rewrite splitLoop_round by (auto; lia).
    rewrite IH.
    + rewrite startsFrom_S, <- app_assoc. simpl. f_equal. lia.
    + lia.
    + intros k Hk. destruct (Hrounds (S k)) as [Hlt' Hok']; [lia|].
      replace (startPage + chunkSize + Z.of_nat k * chunkSize)
        with (startPage + Z.of_nat (S k) * chunkSize) by lia.
      auto.
Qed.

Lemma splitLoop_done (fuel : nat) (startPage : Z) (chunks : list ChunkInfo.t) :
  totalPages <= startPage ->
  splitLoop env fuel pdfPath tempDir chunkSize totalPages startPage chunks
  = Some (Ok chunks).
Proof.
  intros Hdone.
  destruct fuel; simpl; destruct (Z.ltb_spec startPage totalPages);
    try lia; reflexivity.
Qed.

End SplitLoop.

(** The number of chunks of a document: [totalPages / chunkSize], rounded
    up. *)
Definition chunkCount (chunkSize totalPages : Z) : Z :=
  (totalPages + chunkSize - 1) / chunkSize.

Lemma chunkCount_bounds (chunkSize totalPages : Z) :
  1 <= chunkSize -> 0 <= totalPages ->
  0 <= chunkCount chunkSize totalPages
  /\ totalPages <= chunkCount chunkSize totalPages * chunkSize
  /\ (chunkCount chunkSize totalPages - 1) * chunkSize < totalPages.
Proof.
  intros Hsize Hpages. unfold chunkCount.
  pose proof (Z.div_mod (totalPages + chunkSize - 1) chunkSize).
  pose proof (Z.mod_pos_bound (totalPages + chunkSize - 1) chunkSize).
  assert (0 <= (totalPages + chunkSize - 1) / chunkSize)
    by (apply Z.div_pos; lia).
  nia.
Qed.

Lemma lookup_startsFrom (chunkSize startPage : Z) (n k : nat) (start : Z) :
  startsFrom chunkSize startPage n !! k = Some start ->
  (k < n)%nat /\ start = startPage + Z.of_nat k * chunkSize.
Proof.
  unfold startsFrom. rewrite list_lookup_fmap. intros Hk.
  destruct (seq 0 n !! k) as [j|] eqn:Hj; [|discriminate].
  apply lookup_seq in Hj as [-> Hlt]. injection Hk as <-. auto.
Qed.

(** The result of a splitting in which every chunk can be opened and
    extracted. *)
Lemma split_all_chunks (env : PdfEnv.t) (pdfPath tempDir : string)
    (chunkSize totalPages : Z) (fuel : nat) :
  1 <= chunkSize ->
  0 <= totalPages ->
  totalPages + chunkSize < 2 ^ 63 ->
  (forall k : nat,
     Z.of_nat k * chunkSize < totalPages ->
     extracts env (Z.of_nat k * chunkSize)) ->
  (Z.to_nat (chunkCount chunkSize totalPages) <= fuel)%nat ->
  splitPDFIntoChunks env fuel pdfPath tempDir chunkSize totalPages
  = Some (Ok (map (chunkAt env tempDir chunkSize totalPages)
                (startsFrom chunkSize 0
                   (Z.to_nat (chunkCount chunkSize totalPages))))).
Proof.
  intros Hsize Hpages Hfits Hok Hfuel.
  destruct (chunkCount_bounds chunkSize totalPages Hsize Hpages)
    as (Hcount & Hcover & Hlast).
  set (n := Z.to_nat (chunkCount chunkSize totalPages)) in *.
  unfold splitPDFIntoChunks.
  replace fuel with (n + (fuel - n))%nat by lia.
  rewrite (splitLoop_advance env pdfPath tempDir chunkSize totalPages
             Hsize Hfits n); [apply splitLoop_done; lia | lia |].
  intros k Hk. simpl.
  assert (Z.of_nat k * chunkSize < totalPages) as Hlt by nia.
  split; [lia | apply Hok, Hlt].
Qed.

(** X13. When every chunk can be opened and extracted, a chunk size of
    at least 1 and a page count of at least 0 whose sum fits an int give
    [ceil(totalPages / chunkSize)] chunks, in page order: chunk k starts
    at page [k * chunkSize] and ends at page
    [min((k+1) * chunkSize, totalPages) - 1] (zero-based), so that the
    chunks cover the pages [0 .. totalPages - 1] without gap or
    overlap. *)
Theorem split_partitions_the_pages (env : PdfEnv.t)
    (pdfPath tempDir : string) (chunkSize totalPages : Z) (fuel : nat) :
  1 <= chunkSize ->
  0 <= totalPages ->
  totalPages + chunkSize < 2 ^ 63 ->
  (forall k : nat,
     Z.of_nat k * chunkSize < totalPages ->
     extracts env (Z.of_nat k * chunkSize)) ->
  (Z.to_nat (chunkCount chunkSize totalPages) <= fuel)%nat ->
  exists chunks,
    splitPDFIntoChunks env fuel pdfPath tempDir chunkSize totalPages
    = Some (Ok chunks)
    /\ Z.of_nat (length chunks) = chunkCount chunkSize totalPages
    /\ forall (k : nat) chunk,
         chunks !! k = Some chunk ->
         ChunkInfo.StartPage chunk = Z.of_nat k * chunkSize
         /\ ChunkInfo.EndPage chunk
            = Z.min ((Z.of_nat k + 1) * chunkSize) totalPages - 1
         /\ ChunkInfo.StartPage chunk <= ChunkInfo.EndPage chunk
            < totalPages.
Proof.
  intros Hsize Hpages Hfits Hok Hfuel.
  destruct (chunkCount_bounds chunkSize totalPages Hsize Hpages)
    as (Hcount & Hcover & Hlast).
  set (n := Z.to_nat (chunkCount chunkSize totalPages)) in *.
  exists (map (chunkAt env tempDir chunkSize totalPages)
            (startsFrom chunkSize 0 n)).
  split; [|split].
  - apply split_all_chunks; assumption.
  - unfold startsFrom. rewrite !length_map, length_seq. lia.
  - intros k chunk Hk. rewrite list_lookup_fmap in Hk.
    destruct (startsFrom chunkSize 0 n !! k) as [start|] eqn:Hstart;
      [|discriminate].
    apply lookup_startsFrom in Hstart as [Hlt ->]. injection Hk as <-.
    simpl. assert (Z.of_nat k * chunkSize < totalPages) by nia.
    replace (0 + Z.of_nat k * chunkSize + chunkSize)
      with ((Z.of_nat k + 1) * chunkSize) by lia.
    repeat split; lia.
Qed.

Lemma split_partitions_the_pages_witness :
  exists chunks,
    splitPDFIntoChunks Sample.emptyPdf 3 "doc.pdf" "/tmp" 5 12 = Some (Ok chunks)
    /\ map (fun c => (ChunkInfo.StartPage c, ChunkInfo.EndPage c)) chunks
       = [(0, 4); (5, 9); (10, 11)].
Proof.
  destruct (split_partitions_the_pages Sample.emptyPdf "doc.pdf" "/tmp" 5 12 3)
    as (chunks & Hsplit & _); try lia.
  { intros k _. split; [exists tt; reflexivity | reflexivity]. }
  { vm_compute. lia. }
  exists chunks. split; [exact Hsplit|].
  vm_compute in Hsplit. injection Hsplit as <-. reflexivity.
Defined.

(** X14. The first chunk that cannot be opened or extracted ends the
    splitting with an error that names the failure, and the chunks made
    before it are not returned. *)
Theorem split_stops_at_the_first_failure (env : PdfEnv.t)
    (pdfPath tempDir : string) (chunkSize totalPages : Z) (fuel k : nat) :
  1 <= chunkSize ->
  totalPages + chunkSize < 2 ^ 63 ->
  Z.of_nat k * chunkSize < totalPages ->
  (forall j : nat, (j < k)%nat -> extracts env (Z.of_nat j * chunkSize)) ->
  (k < fuel)%nat ->
  let startPage := Z.of_nat k * chunkSize in
  let endPage := Z.min (startPage + chunkSize) totalPages in
  (forall e,
     PdfEnv.os_Open env startPage = Failed e ->
     splitPDFIntoChunks env fuel pdfPath tempDir chunkSize totalPages
     = Some (Failed ("error opening PDF: " +:+ e)))
  /\ (forall file e,
        PdfEnv.os_Open env startPage = Ok file ->
        PdfEnv.api_ExtractPages env startPage
          (map GoInt.to_string (seqZ (startPage + 1) (endPage - startPage)))
        = Some e ->
        splitPDFIntoChunks env fuel pdfPath tempDir chunkSize totalPages
        = Some (Failed ("error extracting pages "
                        +:+ GoInt.to_string (startPage + 1) +:+ "-"
                        +:+ GoInt.to_string endPage +:+ ": " +:+ e))).
Proof.
  intros Hsize Hfits Hstart Hbefore Hfuel startPage endPage.
  assert (0 <= startPage) as Hpos by (unfold startPage; nia).
  assert (splitPDFIntoChunks env fuel pdfPath tempDir chunkSize totalPages
          = splitLoop env (S (fuel - k - 1)) pdfPath tempDir chunkSize
              totalPages startPage
              ([] ++ map (chunkAt env tempDir chunkSize totalPages)
                       (startsFrom chunkSize 0 k))) as ->.
  { unfold splitPDFIntoChunks.
    replace fuel with (k + S (fuel - k - 1))%nat at 1 by lia.
    rewrite (splitLoop_advance env pdfPath tempDir chunkSize totalPages
               Hsize Hfits k); [reflexivity | lia |].
    intros j Hj. simpl.
    assert (Z.of_nat j * chunkSize < totalPages) by nia.
    split; [lia | apply Hbefore, Hj]. }
  simpl. destruct (Z.ltb_spec startPage totalPages); [simpl | lia].
  rewrite (add_small startPage chunkSize) by (unfold GoInt.in_range; lia).
  rewrite (add_small startPage 1) by (unfold GoInt.in_range; lia).
  assert ((if startPage + chunkSize >? totalPages
           then totalPages else startPage + chunkSize) = endPage) as ->.
  { unfold endPage.
    destruct (Z.gtb_spec (startPage + chunkSize) totalPages); lia. }
  split.
  - intros e ->. reflexivity.
  - intros file e -> Hextract.
    rewrite pageSelectionLoop_pages by (unfold endPage; lia). simpl.
    replace (endPage + 1 - (startPage + 1)) with (endPage - startPage) by lia.
    rewrite Hextract. reflexivity.
Qed.

Lemma split_stops_at_the_first_failure_witness :
  splitPDFIntoChunks
    (PdfEnv.mk (fun start => if start =? 2 then Failed "no such file" else Ok tt)
       (fun _ _ => None) (fun _ _ => false) (fun _ => [])
       (fun dir name => dir +:+ "/" +:+ name) (Ok tt) (Ok 4))
    4 "doc.pdf" "/tmp" 1 4
  = Some (Failed "error opening PDF: no such file").
Proof.
  match goal with
  | |- splitPDFIntoChunks ?env _ _ _ _ _ = _ =>
      destruct (split_stops_at_the_first_failure env "doc.pdf" "/tmp" 1 4 4 2)
        as [Hopen _]; try lia
  end.
  { intros j Hj. assert (j = 0 \/ j = 1)%nat as [-> | ->] by lia;
      (split; [exists tt; reflexivity | reflexivity]). }
  apply Hopen. reflexivity.
Defined.

(** X15. A chunk size of 0 never ends: on a document with at least one
    page whose (empty) extraction succeeds, the splitting loop is still
    running after any number of rounds. *)
Theorem split_with_chunk_size_zero_diverges (env : PdfEnv.t)
    (pdfPath tempDir : string) (totalPages : Z) (fuel : nat) (file : unit) :
  0 < totalPages ->
  PdfEnv.os_Open env 0 = Ok file ->
  PdfEnv.api_ExtractPages env 0 [] = None ->
  splitPDFIntoChunks env fuel pdfPath tempDir 0 totalPages = None.
Proof.
  intros Hpages Hopen Hextract. unfold splitPDFIntoChunks.
  generalize (@nil ChunkInfo.t).
  induction fuel as [|fuel IH]; intros chunks; simpl;
    (destruct (Z.ltb_spec 0 totalPages); [simpl | lia]); [reflexivity|].
  change (GoInt.add 0 0) with 0.
  destruct (Z.gtb_spec 0 totalPages); [lia|].
  rewrite Hopen. simpl. rewrite Hextract. apply IH.
Qed.

Lemma split_with_chunk_size_zero_diverges_witness :
  splitPDFIntoChunks Sample.emptyPdf 1000 "doc.pdf" "/tmp" 0 3 = None.
Proof.
  apply (split_with_chunk_size_zero_diverges Sample.emptyPdf "doc.pdf" "/tmp"
           3 1000 tt); [lia | reflexivity | reflexivity].
Defined.

(** The search over the directory listing returns the first entry whose
    name contains [needle], joined to the directory, and the path given
    when there is none. *)
Lemma findChunkFile_first (env : PdfEnv.t) (tempDir needle : string)
    (files : list string) (actualPath : string) :
  (Forall (fun f => strings_Contains f needle = false) files
   /\ findChunkFile env tempDir needle files actualPath = actualPath)
  \/ exists before f after,
       files = before ++ f :: after
       /\ Forall (fun g => strings_Contains g needle = false) before
       /\ strings_Contains f needle = true
       /\ findChunkFile env tempDir needle files actualPath
          = PdfEnv.filepath_Join env tempDir f.
Proof.
  induction files as [|f files IH]; simpl.
  - left. split; [constructor | reflexivity].
  - destruct (strings_Contains f needle) eqn:Hf.
    + right. exists [], f, files. repeat split; [constructor | assumption].
    + destruct IH as [[Hnone ->]|(before & g & after & -> & Hbefore & Hg & ->)].
      * left. split; [constructor; assumption | reflexivity].
      * right. exists (f :: before), g, after.
        repeat split; [constructor; assumption | assumption].
Qed.

(** X16. When every chunk can be opened and extracted, the path of the
    chunk that starts at page s (zero-based) and ends before page e is
    the temporary directory joined with
    [chunk_<s+1>_page_<s+1>_<s+2>_..._<e>.pdf] if [os.Stat] finds that
    file in the round of this chunk; otherwise it is the directory joined
    with the first entry whose name contains [chunk_<s+1>] in the listing
    that [os.ReadDir] returns in that round, and the path of the missing
    file when the listing has no such entry. *)
Theorem chunk_paths (env : PdfEnv.t) (pdfPath tempDir : string)
    (chunkSize totalPages : Z) (fuel : nat) (chunks : list ChunkInfo.t)
    (k : nat) (chunk : ChunkInfo.t) :
  1 <= chunkSize ->
  0 <= totalPages ->
  totalPages + chunkSize < 2 ^ 63 ->
  (forall k : nat,
     Z.of_nat k * chunkSize < totalPages ->
     extracts env (Z.of_nat k * chunkSize)) ->
  splitPDFIntoChunks env fuel pdfPath tempDir chunkSize totalPages
  = Some (Ok chunks) ->
  (Z.to_nat (chunkCount chunkSize totalPages) <= fuel)%nat ->
  chunks !! k = Some chunk ->
  let s := Z.of_nat k * chunkSize in
  let e := Z.min (s + chunkSize) totalPages in
  let chunkName := "chunk_" +:+ GoInt.to_string (s + 1) in
  let expected :=
    PdfEnv.filepath_Join env tempDir
      (chunkName +:+ "_page_"
       +:+ strings_Join (map GoInt.to_string (seqZ (s + 1) (e - s))) "_"
       +:+ ".pdf") in
  (PdfEnv.os_Stat_IsNotExist env s expected = false ->
   ChunkInfo.Path chunk = expected)
  /\ (PdfEnv.os_Stat_IsNotExist env s expected = true ->
      (Forall (fun f => strings_Contains f chunkName = false)
         (PdfEnv.os_ReadDir env s)
       /\ ChunkInfo.Path chunk = expected)
      \/ exists before f after,
           PdfEnv.os_ReadDir env s = before ++ f :: after
           /\ Forall (fun g => strings_Contains g chunkName = false) before
           /\ strings_Contains f chunkName = true
           /\ ChunkInfo.Path chunk = PdfEnv.filepath_Join env tempDir f).
Proof.
  intros Hsize Hpages Hfits Hok Hsplit Hfuel Hk s e chunkName expected.
  rewrite (split_all_chunks env pdfPath tempDir chunkSize totalPages fuel
             Hsize Hpages Hfits Hok Hfuel) in Hsplit.
  injection Hsplit as <-. rewrite list_lookup_fmap in Hk.
  destruct (startsFrom chunkSize 0 _ !! k) as [start|] eqn:Hstart;
    [|discriminate].
  apply lookup_startsFrom in Hstart as [_ ->]. injection Hk as <-.
  rewrite Z.add_0_l. unfold chunkAt. simpl.
  fold s. fold e. fold chunkName. fold expected.
  destruct (PdfEnv.os_Stat_IsNotExist env s expected).
  - split; [discriminate|]. intros _. apply findChunkFile_first.
  - split; [reflexivity | discriminate].
Qed.

Lemma chunk_paths_witness :
  exists chunks first,
    splitPDFIntoChunks Sample.perPagePdf 3 "doc.pdf" "/tmp" 5 12
    = Some (Ok chunks)
    /\ chunks !! 0%nat = Some first
    /\ ChunkInfo.Path first = "/tmp/chunk_1_page_1.pdf".
Proof.
  destruct (splitPDFIntoChunks Sample.perPagePdf 3 "doc.pdf" "/tmp" 5 12)
    as [[chunks|]|] eqn:Hsplit; try (vm_compute in Hsplit; discriminate Hsplit).
  destruct (chunks !! 0%nat) as [first|] eqn:Hfirst;
    [|vm_compute in Hsplit; injection Hsplit as <-; discriminate Hfirst].
  exists chunks, first. split; [reflexivity|]. split; [exact Hfirst|].
  assert (forall j : nat,
            Z.of_nat j * 5 < 12 ->
            extracts Sample.perPagePdf (Z.of_nat j * 5)) as Hok.
  { intros j _. split; [exists tt; reflexivity | reflexivity]. }
  assert (Z.to_nat (chunkCount 5 12) <= 3)%nat as Hfuel by (vm_compute; lia).
  destruct (chunk_paths Sample.perPagePdf "doc.pdf" "/tmp" 5 12 3 chunks 0
              first ltac:(lia) ltac:(lia) ltac:(lia) Hok Hsplit Hfuel Hfirst)
    as [_ Hmissing].
  destruct (Hmissing eq_refl)
    as [[Hnone _]|(before & f & after & Hlisting & Hbefore & _ & Hpath)].
  - vm_compute in Hnone. inversion Hnone as [|? ? Hhead _]. discriminate Hhead.
  - destruct before as [|g before].
    + vm_compute in Hlisting. injection Hlisting as <- _.
      rewrite Hpath. reflexivity.
    + vm_compute in Hlisting. injection Hlisting as <- _.
      inversion Hbefore as [|? ? Hhead _]. vm_compute in Hhead.
      discriminate Hhead.
Defined.

(** * The result of [main], page by page *)

Section SplitLoopOk.

Variable env : PdfEnv.t.
Variables pdfPath tempDir : string.
Variables chunkSize totalPages : Z.

Hypothesis chunkSize_pos : 1 <= chunkSize.
Hypothesis no_overflow : totalPages + chunkSize < 2 ^ 63.

(** A round of the outer loop that does not return an error is a
    successful round. *)
Lemma splitLoop_Ok_round (fuel : nat) (startPage : Z)
    (acc chunks : list ChunkInfo.t) :
  0 <= startPage < totalPages ->
  splitLoop env (S fuel) pdfPath tempDir chunkSize totalPages startPage acc
  = Some (Ok chunks) ->
  splitLoop env fuel pdfPath tempDir chunkSize totalPages
    (startPage + chunkSize)
    (acc ++ [chunkAt env tempDir chunkSize totalPages startPage])
  = Some (Ok chunks).
Proof.
  intros Hstart. simpl.
  destruct (Z.ltb_spec startPage totalPages); [simpl | lia].
  rewrite (add_small startPage chunkSize) by (unfold GoInt.in_range; lia).
  rewrite (add_small startPage 1) by (unfold GoInt.in_range; lia).
  assert ((if startPage + chunkSize >? totalPages
           then totalPages else startPage + chunkSize)
          = Z.min (startPage + chunkSize) totalPages) as ->.
  { destruct (Z.gtb_spec (startPage + chunkSize) totalPages); lia. }
  destruct (PdfEnv.os_Open env startPage); [|discriminate].
  rewrite pageSelectionLoop_pages by lia. simpl.
  replace (Z.min (startPage + chunkSize) totalPages + 1 - (startPage + 1))
    with (Z.min (startPage + chunkSize) totalPages - startPage) by lia.
  destruct (PdfEnv.api_ExtractPages env startPage _); [discriminate|].
  unfold GoInt.sub. rewrite wrap_small by (unfold GoInt.in_range; lia).
  intros Hrest. exact Hrest.
Qed.

(** The chunks of a splitting that returns no error: one for each start
    page [startPage + k * chunkSize] below [totalPages]. *)
Lemma splitLoop_Ok_chunks (fuel : nat) :
  forall startPage acc chunks,
    0 <= startPage ->
    splitLoop env fuel pdfPath tempDir chunkSize totalPages startPage acc
    = Some (Ok chunks) ->
    exists n : nat,
      chunks = acc ++ map (chunkAt env tempDir chunkSize totalPages)
                        (startsFrom chunkSize startPage n)
      /\ totalPages <= startPage + Z.of_nat n * chunkSize
      /\ forall k, (k < n)%nat ->
                   startPage + Z.of_nat k * chunkSize < totalPages.
Proof.
  induction fuel as [|fuel IH]; intros startPage acc chunks Hstart Hsplit.
  - simpl in Hsplit.
    destruct (Z.ltb_spec startPage totalPages); [discriminate|].
    injection Hsplit as <-. exists 0%nat. simpl.
    rewrite app_nil_r. repeat split; lia.
  - destruct (Z.ltb_spec startPage totalPages) as [Hlt|Hge].
    + apply splitLoop_Ok_round in Hsplit; [|lia].
      apply IH in Hsplit as (n & -> & Hend & Hbelow); [|lia].
      exists (S n). rewrite startsFrom_S, <- app_assoc. simpl.
      split; [reflexivity|]. split; [lia|].
      intros [|k] Hk; [lia|].
      specialize (Hbelow k). lia.
    + rewrite splitLoop_done in Hsplit by lia.
      injection Hsplit as <-. exists 0%nat. simpl.
      rewrite app_nil_r. repeat split; lia.
Qed.

End SplitLoopOk.

(** A run of [main] that returns has split the document into single
    pages and has run a batch on the chunks. *)
Lemma main_returned_chunks (env : MainEnv.t) (sched : list Tid)
    (fr : FullAnalysisResult.t) :
  main env sched = Some (Returned fr) ->
  exists tempDir chunks totalPages,
    let config :=
      Config.mk (MainEnv.ANTHROPIC_API_KEY env) haiku
        (nth 1 (MainEnv.os_Args env) "") in
    getPageCount (MainEnv.pdf env) (Config.PDFPath config) = Ok totalPages
    /\ splitPDFIntoChunks (MainEnv.pdf env) (Z.to_nat totalPages)
         (Config.PDFPath config) tempDir 1 totalPages = Some (Ok chunks)
    /\ runBatch
         (Batch.mk ModelPricing config chunks maxConcurrent maxRetries
            retryDelay (MainEnv.world env) (MainEnv.time_Since env)
            (MainEnv.time_Now env) (MainEnv.Duration_String env))
         totalPages (MainEnv.totalDuration env) (MainEnv.generatedAt env)
         sched
       = Some fr.
Proof.
  unfold main. intros Hmain.
  destruct (length (MainEnv.os_Args env) <? 2)%nat; [discriminate|].
  destruct (String.eqb _ ""); [discriminate|].
  destruct (MainEnv.os_Stat_IsNotExist env _); [discriminate|].
  destruct (getPageCount _ _) as [totalPages|] eqn:Hpages; [|discriminate].
  destruct (MainEnv.os_MkdirTemp env) as [tempDir|]; [|discriminate].
  destruct (splitPDFIntoChunks _ _ _ _ _ _) as [[chunks|]|] eqn:Hsplit;
    try discriminate.
  simpl in Hmain.
  match type of Hmain with
  | match ?run with _ => _ end = _ => destruct run as [fr'|] eqn:Hrun
  end; [|discriminate].
  injection Hmain as ->. exists tempDir, chunks, totalPages. auto.
Qed.

(** The page numbers of an entry do not depend on how the call ended. *)
Lemma chunkResult_numbers (b : Batch.t) (index : nat) (chunk : ChunkInfo.t)
    (r : Analyzed.t) :
  ChunkAnalysis.ChunkNumber (chunkResult b index chunk r)
  = GoInt.add (Z.of_nat index) 1
  /\ ChunkAnalysis.StartPage (chunkResult b index chunk r)
     = GoInt.add (ChunkInfo.StartPage chunk) 1
  /\ ChunkAnalysis.EndPage (chunkResult b index chunk r)
     = GoInt.add (ChunkInfo.EndPage chunk) 1.
Proof.
  unfold chunkResult. destruct (Analyzed.err r); simpl; auto.
Qed.

(** X17. When [main] returns for a document of N pages (N below
    [2^63 - 1]), the result records N as its number of pages, has
    max(N, 0) as its number of chunks and holds exactly that many
    entries; entry i (from 0) has chunk number i + 1 and covers the one
    page i + 1, whether the analysis of that page succeeded or not and
    whatever the schedule of the goroutines. *)
Theorem main_result_has_one_entry_per_page (env : MainEnv.t)
    (sched : list Tid) (fr : FullAnalysisResult.t) (N : Z) :
  PdfEnv.api_PageCount (MainEnv.pdf env) = Ok N ->
  N < 2 ^ 63 - 1 ->
  main env sched = Some (Returned fr) ->
  FullAnalysisResult.PDFPath fr = nth 1 (MainEnv.os_Args env) ""
  /\ FullAnalysisResult.TotalPages fr = N
  /\ FullAnalysisResult.TotalChunks fr = Z.max N 0
  /\ length (FullAnalysisResult.Chunks fr) = Z.to_nat N
  /\ forall (i : nat) (r : ChunkAnalysis.t),
       FullAnalysisResult.Chunks fr !! i = Some r ->
       ChunkAnalysis.ChunkNumber r = Z.of_nat i + 1
       /\ ChunkAnalysis.StartPage r = Z.of_nat i + 1
       /\ ChunkAnalysis.EndPage r = Z.of_nat i + 1.
Proof.
  intros Hcount Hsmall Hmain.
  apply main_returned_chunks in Hmain
    as (tempDir & chunks & totalPages & Hpages & Hsplit & Hrun).
  simpl in Hpages, Hsplit.
  assert (totalPages = N) as ->.
  { unfold getPageCount in Hpages.
    destruct (PdfEnv.os_Open_forCount _); [|discriminate].
    rewrite Hcount in Hpages. congruence. }
  apply splitLoop_Ok_chunks in Hsplit as (n & Hchunks & Hend & Hbelow);
    [|lia..].
  simpl in Hchunks.
  assert (n = Z.to_nat N) as Hn.
  { destruct n as [|n]; [lia|]. specialize (Hbelow n). lia. }
  assert (length chunks = n) as Hlen.
  { rewrite Hchunks, length_map. unfold startsFrom.
    rewrite length_map, length_seq. reflexivity. }
  apply runBatch_inv in Hrun as (rs & Hdispatch & ->). simpl.
  pose proof (dispatch_length _ _ _ Hdispatch) as Hrs. simpl in Hrs.
  split; [reflexivity|]. split; [reflexivity|].
  split; [lia|]. split; [lia|].
  - intros i r Hr.
    assert (i < n)%nat as Hi.
    { apply lookup_lt_Some in Hr. lia. }
    destruct (chunks !! i) as [chunk|] eqn:Hchunk;
      [|apply lookup_ge_None in Hchunk; lia].
    rewrite (dispatch_lookup _ _ _ _ _ Hdispatch Hchunk) in Hr.
    injection Hr as <-.
    destruct (chunkResult_numbers
                (Batch.mk ModelPricing
                   (Config.mk (MainEnv.ANTHROPIC_API_KEY env) haiku
                      (nth 1 (MainEnv.os_Args env) ""))
                   chunks maxConcurrent maxRetries retryDelay
                   (MainEnv.world env) (MainEnv.time_Since env)
                   (MainEnv.time_Now env) (MainEnv.Duration_String env))
                i chunk
                (fst (runRetry
                   (Batch.mk ModelPricing
                      (Config.mk (MainEnv.ANTHROPIC_API_KEY env) haiku
                         (nth 1 (MainEnv.os_Args env) ""))
                      chunks maxConcurrent maxRetries retryDelay
                      (MainEnv.world env) (MainEnv.time_Since env)
                      (MainEnv.time_Now env) (MainEnv.Duration_String env))
                   i chunk)))
      as (Hnumber & Hfirst & Hlast).
    unfold unitResult. rewrite Hnumber, Hfirst, Hlast.
    rewrite Hchunks, list_lookup_fmap in Hchunk.
    destruct (startsFrom 1 0 n !! i) as [start|] eqn:Hstart; [|discriminate].
    apply lookup_startsFrom in Hstart as [_ ->]. injection Hchunk as <-.
    simpl. specialize (Hbelow i Hi).
    rewrite !add_small by (unfold GoInt.in_range; lia).
    repeat split; lia.
Qed.

Lemma main_result_has_one_entry_per_page_witness :
  exists fr,
    main Sample.threePages Sample.threePagesSchedule = Some (Returned fr)
    /\ FullAnalysisResult.TotalChunks fr = 3
    /\ length (FullAnalysisResult.Chunks fr) = 3%nat.
Proof.
  destruct (main Sample.threePages Sample.threePagesSchedule)
    as [[msg|fr]|] eqn:Hmain; try (vm_compute in Hmain; discriminate).
  exists fr. split; [reflexivity|].
  destruct (main_result_has_one_entry_per_page Sample.threePages
              Sample.threePagesSchedule fr 3)
    as (_ & _ & Hchunks & Hlength & _);
    [reflexivity | lia | exact Hmain |].
  split; [exact Hchunks | exact Hlength].
Defined.

(** X18. How [main] exits is decided before the first goroutine is
    started: two runs of [main] with the same arguments, key, file
    system and document end with the same exit code, and with the same
    message when that is a fatal one, whatever the analysis service
    answers, whatever the clock shows and however the goroutines are
    scheduled. In particular no failed page makes [main] exit with an
    error. *)
Theorem exit_code_ignores_the_analysis (env env' : MainEnv.t)
    (sched sched' : list Tid) (out out' : Exit) :
  MainEnv.os_Args env = MainEnv.os_Args env' ->
  MainEnv.ANTHROPIC_API_KEY env = MainEnv.ANTHROPIC_API_KEY env' ->
  MainEnv.os_Stat_IsNotExist env (nth 1 (MainEnv.os_Args env) "")
  = MainEnv.os_Stat_IsNotExist env' (nth 1 (MainEnv.os_Args env) "") ->
  MainEnv.pdf env = MainEnv.pdf env' ->
  MainEnv.os_MkdirTemp env = MainEnv.os_MkdirTemp env' ->
  main env sched = Some out ->
  main env' sched' = Some out' ->
  exitCode out = exitCode out'
  /\ forall msg, out = Fatal msg \/ out' = Fatal msg -> out = out'.
Proof.
  unfold main. intros <- <- Hstat <- <-. simpl. rewrite <- Hstat.
  destruct (length (MainEnv.os_Args env) <? 2)%nat.
  { intros [= <-] [= <-]. auto. }
  destruct (String.eqb _ "").
  { intros [= <-] [= <-]. auto. }
  destruct (MainEnv.os_Stat_IsNotExist env _).
  { intros [= <-] [= <-]. auto. }
  destruct (getPageCount _ _) as [totalPages|].
  2: { intros [= <-] [= <-]. auto. }
  destruct (MainEnv.os_MkdirTemp env) as [tempDir|].
  2: { intros [= <-] [= <-]. auto. }
  destruct (splitPDFIntoChunks _ _ _ _ _ _) as [[chunks|]|].
  2: { intros [= <-] [= <-]. auto. }
  2: { discriminate. }
  intros Hrun Hrun'.
  match type of Hrun with
  | match ?run with _ => _ end = _ => destruct run; [|discriminate]
  end.
  match type of Hrun' with
  | match ?run with _ => _ end = _ => destruct run; [|discriminate]
  end.
  injection Hrun as <-. injection Hrun' as <-.
  split; [reflexivity|]. intros msg [|]; discriminate.
Qed.

Lemma exit_code_ignores_the_analysis_witness :
  exists out out',
    main Sample.threePages Sample.threePagesSchedule = Some out
    /\ main Sample.threePagesRefused Sample.threePagesRefusedSchedule
       = Some out'
    /\ exitCode out = 0
    /\ exitCode out' = 0.
Proof.
  destruct (main Sample.threePages Sample.threePagesSchedule)
    as [out|] eqn:Hmain; [|vm_compute in Hmain; discriminate].
  destruct (main Sample.threePagesRefused Sample.threePagesRefusedSchedule)
    as [out'|] eqn:Hmain'; [|vm_compute in Hmain'; discriminate].
  exists out, out'. split; [reflexivity|]. split; [reflexivity|].
  destruct (exit_code_ignores_the_analysis Sample.threePages
              Sample.threePagesRefused Sample.threePagesSchedule
              Sample.threePagesRefusedSchedule out out'
              eq_refl eq_refl eq_refl eq_refl eq_refl Hmain Hmain')
    as [Hcode _].
  rewrite <- Hcode.
  assert (exitCode out = 0) as Hzero.
  { destruct out as [msg|fr]; [vm_compute in Hmain; discriminate Hmain|].
    reflexivity. }
  split; exact Hzero.
Defined.

(** * The name of the output file *)

Lemma length_append (a b : string) :
  String.length (a +:+ b) = (String.length a + String.length b)%nat.
Proof. induction a as [|c a IH]; simpl; [reflexivity | rewrite IH; reflexivity]. Qed.

Lemma append_assoc (a b c : string) : (a +:+ b) +:+ c = a +:+ (b +:+ c).
Proof.
  induction a as [|d a IH]; [reflexivity|].
  change (String d ((a +:+ b) +:+ c) = String d (a +:+ (b +:+ c))).
  rewrite IH. reflexivity.
Qed.

Lemma append_empty_r (a : string) : a +:+ "" = a.
Proof.
  induction a as [|d a IH]; [reflexivity|].
  change (String d (a +:+ "") = String d a).
  rewrite IH. reflexivity.
Qed.

Lemma substring_append (a b : string) :
  String.substring 0 (String.length a) (a +:+ b) = a.
Proof.
  induction a as [|c a IH]; simpl.
  - destruct b; reflexivity.
  - rewrite IH. reflexivity.
Qed.

Lemma string_of_list_ascii_app (l1 l2 : list Ascii.ascii) :
  String.string_of_list_ascii (l1 ++ l2)
  = String.string_of_list_ascii l1 +:+ String.string_of_list_ascii l2.
Proof. induction l1 as [|c l1 IH]; simpl; [reflexivity | rewrite IH; reflexivity]. Qed.

Lemma list_ascii_of_string_app (a b : string) :
  String.list_ascii_of_string (a +:+ b)
  = String.list_ascii_of_string a ++ String.list_ascii_of_string b.
Proof. induction a as [|c a IH]; simpl; [reflexivity | rewrite IH; reflexivity]. Qed.

(** A character of an extension after its dot. *)
Definition plain (c : Ascii.ascii) : Prop := c <> "."%char /\ c <> "/"%char.

(** What the loop of [filepath.Ext] returns: nothing, or the dot it has
    stopped at followed by what it has passed. *)
Lemma extLoop_dot (rest : list Ascii.ascii) :
  forall suffix,
    extLoop rest suffix <> "" ->
    exists passed before,
      rest = passed ++ "."%char :: before
      /\ Forall plain passed
      /\ extLoop rest suffix
         = String "." (String.string_of_list_ascii (rev passed) +:+ suffix).
Proof.
  induction rest as [|c rest IH]; intros suffix Hext; simpl in *.
  - contradiction.
  - destruct (Ascii.eqb_spec c "/"%char) as [->|Hslash]; [contradiction|].
    destruct (Ascii.eqb_spec c "."%char) as [->|Hdot].
    + exists [], rest. split; [reflexivity|].
      split; [constructor | reflexivity].
    + destruct (IH _ Hext) as (passed & before & -> & Hplain & ->).
      exists (c :: passed), before. split; [reflexivity|].
      split; [constructor; [split|]; assumption|].
      simpl. rewrite string_of_list_ascii_app, append_assoc. reflexivity.
Qed.

(** The loop returns nothing only if it meets a separator before any
    dot. *)
Lemma extLoop_none (rest : list Ascii.ascii) :
  forall suffix,
    extLoop rest suffix = "" ->
    forall passed before,
      rest = passed ++ "."%char :: before -> In "/"%char passed.
Proof.
  induction rest as [|c rest IH]; intros suffix Hext passed before Hrest;
    simpl in *.
  - destruct passed; discriminate.
  - destruct (Ascii.eqb_spec c "/"%char) as [->|Hslash].
    + destruct passed as [|d passed]; [discriminate|].
      injection Hrest as <- _. left. reflexivity.
    + destruct (Ascii.eqb_spec c "."%char) as [->|Hdot]; [discriminate|].
      destruct passed as [|d passed];
        [injection Hrest as Hc _; contradiction|].
      injection Hrest as <- Hrest. right. apply (IH _ Hext _ _ Hrest).
Qed.

(** [filepath.Ext] returns a suffix of its argument: nothing when the
    last element of the path has no dot, and else what begins at its last
    dot. *)
Lemma filepath_Ext_suffix (path : string) :
  exists stem,
    path = stem +:+ filepath_Ext path
    /\ ((filepath_Ext path = ""
         /\ forall before after,
              path = before +:+ String "." after ->
              In "/"%char (String.list_ascii_of_string after))
        \/ exists rest,
             filepath_Ext path = String "." rest
             /\ Forall plain (String.list_ascii_of_string rest)).
Proof.
  unfold filepath_Ext.
  destruct (String.string_dec (extLoop (rev (String.list_ascii_of_string path)) "") "")
    as [Hnone|Hsome].
  - exists path. rewrite Hnone. split.
    + rewrite append_empty_r. reflexivity.
    + left. split; [reflexivity|]. intros before after ->.
      rewrite list_ascii_of_string_app in Hnone. simpl in Hnone.
      rewrite rev_app_distr in Hnone. simpl in Hnone.
      rewrite <- app_assoc in Hnone. simpl in Hnone.
      apply in_rev.
      apply (extLoop_none _ _ Hnone _ _ eq_refl).
  - destruct (extLoop_dot _ _ Hsome) as (passed & before & Hrev & Hplain & ->).
    exists (String.string_of_list_ascii (rev before)). split.
    + rewrite <- (String.string_of_list_ascii_of_string path) at 1.
      rewrite <- (rev_involutive (String.list_ascii_of_string path)), Hrev.
      rewrite rev_app_distr. simpl. rewrite <- app_assoc. simpl.
      rewrite string_of_list_ascii_app, append_empty_r. reflexivity.
    + right. eexists. split; [reflexivity|].
      rewrite append_empty_r.
      rewrite String.list_ascii_of_string_of_list_ascii.
      apply Forall_rev. exact Hplain.
Qed.

(** X19. [generateOutputFilename] never slices out of range: for every
    path and format it returns the stem of the base name followed by
    [_analysis.] and the format, where the base name is the stem
    followed by its extension; the extension begins at the last dot of
    the base name and is empty when the last element of the base name
    has no dot. The directory of the document is not part of the
    name. *)
Theorem output_name_is_stem_and_format (filepath_Base : string -> string)
    (pdfPath format : string) :
  exists stem ext,
    filepath_Base pdfPath = stem +:+ ext
    /\ generateOutputFilename filepath_Base pdfPath format
       = Some (stem +:+ "_analysis." +:+ format)
    /\ ((ext = ""
         /\ forall before after,
              filepath_Base pdfPath = before +:+ String "." after ->
              In "/"%char (String.list_ascii_of_string after))
        \/ exists rest,
             ext = String "." rest
             /\ Forall plain (String.list_ascii_of_string rest)).
Proof.
  destruct (filepath_Ext_suffix (filepath_Base pdfPath)) as (stem & Hbase & Hext).
  exists stem, (filepath_Ext (filepath_Base pdfPath)).
  split; [exact Hbase|]. split; [|exact Hext].
  unfold generateOutputFilename.
  set (ext := filepath_Ext (filepath_Base pdfPath)) in *.
  clearbody ext. rewrite Hbase, length_append.
  destruct (Nat.leb_spec (String.length ext)
              (String.length stem + String.length ext)); [|lia].
  replace (String.length stem + String.length ext - String.length ext)%nat
    with (String.length stem) by lia.
  rewrite substring_append. reflexivity.
Qed.

(** * When a call succeeds *)

(** X20. [analyzeChunk] reports success in one case only: the chunk was
    read, the request built and sent, the body of the answer read, the
    status is 200 (no other status, not even another 2xx) and the body
    parses. The analysis is then the text of the first content block,
    the empty text when the answer has no content block, and the token
    counts are the two usage counters of the answer. *)
Theorem success_is_a_parsed_answer_with_status_200 (w : CallEnv.t)
    (apiKey modelName chunkPath : string) (pageNumber : Z) :
  (Analyzed.err (analyzeChunk w apiKey modelName chunkPath pageNumber) = None
   <-> exists body apiResponse,
         answered w chunkPath 200 body
         /\ CallEnv.json_Unmarshal w body = Ok apiResponse)
  /\ forall body apiResponse,
       answered w chunkPath 200 body ->
       CallEnv.json_Unmarshal w body = Ok apiResponse ->
       analyzeChunk w apiKey modelName chunkPath pageNumber
       = Analyzed.mk (hd "" (ApiResponse.Content apiResponse))
           (ApiResponse.UsageInputTokens apiResponse)
           (ApiResponse.UsageOutputTokens apiResponse)
           None.
Proof.
  assert (forall body apiResponse,
            answered w chunkPath 200 body ->
            CallEnv.json_Unmarshal w body = Ok apiResponse ->
            analyzeChunk w apiKey modelName chunkPath pageNumber
            = Analyzed.mk (hd "" (ApiResponse.Content apiResponse))
                (ApiResponse.UsageInputTokens apiResponse)
                (ApiResponse.UsageOutputTokens apiResponse)
                None) as Hparsed.
  { intros body apiResponse
      (pdfBytes & jsonData & resp & Hread & Hjson & Hreq & Hdo & Hstatus
       & Hbody) Hparse.
    unfold analyzeChunk.
    rewrite Hread, Hjson, Hreq, Hdo, Hbody, Hstatus, Hparse. simpl.
    destruct (ApiResponse.Content apiResponse); reflexivity. }
  split; [|exact Hparsed]. split.
  - unfold analyzeChunk, answered.
    destruct (CallEnv.os_ReadFile w chunkPath) as [pdfBytes|]; [|discriminate].
    destruct (CallEnv.json_Marshal w) as [jsonData|]; [|discriminate].
    destruct (CallEnv.http_NewRequest w) as [[]|]; [|discriminate].
    destruct (CallEnv.client_Do w) as [resp|]; [|discriminate].
    destruct (HttpResponse.ReadAll resp) as [body|] eqn:Hbody; [|discriminate].
    destruct (Z.eqb_spec (HttpResponse.StatusCode resp) 200) as [Hstatus|];
      [|discriminate].
    simpl.
    destruct (CallEnv.json_Unmarshal w body) as [apiResponse|] eqn:Hparse;
      [|discriminate].
    intros _. exists body, apiResponse.
    split; [|exact Hparse].
    exists pdfBytes, jsonData, resp. auto 10.
  - intros (body & apiResponse & Hanswered & Hparse).
    rewrite (Hparsed body apiResponse Hanswered Hparse). reflexivity.
Qed.

(** * Every invocation ends *)

Lemma main_ends_witness :
  exists sched out, main Sample.threePages sched = Some out.
Proof.
  apply (main_ends Sample.threePages).
  intros pages Hpages. vm_compute in Hpages. injection Hpages as <-. lia.
Defined.
